(** * ICU patient registry pipeline

    A shallow embedding of the identity resolver
    ([scripts/anonymise_patients.py]), the registry merge engine
    ([scripts/process_patient_data.py]), the registry validator
    ([scripts/validate_registry.py]) and the small-cell suppression
    filter ([scripts/analyse_registry.py]), followed by the properties
    of the pipeline that the specification states.

    Conventions of the embedding.
    - A Python [str] is a [string]; the characters are the ASCII code
      points (hospital and NHS numbers are ASCII).
    - A table cell is an [option value]: [None] is a missing value (NaN,
      NaT, None: whatever [pd.isna] accepts).
    - A [DataFrame] has ordered column labels and positionally ordered
      rows (the default RangeIndex); column labels are unique. The
      dtype of a column is not part of the embedding: a cell holds any
      value, as after the silent upcasting of pandas 2.
    - Code that raises returns [Raise e]; code that mutates [self]
      returns the new object next to its result. *)

From Stdlib Require Import Ascii String.
From stdpp Require Import gmap strings list pretty.

Local Open Scope string_scope.
Local Open Scope list_scope.

(** ** Python string operations used by the pipeline *)

Module PyStr.

(** [str.isspace] on one ASCII character: TAB, LF, VT, FF, CR, the
    four separators FS, GS, RS, US, and the space. *)
Definition isspace (c : ascii) : bool :=
  let n := nat_of_ascii c in
  ((9 <=? n)%nat && (n <=? 13)%nat) || ((28 <=? n)%nat && (n <=? 32)%nat).

(** [str.upper] on one ASCII character. *)
Definition upper_char (c : ascii) : ascii :=
  let n := nat_of_ascii c in
  if ((97 <=? n)%nat && (n <=? 122)%nat) then ascii_of_nat (n - 32) else c.

Fixpoint upper (s : string) : string :=
  match s with
  | EmptyString => EmptyString
  | String c s' => String (upper_char c) (upper s')
  end.

Fixpoint lstrip (s : string) : string :=
  match s with
  | EmptyString => EmptyString
  | String c s' => if isspace c then lstrip s' else s
  end.

Fixpoint rstrip (s : string) : string :=
  match s with
  | EmptyString => EmptyString
  | String c s' =>
      match rstrip s' with
      | EmptyString => if isspace c then EmptyString else String c EmptyString
      | r => String c r
      end
  end.

(** [s.strip()] with no argument. *)
Definition strip (s : string) : string := rstrip (lstrip s).

(** [s.replace(' ', '')]: every space character (U+0020) is dropped. *)
Fixpoint remove_spaces (s : string) : string :=
  match s with
  | EmptyString => EmptyString
  | String c s' =>
      if Ascii.eqb c " "%char then remove_spaces s' else String c (remove_spaces s')
  end.

(** [f"{n:0{w}d}"] for a non-negative [n]: the decimal digits, padded
    on the left with zeros up to width [w]. *)
Fixpoint zeros (k : nat) : string :=
  match k with
  | O => EmptyString
  | S k' => String "0"%char (zeros k')
  end.

Definition zero_pad (w : nat) (n : N) : string :=
  let d := pretty n in zeros (w - String.length d) +:+ d.

End PyStr.

(** ** SHA-256 (FIPS 180-4), as computed by [hashlib.sha256] *)

Module SHA256.
Local Open Scope N_scope.

Definition mask32 : N := 0xffffffff.
Definition add32 (a b : N) : N := N.land (a + b) mask32.
Definition rotr (k x : N) : N :=
  N.lor (N.shiftr x k) (N.land (N.shiftl x (32 - k)) mask32).
Definition xor3 (a b c : N) : N := N.lxor a (N.lxor b c).

Definition Ch (x y z : N) : N :=
  N.lxor (N.land x y) (N.land (N.lxor x mask32) z).
Definition Maj (x y z : N) : N :=
  xor3 (N.land x y) (N.land x z) (N.land y z).
Definition Sig0 (x : N) : N := xor3 (rotr 2 x) (rotr 13 x) (rotr 22 x).
Definition Sig1 (x : N) : N := xor3 (rotr 6 x) (rotr 11 x) (rotr 25 x).
Definition sig0 (x : N) : N := xor3 (rotr 7 x) (rotr 18 x) (N.shiftr x 3).
Definition sig1 (x : N) : N := xor3 (rotr 17 x) (rotr 19 x) (N.shiftr x 10).

(** The first [n] prime numbers. *)
Definition is_prime (p : nat) : bool :=
  forallb (λ d, negb (p `mod` d =? 0)%nat) (seq 2 (p - 2)).

Definition primes (n : nat) : list N :=
  N.of_nat <$> take n (filter (λ p, is_prime p = true) (seq 2 400)).

(** The integer cube root of [x], for [x] below [2 ^ 108]: the bits of
    the root are fixed from the highest one down. *)
Definition cube_root (x : N) : N :=
  foldl (λ r b, let r' := r + N.shiftl 1 (N.of_nat b) in
                if r' * r' * r' <=? x then r' else r)
        0 (reverse (seq 0 36)).

(** The round constants: the first 32 bits of the fractional parts of
    the cube roots of the first 64 primes. *)
Definition K : list N :=
  (λ p, N.land (cube_root (N.shiftl p 96)) mask32) <$> primes 64.

(** The initial hash value: the first 32 bits of the fractional parts of
    the square roots of the first 8 primes. *)
Definition H0 : list N :=
  (λ p, N.land (N.sqrt (N.shiftl p 64)) mask32) <$> primes 8.

(** Big-endian bytes of [x], [n] of them. *)
Fixpoint be_bytes (n : nat) (x : N) : list N :=
  match n with
  | O => []
  | S n' => N.land (N.shiftr x (8 * N.of_nat n')) 0xff :: be_bytes n' x
  end.

(** Padding: the byte 0x80, zero bytes up to 56 modulo 64, and the
    length of the message in bits on eight bytes. *)
Definition pad (msg : list N) : list N :=
  let len := length msg in
  let fill := ((119 - len `mod` 64) `mod` 64)%nat in
  msg ++ 0x80 :: replicate fill 0 ++ be_bytes 8 (8 * N.of_nat len).

Fixpoint be_words (n : nat) (bs : list N) : list N :=
  match n, bs with
  | S n', b0 :: b1 :: b2 :: b3 :: bs' =>
      (N.shiftl b0 24 + N.shiftl b1 16 + N.shiftl b2 8 + b3) :: be_words n' bs'
  | _, _ => []
  end.

(** Message schedule; [recent] holds the words computed so far, the
    newest first. *)
Fixpoint extend (n : nat) (recent : list N) : list N :=
  match n with
  | O => recent
  | S n' =>
      let w := add32 (add32 (sig1 (nth 1 recent 0)) (nth 6 recent 0))
                     (add32 (sig0 (nth 14 recent 0)) (nth 15 recent 0)) in
      extend n' (w :: recent)
  end.

Definition schedule (block : list N) : list N :=
  reverse (extend 48 (reverse (be_words 16 block))).

Definition round (st : list N) (kw : N * N) : list N :=
  match st with
  | [a; b; c; d; e; f; g; h] =>
      let t1 := add32 (add32 (add32 h (Sig1 e)) (add32 (Ch e f g) kw.1)) kw.2 in
      let t2 := add32 (Sig0 a) (Maj a b c) in
      [add32 t1 t2; a; b; c; add32 d t1; e; f; g]
  | _ => st
  end.

Definition compress (h : list N) (block : list N) : list N :=
  zip_with add32 h (foldl round h (zip K (schedule block))).

Fixpoint blocks (n : nat) (bs : list N) : list (list N) :=
  match n with
  | O => []
  | S n' => take 64 bs :: blocks n' (drop 64 bs)
  end.

Definition digest (msg : list N) : list N :=
  let p := pad msg in
  foldl compress H0 (blocks (length p / 64) p).

Definition hex_digit (d : N) : ascii :=
  if d <? 10 then ascii_of_N (48 + d) else ascii_of_N (87 + d).

Fixpoint hex_of_bytes (bs : list N) : string :=
  match bs with
  | [] => EmptyString
  | b :: bs' =>
      String (hex_digit (N.shiftr b 4)) (String (hex_digit (N.land b 0xf)) (hex_of_bytes bs'))
  end.

Fixpoint encode (s : string) : list N :=
  match s with
  | EmptyString => []
  | String c s' => N_of_ascii c :: encode s'
  end.

(** [hashlib.sha256(s.encode()).hexdigest()] *)
Definition hexdigest (s : string) : string :=
  hex_of_bytes (mjoin (be_bytes 4 <$> digest (encode s))).

End SHA256.

(** ** Values, cells and exceptions *)

(** What a cell of a table holds when it is not missing: a string, or a
    number (integer counts, and timestamps counted in seconds). *)
Inductive value : Type :=
| Str (s : string)
| Num (z : Z).

Global Instance value_eq_dec : EqDecision value.
Proof. solve_decision. Defined.

Global Instance value_countable : Countable value.
Proof.
  refine (inj_countable' (λ v, match v with Str s => inl s | Num z => inr z end)
                         (λ x, match x with inl s => Str s | inr z => Num z end) _).
  by intros [].
Defined.

(** [str(x)] for a cell: a string is itself, an integer is printed in
    decimal, a missing value prints as [nan]. *)
Definition py_str (x : option value) : string :=
  match x with
  | Some (Str s) => s
  | Some (Num z) => pretty z
  | None => "nan"
  end.

Inductive exn : Type :=
| FileNotFoundError
| ValueError
| KeyError
| IndexError
| TypeError.

Inductive result (A : Type) : Type :=
| Ok (a : A)
| Raise (e : exn).
Arguments Ok {A} a.
Arguments Raise {A} e.

Global Instance result_ret : MRet result := λ A a, Ok a.
Global Instance result_bind : MBind result := λ A B k r,
  match r with
  | Ok a => k a
  | Raise e => Raise e
  end.

(** What a call returned, when it returned. *)
Definition returned {A : Type} (r : result A) : option A :=
  match r with
  | Ok a => Some a
  | Raise _ => None
  end.

(** ** Identity resolver ([PatientAnonymiser]) *)

(** The resolver once its salt is loaded: the salt, the table from
    digest to surrogate ID, and the next sequence number. *)
Record PatientAnonymiser : Type := {
  salt : string;
  mapping : gmap string string;
  next_id : N
}.

(** [__init__], after [_get_or_create_salt] has produced [s]. *)
Definition new_anonymiser (s : string) : PatientAnonymiser :=
  {| salt := s; mapping := ∅; next_id := 1 |}.

(** [str(identifier).strip().upper().replace(' ', '')] *)
Definition normalise (identifier : option value) : string :=
  PyStr.remove_spaces (PyStr.upper (PyStr.strip (py_str identifier))).

Definition _create_hash (self : PatientAnonymiser) (identifier : option value) : string :=
  let combined := normalise identifier +:+ salt self in
  SHA256.hexdigest combined.

Definition get_anonymous_id (self : PatientAnonymiser) (identifier : option value)
  : (string * string) * PatientAnonymiser :=
  let hash_value := _create_hash self identifier in
  match mapping self !! hash_value with
  | Some known => ((known, hash_value), self)
  | None =>
      let anonymous_id := "ICU-" +:+ PyStr.zero_pad 6 (next_id self) in
      ((anonymous_id, hash_value),
       {| salt := salt self;
          mapping := <[hash_value := anonymous_id]> (mapping self);
          next_id := (next_id self + 1)%N |})
  end.

(** A resolver lifetime: the identifiers [xs] resolved one after the
    other. *)
Definition resolve_all (self : PatientAnonymiser) (xs : list (option value)) : PatientAnonymiser :=
  foldl (λ a x, (get_anonymous_id a x).2) self xs.

(** Cosmetic variants of a raw identifier: white space added in front or
    behind, space characters added inside, letters in another case. *)
Inductive cosmetic : string → string → Prop :=
| cosmetic_refl x : cosmetic x x
| cosmetic_sym x y : cosmetic x y → cosmetic y x
| cosmetic_trans x y z : cosmetic x y → cosmetic y z → cosmetic x z
| cosmetic_leading c x : PyStr.isspace c = true → cosmetic (String c x) x
| cosmetic_trailing c x : PyStr.isspace c = true → cosmetic (x +:+ String c "") x
| cosmetic_inner_space a b : cosmetic (a +:+ String " " b) (a +:+ b)
| cosmetic_case c d a b :
    PyStr.upper_char c = PyStr.upper_char d →
    cosmetic (a +:+ String c b) (a +:+ String d b).

(** ** Tables *)

(** A row maps a column label to the value of its cell; a label without
    an entry is a missing cell. *)
Record DataFrame : Type := {
  columns : list string;
  rows : list (gmap string value)
}.

(** The cells of column [c], in row order. *)
Definition column (df : DataFrame) (c : string) : list (option value) :=
  (λ r : gmap string value, r !! c) <$> rows df.

(** [df[c]]: a [KeyError] when [c] is not a column label. *)
Definition getitem (df : DataFrame) (c : string) : result (list (option value)) :=
  if decide (c ∈ columns df) then Ok (column df c) else Raise KeyError.

Definition set_cell (c : string) (x : option value) (r : gmap string value)
  : gmap string value :=
  match x with
  | Some v => <[c := v]> r
  | None => delete c r
  end.

(** [df[c] = series], the series having the index of [df]: an existing
    column is overwritten in place, a new one is added as last column. *)
Definition setitem (df : DataFrame) (c : string) (series : list (option value)) : DataFrame :=
  {| columns := if decide (c ∈ columns df) then columns df else columns df ++ [c];
     rows := zip_with (λ r x, set_cell c x r) (rows df) series |}.

(** [df.drop(columns=cs)], every label of [cs] being a column. *)
Definition drop_columns (df : DataFrame) (cs : list string) : DataFrame :=
  {| columns := filter (λ c, c ∉ cs) (columns df);
     rows := (λ r : gmap string value, foldr delete r cs) <$> rows df |}.

(** [df.at[i, c] = v] for a row position [i] and a column [c] of [df]. *)
Definition set_at (df : DataFrame) (i : nat) (c : string) (v : value) : DataFrame :=
  {| columns := columns df;
     rows := alter (<[c := v]>) i (rows df) |}.

(** [pd.concat([a, b], ignore_index=True)]: the columns of [a] followed by
    those of [b] that [a] does not have, the rows of [a] followed by the
    rows of [b]; a cell of a column that a row never had is missing. *)
Definition concat (a b : DataFrame) : DataFrame :=
  {| columns := columns a ++ filter (λ c, c ∉ columns a) (columns b);
     rows := rows a ++ rows b |}.

(** [s == x] for one cell [s] of a series: a missing value equals
    nothing, not even itself. *)
Definition cell_eqb (x s : option value) : bool :=
  match s, x with
  | Some a, Some b => bool_decide (a = b)
  | _, _ => false
  end.

(** ** [PatientAnonymiser.anonymise_dataframe] *)

(** [series.apply(self.get_anonymous_id)]: the cells are resolved in row
    order, each call seeing the table left by the previous one. *)
Fixpoint apply_get_anonymous_id (self : PatientAnonymiser) (series : list (option value))
  : list (string * string) * PatientAnonymiser :=
  match series with
  | [] => ([], self)
  | x :: rest =>
      let '(r, self1) := get_anonymous_id self x in
      let '(rs, self2) := apply_get_anonymous_id self1 rest in
      (r :: rs, self2)
  end.

Definition anonymise_dataframe (self : PatientAnonymiser) (df : DataFrame)
    (identifier_column : string) : result DataFrame * PatientAnonymiser :=
  if decide (identifier_column ∈ columns df) then
    let '(results, self') := apply_get_anonymous_id self (column df identifier_column) in
    let df := setitem df "anonymous_patient_id" ((λ x, Some (Str x.1)) <$> results) in
    let df := setitem df "patient_id_hash" ((λ x, Some (Str x.2)) <$> results) in
    let df := drop_columns df [identifier_column] in
    (Ok df, self')
  else (Raise ValueError, self).

(** ** Registry merge engine ([ICUDataProcessor.merge_with_master]) *)

(** [set(series)]: the distinct cells; the order in which a set is
    iterated is not specified, and the result of the merge does not
    depend on it (see [update_existing_order]). *)
Definition to_set (series : list (option value)) : list (option value) :=
  remove_dups series.

(** The position and the content of the first row whose surrogate ID
    equals [patient_id]: [df[df['anonymous_patient_id'] == patient_id]],
    then [.index[0]] or [.iloc[0]]. *)
Definition first_match (df : DataFrame) (patient_id : option value)
  : option (nat * gmap string value) :=
  list_find (λ r : gmap string value, cell_eqb patient_id (r !! "anonymous_patient_id") = true)
            (rows df).

(** The inner loop: every column of the batch that the master has, and
    whose incoming value is not missing ([pd.notna]), is written to the
    row. *)
Definition update_record (master : DataFrame) (existing_idx : nat)
    (new_columns : list string) (new_record : gmap string value) : DataFrame :=
  foldl (λ m col,
           if decide (col ∈ columns m) then
             match new_record !! col with
             | Some v => set_at m existing_idx col v
             | None => m
             end
           else m)
        master new_columns.

(** The loop over the overlapping IDs. The master is updated in place: on
    an [IndexError] the rows already written stay written. *)
Fixpoint update_existing (master new_data : DataFrame) (overlapping : list (option value))
  : option exn * DataFrame :=
  match overlapping with
  | [] => (None, master)
  | patient_id :: rest =>
      match first_match master patient_id, first_match new_data patient_id with
      | Some (existing_idx, _), Some (_, new_record) =>
          update_existing
            (update_record master existing_idx (columns new_data) new_record)
            new_data rest
      | _, _ => (Some IndexError, master)
      end
  end.

(** [new_data[new_data['anonymous_patient_id'].isin(ids)]]; [isin]
    matches a missing value with a missing value. *)
Definition select_isin (df : DataFrame) (ids : list (option value)) : DataFrame :=
  {| columns := columns df;
     rows := filter (λ r : gmap string value, r !! "anonymous_patient_id" ∈ ids) (rows df) |}.

(** [merge_with_master]: the value returned, and [self.master_registry]
    after the call. *)
Definition merge_with_master (master_registry : option DataFrame) (new_data : DataFrame)
    (merge_strategy : string) : result DataFrame * option DataFrame :=
  match master_registry with
  | None => (Ok new_data, Some new_data)
  | Some master =>
      match getitem master "anonymous_patient_id", getitem new_data "anonymous_patient_id" with
      | Ok existing, Ok new =>
          let existing_ids := to_set existing in
          let new_ids := to_set new in
          let truly_new := filter (λ x, x ∉ existing_ids) new_ids in
          let overlapping := filter (λ x, x ∈ existing_ids) new_ids in
          let '(err, master) :=
            if decide (merge_strategy = "update")
            then update_existing master new_data overlapping
            else (None, master) in
          match err with
          | Some e => (Raise e, Some master)
          | None =>
              let new_records := select_isin new_data truly_new in
              let merged := concat master new_records in
              (Ok merged, Some merged)
          end
      | _, _ => (Raise KeyError, Some master)
      end
  end.

(** ** What the merge computes, row by row *)

(** The row that the inner loop leaves: a cell is overwritten when its
    column is a column of the batch and of the master and the incoming
    value is not missing. *)
Definition update_row (new_columns master_columns : list string)
    (new_record r : gmap string value) : gmap string value :=
  foldl (λ r col,
           if decide (col ∈ master_columns) then
             match new_record !! col with
             | Some v => <[col := v]> r
             | None => r
             end
           else r)
        r new_columns.

(** Row [i] of the master after the update loop: it takes the values of
    the first row of the batch that has its surrogate ID, when it is
    itself the first row of the master with that ID. *)
Definition merge_row (master new_data : DataFrame) (i : nat) (r : gmap string value)
  : gmap string value :=
  match first_match new_data (r !! "anonymous_patient_id") with
  | Some (_, new_record) =>
      if decide (fst <$> first_match master (r !! "anonymous_patient_id") = Some i)
      then update_row (columns new_data) (columns master) new_record r
      else r
  | None => r
  end.

(** The registry that a merge into an existing master produces. *)
Definition merged (master new_data : DataFrame) (merge_strategy : string) : DataFrame :=
  {| columns := columns master ++ filter (λ c, c ∉ columns master) (columns new_data);
     rows :=
       (if decide (merge_strategy = "update")
        then imap (merge_row master new_data) (rows master)
        else rows master)
       ++ filter (λ r : gmap string value,
                    r !! "anonymous_patient_id" ∉ column master "anonymous_patient_id")
                 (rows new_data) |}.

(** A batch as the resolver hands it over: the surrogate ID column is
    there and no row misses its ID. *)
Definition has_ids (df : DataFrame) : Prop :=
  "anonymous_patient_id" ∈ columns df ∧
  ∀ r : gmap string value, r ∈ rows df → is_Some (r !! "anonymous_patient_id").

(** What a merge needs in order to return: nothing on the first call,
    the surrogate ID column on both sides afterwards. *)
Definition mergeable (master_registry : option DataFrame) (new_data : DataFrame) : Prop :=
  match master_registry with
  | None => True
  | Some master => "anonymous_patient_id" ∈ columns master ∧ has_ids new_data
  end.

Definition registry_rows (master_registry : option DataFrame) : list (gmap string value) :=
  match master_registry with
  | None => []
  | Some master => rows master
  end.

(** ** The pipeline ([ICUDataProcessor]) *)

(** What the pipeline takes from its environment and from the libraries
    it calls: the file system, the readers of tabular files, the clock,
    the parsing of dates and the comparison of two cells. *)
Record Env : Type := {
  path_exists : string → bool;               (* [Path(p).exists()] *)
  path_suffix : string → string;             (* [Path(p).suffix] *)
  read_csv : string → result DataFrame;      (* [pd.read_csv(p)] *)
  read_excel : string → result DataFrame;    (* [pd.read_excel(p)] *)
  now_isoformat : string;                    (* [datetime.now().isoformat()] *)
  to_datetime : option value → option value; (* [pd.to_datetime(x, errors='coerce')]:
                                                what cannot be parsed is missing *)
  dt_date : option value → option value;     (* [.dt.date] *)
  cell_lt : option value → option value → result bool
                                             (* [<] on two cells; [TypeError] when
                                                they cannot be compared *)
}.

Record LogEntry : Type := {
  log_timestamp : string;
  log_file : string;
  log_rows : nat;
  log_identifier_column : string
}.

Record ICUDataProcessor : Type := {
  anonymiser : PatientAnonymiser;
  master_registry : option DataFrame;
  processing_log : list LogEntry
}.

(** [ICUDataProcessor.__init__], the salt being [s]. *)
Definition new_processor (s : string) : ICUDataProcessor :=
  {| anonymiser := new_anonymiser s; master_registry := None; processing_log := [] |}.

(** The reader that the suffix of the file selects. *)
Definition read_table (env : Env) (filepath : string) : result DataFrame :=
  if decide (path_suffix env filepath = ".csv") then read_csv env filepath
  else if decide (path_suffix env filepath ∈ [".xlsx"; ".xls"]) then read_excel env filepath
  else Raise ValueError.

Definition load_data_file (env : Env) (self : ICUDataProcessor)
    (filepath identifier_column : string) : result DataFrame * ICUDataProcessor :=
  if negb (path_exists env filepath) then (Raise FileNotFoundError, self)
  else
    match read_table env filepath with
    | Raise e => (Raise e, self)
    | Ok df =>
        if decide (identifier_column ∈ columns df) then
          (Ok df,
           {| anonymiser := anonymiser self;
              master_registry := master_registry self;
              processing_log :=
                processing_log self ++
                [ {| log_timestamp := now_isoformat env;
                     log_file := filepath;
                     log_rows := length (rows df);
                     log_identifier_column := identifier_column |} ] |})
        else (Raise ValueError, self)
    end.

(** [df.rename(columns=column_mapping)]: a label that the mapping does
    not mention is kept. *)
Definition rename_label (column_mapping : gmap string string) (c : string) : string :=
  default c (column_mapping !! c).

(** A mapping that gives one label to two columns of the table leaves
    pandas with two columns of that label, which a table of this
    embedding cannot hold: [validate_data] or the merge then raise on
    the doubled column. [renames_apart] says that the optional mapping
    of [process_file] does not do this; it is a hypothesis where a
    statement says that [process_file] returns, or what a call that
    raises leaves of the registry. *)
Definition renames_apart (df : DataFrame) (column_mapping : option (gmap string string))
  : Prop :=
  match column_mapping with
  | Some m => NoDup (rename_label m <$> columns df)
  | None => True
  end.

(** [standardise_columns], for a mapping that keeps the labels apart. *)
Definition standardise_columns (df : DataFrame) (column_mapping : gmap string string)
  : DataFrame :=
  {| columns := rename_label column_mapping <$> columns df;
     rows := (λ r : gmap string value,
                list_to_map (prod_map (rename_label column_mapping) id <$> map_to_list r))
             <$> rows df |}.

(** [parse_dates]: [date_columns] lists the pairs of [dict.items()]. *)
Definition parse_dates (env : Env) (df : DataFrame) (date_columns : list (string * string))
  : DataFrame :=
  foldl (λ df '(col, dtype),
           if decide (col ∈ columns df) then
             if decide (dtype = "date") then
               setitem df col (dt_date env <$> (to_datetime env <$> column df col))
             else if decide (dtype = "datetime") then
               setitem df col (to_datetime env <$> column df col)
             else df
           else df)
        df date_columns.

(** [repr] of a list of strings, as an f-string prints it. *)
Definition repr_list (l : list string) : string :=
  "[" +:+ String.concat ", " ((λ s, "'" +:+ s +:+ "'") <$> l) +:+ "]".

(** Elementwise comparison of two columns, row by row. *)
Fixpoint series_lt (env : Env) (xs ys : list (option value)) : result (list bool) :=
  match xs, ys with
  | x :: xs', y :: ys' =>
      b ← cell_lt env x y; bs ← series_lt env xs' ys'; Ok (b :: bs)
  | _, _ => Ok []
  end.

Definition valid_units : list string := ["A600"; "C604"; "WICU"].

(** The last block of [validate_data], "Check ICU unit values": a unit
    is accepted when it is in [valid_units + [np.nan]]. *)
Definition check_icu_units (df : DataFrame) (issues : list string) : list string :=
  if decide ("icu_unit" ∈ columns df) then
    let invalid_units :=
      filter (λ r : gmap string value,
                r !! "icu_unit" ∉ (Some ∘ Str <$> valid_units) ++ [None])
             (rows df) in
    if decide (0 < length invalid_units) then
      issues ++ ["Found " +:+ pretty (length invalid_units)
                 +:+ " records with invalid ICU unit"]
    else issues
  else issues.

(** [validate_data]: the table, unchanged, and the issues found. *)
Definition validate_data (env : Env) (df : DataFrame) : result (DataFrame * list string) :=
  let issues : list string := [] in
  let required_cols := ["anonymous_patient_id"; "admission_datetime"] in
  let missing_cols := filter (λ col, col ∉ columns df) required_cols in
  let issues :=
    if bool_decide (missing_cols = []) then issues
    else issues ++ ["Missing required columns: " +:+ repr_list missing_cols] in
  issues ←
    (if decide ("admission_datetime" ∈ columns df ∧ "discharge_datetime" ∈ columns df) then
       flags ← series_lt env (column df "discharge_datetime") (column df "admission_datetime");
       let invalid_dates := length (filter (λ b, b = true) flags) in
       if decide (0 < invalid_dates) then
         Ok (issues ++ ["Found " +:+ pretty invalid_dates
                        +:+ " records where discharge before admission"])
       else Ok issues
     else Ok issues);
  let issues :=
    if decide ("anonymous_patient_id" ∈ columns df) then
      let null_ids := length (filter (λ x, x = None) (column df "anonymous_patient_id")) in
      if decide (0 < null_ids) then
        issues ++ ["Found " +:+ pretty null_ids +:+ " records with null patient IDs"]
      else issues
    else issues in
  let issues := check_icu_units df issues in
  Ok (df, issues).

(** [process_file]. The optional arguments [column_mapping] and
    [date_columns] are [None] by default; an empty one is falsy too. *)
Definition process_file (env : Env) (self : ICUDataProcessor)
    (filepath identifier_column : string)
    (column_mapping : option (gmap string string))
    (date_columns : option (list (string * string)))
    (merge_strategy : string) : result DataFrame * ICUDataProcessor :=
  match load_data_file env self filepath identifier_column with
  | (Raise e, self) => (Raise e, self)
  | (Ok df, self) =>
      let df :=
        match column_mapping with
        | Some m => if decide (m = ∅) then df else standardise_columns df m
        | None => df
        end in
      let df :=
        match date_columns with
        | Some (d :: ds) => parse_dates env df (d :: ds)
        | _ => df
        end in
      match anonymise_dataframe (anonymiser self) df identifier_column with
      | (Raise e, a) =>
          (Raise e, {| anonymiser := a;
                       master_registry := master_registry self;
                       processing_log := processing_log self |})
      | (Ok df, a) =>
          let self := {| anonymiser := a;
                         master_registry := master_registry self;
                         processing_log := processing_log self |} in
          match validate_data env df with
          | Raise e => (Raise e, self)
          | Ok (df, issues) =>
              let '(res, master) := merge_with_master (master_registry self) df merge_strategy in
              (res, {| anonymiser := anonymiser self;
                       master_registry := master;
                       processing_log := processing_log self |})
          end
      end
  end.

(** ** The end-to-end scenario of the specification

    File A has three rows, for the identifiers H1, H2 and H1; file B has
    one row for H2, with an outcome, a column that file A does not have.
    Both are processed with the strategy [update], B twice. *)

Definition file_A : DataFrame :=
  {| columns := ["hospital_number"; "icu_unit"];
     rows := [ {[ "hospital_number" := Str "H1"; "icu_unit" := Str "A600" ]};
               {[ "hospital_number" := Str "H2"; "icu_unit" := Str "C604" ]};
               {[ "hospital_number" := Str "H1"; "icu_unit" := Str "WICU" ]} ] |}.

Definition file_B : DataFrame :=
  {| columns := ["hospital_number"; "icu_outcome"];
     rows := [ {[ "hospital_number" := Str "H2"; "icu_outcome" := Str "Survived" ]} ] |}.

Definition scenario_env : Env :=
  {| path_exists := λ p, bool_decide (p ∈ ["a.csv"; "b.csv"]);
     path_suffix := λ p, ".csv";
     read_csv := λ p, if decide (p = "a.csv") then Ok file_A
                      else if decide (p = "b.csv") then Ok file_B
                      else Raise FileNotFoundError;
     read_excel := λ p, Raise ValueError;
     now_isoformat := "2024-01-01T00:00:00";
     to_datetime := id;
     dt_date := id;
     cell_lt := λ x y,
       match x, y with
       | Some (Num a), Some (Num b) => Ok (a <? b)%Z
       | Some (Str _), Some (Num _) | Some (Num _), Some (Str _) => Raise TypeError
       | _, _ => Ok false
       end |}.

Definition scenario_salt : string :=
  "0123456789abcdef0123456789abcdef0123456789abcdef0123456789abcdef".

Definition after_A : result DataFrame * ICUDataProcessor :=
  process_file scenario_env (new_processor scenario_salt)
    "a.csv" "hospital_number" None None "update".

Definition after_B : result DataFrame * ICUDataProcessor :=
  process_file scenario_env after_A.2 "b.csv" "hospital_number" None None "update".

Definition after_B_again : result DataFrame * ICUDataProcessor :=
  process_file scenario_env after_B.2 "b.csv" "hospital_number" None None "update".

Definition batch_B : result DataFrame :=
  (anonymise_dataframe (anonymiser after_A.2) file_B "hospital_number").1.

Definition digest_H1 : string :=
  "612acd0d19eb3bdb63c51974233c3d9160fc7e2329c3e05029b0fef8974667cd".
Definition digest_H2 : string :=
  "0a967e3620414977efebef9e1021a48aff4b704073a3cbb373e952b73a701ab1".

(** The registry after file A, and the anonymised batch of file B. *)
Definition scenario_master : DataFrame :=
  {| columns := ["icu_unit"; "anonymous_patient_id"; "patient_id_hash"];
     rows := [ {[ "icu_unit" := Str "A600"; "anonymous_patient_id" := Str "ICU-000001";
                  "patient_id_hash" := Str digest_H1 ]};
               {[ "icu_unit" := Str "C604"; "anonymous_patient_id" := Str "ICU-000002";
                  "patient_id_hash" := Str digest_H2 ]};
               {[ "icu_unit" := Str "WICU"; "anonymous_patient_id" := Str "ICU-000001";
                  "patient_id_hash" := Str digest_H1 ]} ] |}.

Definition scenario_batch : DataFrame :=
  {| columns := ["icu_outcome"; "anonymous_patient_id"; "patient_id_hash"];
     rows := [ {[ "icu_outcome" := Str "Survived"; "anonymous_patient_id" := Str "ICU-000002";
                  "patient_id_hash" := Str digest_H2 ]} ] |}.

(** A small registry and a small batch, already anonymised: the batch
    has one ID that the registry knows, with a missing unit and a new
    column, and one ID that it does not know. *)
Definition example_master : DataFrame :=
  {| columns := ["anonymous_patient_id"; "icu_unit"; "specialty"];
     rows := [ {[ "anonymous_patient_id" := Str "ICU-000001"; "icu_unit" := Str "A600" ]};
               {[ "anonymous_patient_id" := Str "ICU-000002"; "icu_unit" := Str "C604";
                  "specialty" := Str "Surgery" ]};
               {[ "anonymous_patient_id" := Str "ICU-000002"; "icu_unit" := Str "WICU" ]} ] |}.

Definition example_batch : DataFrame :=
  {| columns := ["anonymous_patient_id"; "icu_unit"; "specialty"; "icu_outcome"];
     rows := [ {[ "anonymous_patient_id" := Str "ICU-000002"; "specialty" := Str "Medicine";
                  "icu_outcome" := Str "Died" ]};
               {[ "anonymous_patient_id" := Str "ICU-000003"; "icu_unit" := Str "A600" ]} ] |}.

(** The same batch without the column that the registry does not have. *)
Definition example_batch_known_columns : DataFrame :=
  {| columns := ["anonymous_patient_id"; "icu_unit"; "specialty"];
     rows := [ {[ "anonymous_patient_id" := Str "ICU-000002"; "specialty" := Str "Medicine" ]};
               {[ "anonymous_patient_id" := Str "ICU-000003"; "icu_unit" := Str "A600" ]} ] |}.

(** A batch with rows for two patients of [example_master], in the
    opposite order. *)
Definition example_batch_both : DataFrame :=
  {| columns := ["anonymous_patient_id"; "icu_unit"; "specialty"];
     rows := [ {[ "anonymous_patient_id" := Str "ICU-000002"; "specialty" := Str "Medicine" ]};
               {[ "anonymous_patient_id" := Str "ICU-000001"; "icu_unit" := Str "WICU" ]} ] |}.

(** A table that is already anonymised, submitted again under the name
    of its surrogate ID column. *)
Definition file_C : DataFrame :=
  {| columns := ["anonymous_patient_id"; "icu_unit"];
     rows := [ {[ "anonymous_patient_id" := Str "ICU-000001"; "icu_unit" := Str "A600" ]} ] |}.

(** An environment with file A and file C, in which any two cells can
    be compared. *)
Definition resubmission_env : Env :=
  {| path_exists := λ p, bool_decide (p ∈ ["a.csv"; "c.csv"]);
     path_suffix := λ p, ".csv";
     read_csv := λ p, if decide (p = "a.csv") then Ok file_A
                      else if decide (p = "c.csv") then Ok file_C
                      else Raise FileNotFoundError;
     read_excel := λ p, Raise ValueError;
     now_isoformat := "2024-01-01T00:00:00";
     to_datetime := id;
     dt_date := id;
     cell_lt := λ x y,
       match x, y with
       | Some (Num a), Some (Num b) => Ok (a <? b)%Z
       | _, _ => Ok false
       end |}.

(** ** Registry validator ([RegistryValidator.check_categorical_values]) *)



(** [~series.isin(vocabulary) & series.notna()] on one cell. *)
Definition outside_vocabulary (vocabulary : list string) (x : option value) : Prop :=
  (x ∉ (Some ∘ Str <$> vocabulary)) ∧ is_Some x.

Global Instance outside_vocabulary_dec vocabulary x : Decision (outside_vocabulary vocabulary x).
Proof. unfold outside_vocabulary. apply _. Defined.

Module RegistryValidator.

(** An entry of [self.issues] or of [self.warnings]. *)
Record Issue : Type := {
  check : string;
  severity : string;
  message : string;
  invalid_values : list (option value)
}.

(** The validator once the registry is loaded. *)
Record t : Type := {
  df : DataFrame;
  issues : list Issue;
  warnings : list Issue
}.


End RegistryValidator.

(** ** Suppression filter and aggregate statistics ([ICUAnalyser]) *)

Module ICUAnalyser.

(** The masked marker, [f"<{threshold}"]. *)
Definition marker (threshold : Z) : value := Str ("<" +:+ pretty threshold).

(** The [dict] branch of [suppress_small_cells]. *)
Definition suppress_dict (data : gmap value Z) (threshold : Z) : gmap value value :=
  (λ v, if decide (threshold ≤ v)%Z then Num v else marker threshold) <$> data.

(** [select_dtypes(include=[np.number])], for a table whose columns are
    columns of counts or of text: a column is numeric when none of its
    cells is a string. The embedding has no dtypes: a column of
    timestamps or an object column of numbers, which pandas does not
    select, is not told apart here, and nothing is stated of the
    masking of such a column. *)
Definition is_number (x : option value) : bool :=
  match x with
  | Some (Str _) => false
  | _ => true
  end.

Definition numeric_columns (df : DataFrame) : list string :=
  filter (λ col, forallb is_number (column df col) = true) (columns df).

(** [df_copy.loc[df_copy[col] < threshold, col] = f"<{threshold}"]; a
    missing cell is not below the threshold. The column then holds
    numbers and strings, as pandas 2 lets it. *)
Definition mask_row (col : string) (threshold : Z) (r : gmap string value)
  : gmap string value :=
  match r !! col with
  | Some (Num z) => if decide (z < threshold)%Z then <[col := marker threshold]> r else r
  | _ => r
  end.

Definition mask_column (df_copy : DataFrame) (col : string) (threshold : Z) : DataFrame :=
  {| columns := columns df_copy;
     rows := mask_row col threshold <$> rows df_copy |}.

(** The [DataFrame] branch of [suppress_small_cells]. *)
Definition suppress_frame (data : DataFrame) (threshold : Z) : DataFrame :=
  foldl (λ df_copy col, mask_column df_copy col threshold) data (numeric_columns data).

(** What the filter does to one cell of a numeric column. *)
Definition mask_cell (threshold : Z) (x : option value) : option value :=
  match x with
  | Some (Num z) => if decide (z < threshold)%Z then Some (marker threshold) else x
  | _ => x
  end.

(** What [suppress_small_cells] is given, and what it returns. *)
Inductive aggregate : Type :=
| Counts (d : gmap value Z)
| Table (df : DataFrame)
| Other (x : option value).

Inductive suppressed : Type :=
| SuppressedCounts (d : gmap value value)
| SuppressedTable (df : DataFrame)
| Unchanged (x : option value).

Definition suppress_small_cells (data : aggregate) (threshold : Z) : suppressed :=
  match data with
  | Counts d => SuppressedCounts (suppress_dict d threshold)
  | Table df => SuppressedTable (suppress_frame df threshold)
  | Other x => Unchanged x
  end.

(** A value that may be published under the threshold [t]: a number that
    is at least [t], or the marker. *)
Definition publishable (t : Z) (v : value) : Prop :=
  (∃ z, v = Num z ∧ (t ≤ z)%Z) ∨ v = marker t.


(** [series.value_counts().to_dict()]: how often each value occurs,
    missing cells left out. *)
Definition value_counts (series : list (option value)) : gmap value Z :=
  foldr (λ x counts,
           match x with
           | Some v => <[v := (default 0 (counts !! v) + 1)%Z]> counts
           | None => counts
           end)
        ∅ series.

(** [__init__], for a registry whose timestamps are whole seconds: the
    column [los_days] is derived when both timestamps are columns; it
    holds the length of the stay, in seconds here. *)
Definition stay (r : gmap string value) : option value :=
  match r !! "discharge_datetime", r !! "admission_datetime" with
  | Some (Num d), Some (Num a) => Some (Num (d - a))
  | _, _ => None
  end.

Definition init (registry : DataFrame) : DataFrame :=
  if decide ("admission_datetime" ∈ columns registry ∧ "discharge_datetime" ∈ columns registry)
  then setitem registry "los_days" (stay <$> rows registry)
  else registry.

Definition thirty_days : Z := 30 * 86400.

(** The flat distributions: [unit_distribution],
    [admission_source_distribution], [discharge_destination_distribution]. *)
Definition distribution (df : DataFrame) (col : string) (suppress : bool)
  : gmap value value :=
  if decide (col ∉ columns df) then ∅
  else
    let counts := value_counts (column df col) in
    if suppress then suppress_dict counts 5 else Num <$> counts.

Definition unit_distribution (df : DataFrame) (suppress : bool) :=
  distribution df "icu_unit" suppress.
Definition admission_source_distribution (df : DataFrame) (suppress : bool) :=
  distribution df "admission_source" suppress.
Definition discharge_destination_distribution (df : DataFrame) (suppress : bool) :=
  distribution df "icu_discharge_destination" suppress.

(** The [count] entries of [length_of_stay_statistics]; the medians and
    the quartiles are floating-point numbers and are left out. *)
Inductive los_counts : Type :=
| NoLos
| LosByUnit (counts : gmap value Z)
| LosOverall (count : Z).

(** [(los_days > 0) & (los_days <= 30)] on one cell; a missing length of
    stay satisfies neither comparison. *)
Definition plausible_stay (x : option value) : bool :=
  match x with
  | Some (Num s) => bool_decide (0 < s)%Z && bool_decide (s ≤ thirty_days)%Z
  | _ => false
  end.

Definition length_of_stay_statistics (df : DataFrame) (by_unit : bool) : los_counts :=
  if decide ("los_days" ∉ columns df) then NoLos
  else
    let los_clean :=
      filter (λ r : gmap string value, plausible_stay (r !! "los_days") = true) (rows df) in
    if by_unit && bool_decide ("icu_unit" ∈ columns df) then
      LosByUnit (value_counts ((λ r : gmap string value, r !! "icu_unit") <$> los_clean))
    else LosOverall (Z.of_nat (length los_clean)).

(** The count-valued entries of [generate_all_statistics] that are
    modelled: the two counts of the metadata, the three flat
    distributions and the counts of the lengths of stay. The monthly
    pivot, the top-ten lists and the outcome tables with their
    percentages are left out. *)
Module Stats.
Record t : Type := {
  total_records : Z;
  unique_patients : Z;
  unit_distribution : gmap value value;
  length_of_stay : los_counts;
  admission_sources : gmap value value;
  discharge_destinations : gmap value value
}.
End Stats.

Definition generate_all_statistics (df : DataFrame) (suppress : bool) : result Stats.t :=
  ids ← getitem df "anonymous_patient_id";
  _ ← getitem df "admission_datetime";
  Ok {| Stats.total_records := Z.of_nat (length (rows df));
        Stats.unique_patients :=
          Z.of_nat (length (remove_dups (filter (λ x, x ≠ None) ids)));
        Stats.unit_distribution := unit_distribution df suppress;
        Stats.length_of_stay := length_of_stay_statistics df true;
        Stats.admission_sources := admission_source_distribution df suppress;
        Stats.discharge_destinations := discharge_destination_distribution df suppress |}.

(** A registry with one admission, of two days, in unit A600. *)
Definition single_admission : DataFrame :=
  {| columns := ["anonymous_patient_id"; "admission_datetime"; "discharge_datetime"; "icu_unit"];
     rows := [ {[ "anonymous_patient_id" := Str "ICU-000001";
                  "admission_datetime" := Num 0;
                  "discharge_datetime" := Num 172800;
                  "icu_unit" := Str "A600" ]} ] |}.

End ICUAnalyser.

(** * Further parts of the code *)

(** ** The resolver over its lifetime *)

(** [f"ICU-{k:06d}"], the surrogate ID with sequence number [k]. *)
Definition surrogate (k : N) : string := "ICU-" +:+ PyStr.zero_pad 6 k.

(** The number that a string of decimal digits denotes, [int(s)]. *)
Fixpoint digits_value (acc : N) (s : string) : N :=
  match s with
  | EmptyString => acc
  | String c s' => digits_value (acc * 10 + (N_of_ascii c - 48)) s'
  end.

(** [int(anonymous_id[4:])], the sequence number read back from a
    surrogate ID. *)
Definition sequence_number (anonymous_id : string) : N :=
  match anonymous_id with
  | String _ (String _ (String _ (String _ digits))) => digits_value 0 digits
  | _ => 0
  end.

(** The state of a resolver that has only been used through
    [get_anonymous_id]: the surrogate IDs of its table are those with
    the sequence numbers 1 to [next_id - 1], each for one digest. *)
Record consistent (a : PatientAnonymiser) : Prop := {
  consistent_range : ∀ h id, mapping a !! h = Some id →
                             ∃ k, (1 ≤ k < next_id a)%N ∧ id = surrogate k;
  consistent_onto : ∀ k, (1 ≤ k < next_id a)%N → ∃ h, mapping a !! h = Some (surrogate k);
  consistent_inj : ∀ h1 h2 id, mapping a !! h1 = Some id → mapping a !! h2 = Some id → h1 = h2;
  consistent_size : (N.of_nat (size (mapping a)) + 1 = next_id a)%N
}.

(** [f"{z:06d}"] for any integer: the sign counts in the width. *)
Definition format_06d (z : Z) : string :=
  if decide (z < 0)%Z then
    let d := pretty (Z.to_N (- z)) in "-" +:+ PyStr.zeros (5 - String.length d) +:+ d
  else PyStr.zero_pad 6 (Z.to_N z).

(** What [save_mapping_stats] writes: the statistics, not the table. *)
Record MappingStats : Type := {
  total_unique_patients : nat;
  last_anonymous_id : string;
  stats_timestamp : string
}.

Definition save_mapping_stats (self : PatientAnonymiser) (now : string) : MappingStats :=
  {| total_unique_patients := size (mapping self);
     last_anonymous_id := "ICU-" +:+ format_06d (Z.of_N (next_id self) - 1);
     stats_timestamp := now |}.

(** ** The salt store ([_get_or_create_salt]) *)

(** [secrets.token_hex(n)]: the hexadecimal text of [n] random bytes. *)
Definition token_hex (random_bytes : list N) : string := SHA256.hex_of_bytes random_bytes.

(** [_get_or_create_salt]: [files] are the text files on disk; the salt
    and the files afterwards. A salt that is read is stripped, a salt
    that is created is written as it is. *)
Definition _get_or_create_salt (files : gmap string string) (salt_file : string)
    (random_bytes : list N) : string * gmap string string :=
  match files !! salt_file with
  | Some content => (PyStr.strip content, files)
  | None =>
      let salt := token_hex random_bytes in
      (salt, <[salt_file := salt]> files)
  end.

(** [PatientAnonymiser(salt_file)] *)
Definition PatientAnonymiser_init (files : gmap string string) (salt_file : string)
    (random_bytes : list N) : PatientAnonymiser * gmap string string :=
  let '(s, files) := _get_or_create_salt files salt_file random_bytes in
  (new_anonymiser s, files).

(** Every character of [s] satisfies [p]. *)
Fixpoint all_chars (p : ascii → bool) (s : string) : bool :=
  match s with
  | EmptyString => true
  | String c s' => p c && all_chars p s'
  end.

(** A lower-case hexadecimal digit. *)
Definition is_hex (c : ascii) : bool :=
  let n := nat_of_ascii c in
  ((48 <=? n)%nat && (n <=? 57)%nat) || ((97 <=? n)%nat && (n <=? 102)%nat).

(** ** The steps of [process_file] around the resolver *)

(** The table that [process_file] hands to the resolver: the file as
    read, after the optional renaming and the optional parsing of
    dates. *)
Definition prepared (env : Env) (df : DataFrame)
    (column_mapping : option (gmap string string))
    (date_columns : option (list (string * string))) : DataFrame :=
  let df :=
    match column_mapping with
    | Some m => if decide (m = ∅) then df else standardise_columns df m
    | None => df
    end in
  match date_columns with
  | Some (d :: ds) => parse_dates env df (d :: ds)
  | _ => df
  end.

(** The entry that [load_data_file] appends to the processing log. *)
Definition log_entry (env : Env) (filepath : string) (df : DataFrame)
    (identifier_column : string) : LogEntry :=
  {| log_timestamp := now_isoformat env;
     log_file := filepath;
     log_rows := length (rows df);
     log_identifier_column := identifier_column |}.

(** ** The stand-alone entry point ([anonymise_patient_data]) *)

(** What the entry point writes besides the salt: the anonymised table
    and the statistics of the resolver. *)
Inductive output : Type :=
| CsvFile (path : string) (df : DataFrame)
| ExcelFile (path : string) (df : DataFrame)
| StatsFile (path : string) (stats : MappingStats).

(** [anonymise_patient_data]: the value returned, the text files and the
    files written. The resolver is a new one, with the default salt
    file; [output_file] is optional, and an empty name is falsy too.
    The directories that [mkdir] creates are not modelled, and the
    writers are taken not to fail. *)
Definition anonymise_patient_data (env : Env) (files : gmap string string)
    (random_bytes : list N) (input_file identifier_column : string)
    (output_file : option string)
  : result DataFrame * gmap string string * list output :=
  if negb (path_exists env input_file) then (Raise FileNotFoundError, files, [])
  else
    match (if decide (path_suffix env input_file = ".csv") then read_csv env input_file
           else if decide (path_suffix env input_file ∈ [".xlsx"; ".xls"])
                then read_excel env input_file
                else Raise ValueError) with
    | Raise e => (Raise e, files, [])
    | Ok df =>
        let '(anonymiser, files) := PatientAnonymiser_init files "hashing_salt.txt" random_bytes in
        match anonymise_dataframe anonymiser df identifier_column with
        | (Raise e, _) => (Raise e, files, [])
        | (Ok df_anon, anonymiser) =>
            let written :=
              match output_file with
              | Some output_file =>
                  if decide (output_file = "") then []
                  else
                    (if decide (path_suffix env output_file = ".csv")
                     then [CsvFile output_file df_anon]
                     else if decide (path_suffix env output_file ∈ [".xlsx"; ".xls"])
                          then [ExcelFile output_file df_anon]
                          else [])
                    ++ [StatsFile "data/aggregated/anonymisation_stats.json"
                          (save_mapping_stats anonymiser (now_isoformat env))]
              | None => []
              end in
            (Ok df_anon, files, written)
        end
    end.

(** ** The other checks of the registry validator *)

Module RegistryChecks.

(** An entry of [self.issues] or of [self.warnings] as these checks
    write it; the keys [detail] and [patient_ids] are in some entries
    only. *)
Record Finding : Type := {
  check : string;
  severity : string;
  message : string;
  detail : option string;
  patient_ids : option (list (option value))
}.

Record t : Type := {
  df : DataFrame;
  issues : list Finding;
  warnings : list Finding
}.

Definition required : list string :=
  ["anonymous_patient_id"; "patient_id_hash"; "admission_datetime"].

Definition check_required_columns (self : t) : bool * t :=
  let missing := filter (λ col, col ∉ columns (df self)) required in
  if decide (missing ≠ []) then
    (false,
     {| df := df self;
        issues := issues self ++
          [ {| check := "required_columns";
               severity := "ERROR";
               message := "Missing required columns: " +:+ repr_list missing;
               detail := None;
               patient_ids := None |} ];
        warnings := warnings self |})
  else (true, self).

(** [series.duplicated()]: a cell is marked when an equal cell comes
    before it; two missing cells count as equal. *)
Fixpoint duplicated (seen series : list (option value)) : list bool :=
  match series with
  | [] => []
  | x :: rest => bool_decide (x ∈ seen) :: duplicated (x :: seen) rest
  end.

(** [check_duplicate_patients]: the number of marked cells, or the
    [KeyError] of a registry without the surrogate ID column. *)
Definition check_duplicate_patients (self : t) : result nat * t :=
  match getitem (df self) "anonymous_patient_id" with
  | Raise e => (Raise e, self)
  | Ok ids =>
      let duplicates := length (filter (λ b, b = true) (duplicated [] ids)) in
      if decide (0 < duplicates)%nat then
        (Ok duplicates,
         {| df := df self;
            issues := issues self;
            warnings := warnings self ++
              [ {| check := "duplicate_patients";
                   severity := "WARNING";
                   message := "Found " +:+ pretty duplicates +:+ " duplicate patient records";
                   detail := Some "Multiple admissions per patient are expected";
                   patient_ids := None |} ] |})
      else (Ok duplicates, self)
  end.

(** [df[mask]]: the rows whose flag is set. *)
Definition select_rows (df : DataFrame) (mask : list bool) : DataFrame :=
  {| columns := columns df;
     rows := fst <$> filter (λ p : gmap string value * bool, p.2 = true)
                            (zip (rows df) mask) |}.

(** [pd.to_datetime] on a column that is there. *)
Definition parse_column (env : Env) (df : DataFrame) (c : string) : DataFrame :=
  if decide (c ∈ columns df)
  then setitem df c (to_datetime env <$> column df c)
  else df.

(** [check_date_logic], [now] being [pd.Timestamp.now()]: the number of
    date issues, or the error raised, and the validator afterwards. The
    two timestamp columns are parsed in the table of the validator
    itself. [x > now] is taken as [now < x]. *)
Definition check_date_logic (env : Env) (now : option value) (self : t) : result nat * t :=
  let date_issues := 0%nat in
  let self :=
    {| df := parse_column env (parse_column env (df self) "admission_datetime")
                          "discharge_datetime";
       issues := issues self;
       warnings := warnings self |} in
  let checked : result (nat * t) :=
    if decide ("admission_datetime" ∈ columns (df self)
               ∧ "discharge_datetime" ∈ columns (df self)) then
      mask ← series_lt env (column (df self) "discharge_datetime")
                           (column (df self) "admission_datetime");
      let invalid := select_rows (df self) mask in
      if decide (0 < length (rows invalid))%nat then
        ids ← getitem invalid "anonymous_patient_id";
        Ok ((date_issues + length (rows invalid))%nat,
            {| df := df self;
               issues := issues self ++
                 [ {| check := "date_logic";
                      severity := "ERROR";
                      message := pretty (length (rows invalid))
                                 +:+ " records with discharge before admission";
                      detail := None;
                      patient_ids := Some (take 5 ids) |} ];
               warnings := warnings self |})
      else Ok (date_issues, self)
    else Ok (date_issues, self) in
  match checked with
  | Raise e => (Raise e, self)
  | Ok (date_issues, self) =>
      if decide ("admission_datetime" ∈ columns (df self)) then
        let admissions := column (df self) "admission_datetime" in
        match series_lt env (replicate (length admissions) now) admissions with
        | Raise e => (Raise e, self)
        | Ok mask =>
            let future_admissions := select_rows (df self) mask in
            if decide (0 < length (rows future_admissions))%nat then
              (Ok (date_issues + length (rows future_admissions))%nat,
               {| df := df self;
                  issues := issues self;
                  warnings := warnings self ++
                    [ {| check := "future_dates";
                         severity := "WARNING";
                         message := pretty (length (rows future_admissions))
                                    +:+ " records with future admission dates";
                         detail := None;
                         patient_ids := None |} ] |})
            else (Ok date_issues, self)
        end
      else (Ok date_issues, self)
  end.

(** [x < y] holds: the comparison returns, and returns [True]. *)
Definition flagged (env : Env) (x y : option value) : bool :=
  match cell_lt env x y with
  | Ok true => true
  | _ => false
  end.

(** A validator whose registry has one admission that ends before it
    starts, and one that starts at time 5000. *)
Definition example_validator : t :=
  {| df :=
       {| columns := ["anonymous_patient_id"; "admission_datetime"; "discharge_datetime"];
          rows := [ {[ "anonymous_patient_id" := Str "ICU-000001";
                       "admission_datetime" := Num 100;
                       "discharge_datetime" := Num 50 ]};
                    {[ "anonymous_patient_id" := Str "ICU-000002";
                       "admission_datetime" := Num 5000;
                       "discharge_datetime" := Num 6000 ]} ] |};
     issues := [];
     warnings := [] |}.

End RegistryChecks.

(** * Properties *)

(** ** The digest function agrees with the published test vectors *)

Example round_constants :
  nth 0 SHA256.K 0%N = 0x428a2f98%N ∧ nth 63 SHA256.K 0%N = 0xc67178f2%N ∧
  nth 0 SHA256.H0 0%N = 0x6a09e667%N ∧ nth 7 SHA256.H0 0%N = 0x5be0cd19%N.
Proof. vm_compute. done. Qed.

Example hexdigest_abc :
  SHA256.hexdigest "abc" = "ba7816bf8f01cfea414140de5dae2223b00361a396177a9cb410ff61f20015ad".
Proof. vm_compute. reflexivity. Qed.

Example hexdigest_two_blocks :
  SHA256.hexdigest "H1230123456789abcdef0123456789abcdef0123456789abcdef0123456789abcdef"
  = "817c67ecc3c620b8d048760d8ccacfc67a9573a0eb050fbc9c7ccd0390f716f0".
Proof. vm_compute. reflexivity. Qed.

(** ** Normalisation of raw identifiers *)

Section normalisation.
Import PyStr.

Local Ltac by_cases_on c := destruct c as [[] [] [] [] [] [] [] []]; vm_compute; congruence.

Lemma isspace_upper_char c : isspace (upper_char c) = isspace c.
Proof. by_cases_on c. Qed.

Lemma eqb_space_upper_char c : Ascii.eqb (upper_char c) " " = Ascii.eqb c " ".
Proof. by_cases_on c. Qed.

Lemma eqb_space_isspace c : Ascii.eqb c " " = true → isspace c = true.
Proof. by_cases_on c. Qed.

Lemma upper_char_idemp c : upper_char (upper_char c) = upper_char c.
Proof. by_cases_on c. Qed.

Lemma append_cons c a b : String c a +:+ b = String c (a +:+ b).
Proof. reflexivity. Qed.

Lemma append_empty_l a : "" +:+ a = a.
Proof. reflexivity. Qed.

Lemma append_empty_r s : s +:+ "" = s.
Proof. induction s as [|c s IH]; [done | by rewrite append_cons, IH]. Qed.

Lemma upper_app a b : upper (a +:+ b) = upper a +:+ upper b.
Proof.
  induction a as [|c a IH]; [done |].
  rewrite append_cons. simpl. by rewrite IH, append_cons.
Qed.

Lemma remove_spaces_app a b :
  remove_spaces (a +:+ b) = remove_spaces a +:+ remove_spaces b.
Proof.
  induction a as [|c a IH]; [done |].
  rewrite append_cons. simpl.
  destruct (Ascii.eqb c " "); by rewrite IH, ?append_cons.
Qed.

Lemma upper_lstrip s : upper (lstrip s) = lstrip (upper s).
Proof.
  induction s as [|c s IH]; simpl; [done |].
  rewrite isspace_upper_char. by destruct (isspace c).
Qed.

Lemma upper_rstrip s : upper (rstrip s) = rstrip (upper s).
Proof.
  induction s as [|c s IH]; simpl; [done |].
  rewrite <- IH, isspace_upper_char.
  destruct (rstrip s); simpl; [by destruct (isspace c) | done].
Qed.

Lemma remove_spaces_lstrip s : remove_spaces (lstrip s) = lstrip (remove_spaces s).
Proof.
  induction s as [|c s IH]; simpl; [done |].
  destruct (isspace c) eqn:Hc.
  - destruct (Ascii.eqb c " "); simpl; [done | by rewrite Hc].
  - destruct (Ascii.eqb c " ") eqn:Hsp.
    + apply eqb_space_isspace in Hsp. congruence.
    + simpl. by rewrite Hsp, Hc.
Qed.

(** What [rstrip] keeps, when it keeps anything, is not blank. *)
Lemma rstrip_not_spaces s : remove_spaces (rstrip s) = "" → rstrip s = "".
Proof.
  induction s as [|c s IH]; simpl; [done |].
  destruct (rstrip s) as [|d r] eqn:Hr.
  - destruct (isspace c) eqn:Hc; [done |]. simpl.
    destruct (Ascii.eqb c " ") eqn:Hsp; [|done].
    apply eqb_space_isspace in Hsp. congruence.
  - intros H. exfalso. simpl in H.
    destruct (Ascii.eqb c " "); [|done].
    by specialize (IH H).
Qed.

Lemma remove_spaces_rstrip s : remove_spaces (rstrip s) = rstrip (remove_spaces s).
Proof.
  induction s as [|c s IH]; simpl; [done |].
  destruct (rstrip s) as [|d r] eqn:Hr.
  - simpl in IH. destruct (Ascii.eqb c " ") eqn:Hsp.
    + rewrite <- IH. apply eqb_space_isspace in Hsp. by rewrite Hsp.
    + simpl. rewrite <- IH. destruct (isspace c); simpl; [done | by rewrite Hsp].
  - pose proof (rstrip_not_spaces s) as Hne. rewrite Hr in Hne.
    change (remove_spaces (String c (String d r)))
      with (if Ascii.eqb c " " then remove_spaces (String d r)
            else String c (remove_spaces (String d r))).
    destruct (Ascii.eqb c " "); [done |].
    simpl rstrip. rewrite <- IH.
    destruct (remove_spaces (String d r)); [by specialize (Hne eq_refl) | done].
Qed.

(** The normal form can be computed in the other order: upper-case,
    drop the spaces, then strip. *)
Lemma normalise_alt x :
  normalise x = strip (remove_spaces (upper (py_str x))).
Proof.
  unfold normalise, strip.
  by rewrite upper_rstrip, upper_lstrip, remove_spaces_rstrip, remove_spaces_lstrip.
Qed.

Lemma rstrip_snoc_space s c : isspace c = true → rstrip (s +:+ String c "") = rstrip s.
Proof.
  intros Hc. induction s as [|d s IH].
  - simpl. by rewrite Hc.
  - rewrite append_cons. simpl. by rewrite IH.
Qed.

Lemma strip_cons_space s c : isspace c = true → strip (String c s) = strip s.
Proof. intros Hc. unfold strip. simpl. by rewrite Hc. Qed.

Lemma strip_snoc_space s c : isspace c = true → strip (s +:+ String c "") = strip s.
Proof.
  intros Hc. unfold strip. induction s as [|d s IH].
  - simpl. by rewrite Hc.
  - rewrite append_cons. simpl. destruct (isspace d); [done |].
    rewrite <- append_cons. by apply rstrip_snoc_space.
Qed.

Lemma cosmetic_normalise x y :
  cosmetic x y → normalise (Some (Str x)) = normalise (Some (Str y)).
Proof.
  intros H. rewrite !normalise_alt. simpl.
  induction H as [x|x y _ IH|x y z _ IH1 _ IH2|c x Hc|c x Hc|a b|c d a b Hcd].
  - done.
  - done.
  - congruence.
  - simpl. destruct (Ascii.eqb (upper_char c) " "); [done |].
    apply strip_cons_space. by rewrite isspace_upper_char.
  - rewrite upper_app, remove_spaces_app. simpl.
    destruct (Ascii.eqb (upper_char c) " ").
    + by rewrite append_empty_r.
    + apply strip_snoc_space. by rewrite isspace_upper_char.
  - rewrite !upper_app, !remove_spaces_app. done.
  - rewrite !upper_app. simpl. by rewrite Hcd.
Qed.

End normalisation.

(** ** Identity resolver *)

Lemma get_anonymous_id_digest self x :
  (get_anonymous_id self x).1.2 = _create_hash self x.
Proof. unfold get_anonymous_id. by destruct (mapping self !! _); simpl. Qed.

Lemma get_anonymous_id_salt self x : salt (get_anonymous_id self x).2 = salt self.
Proof. unfold get_anonymous_id. by destruct (mapping self !! _); simpl. Qed.

(** Once resolved, a digest is in the table with the surrogate ID that
    was returned. *)
Lemma get_anonymous_id_recorded self x :
  mapping (get_anonymous_id self x).2 !! _create_hash self x
  = Some (get_anonymous_id self x).1.1.
Proof.
  unfold get_anonymous_id.
  destruct (mapping self !! _create_hash self x) eqn:Hm; simpl; [done |].
  by rewrite lookup_insert_eq.
Qed.

(** The table only grows: an entry is never removed or reassigned. *)
Lemma get_anonymous_id_keeps self x h id :
  mapping self !! h = Some id → mapping (get_anonymous_id self x).2 !! h = Some id.
Proof.
  intros Hh. unfold get_anonymous_id.
  destruct (mapping self !! _create_hash self x) eqn:Hm; simpl; [done |].
  rewrite lookup_insert_ne; [done | congruence].
Qed.

Lemma get_anonymous_id_known self x id :
  mapping self !! _create_hash self x = Some id →
  get_anonymous_id self x = ((id, _create_hash self x), self).
Proof. intros Hm. unfold get_anonymous_id. by rewrite Hm. Qed.

Lemma resolve_all_salt xs : ∀ self, salt (resolve_all self xs) = salt self.
Proof.
  induction xs as [|x xs IH]; intros self; [done |].
  simpl. by rewrite IH, get_anonymous_id_salt.
Qed.

Lemma resolve_all_keeps xs : ∀ self h id,
  mapping self !! h = Some id → mapping (resolve_all self xs) !! h = Some id.
Proof.
  induction xs as [|x xs IH]; intros self h id Hh; [done |].
  simpl. by apply IH, get_anonymous_id_keeps.
Qed.

Lemma create_hash_cosmetic a b x y :
  salt a = salt b → cosmetic x y →
  _create_hash a (Some (Str x)) = _create_hash b (Some (Str y)).
Proof.
  intros Hs Hxy. unfold _create_hash.
  by rewrite (cosmetic_normalise x y Hxy), Hs.
Qed.

(** C1 (as amended). Within one resolver lifetime, once the identifier
    [x] has been resolved, resolving [x] again or any cosmetic variant
    [y] of it (white space in front or behind, space characters inside,
    letters in another case), after any further calls [between], returns
    the surrogate ID and the digest that the first call returned. *)
Theorem resolve_cosmetic_variant_stable self x y between :
  cosmetic x y →
  (get_anonymous_id
     (resolve_all (get_anonymous_id self (Some (Str x))).2 between) (Some (Str y))).1
  = (get_anonymous_id self (Some (Str x))).1.
Proof.
  intros Hxy.
  set (first := get_anonymous_id self (Some (Str x))).
  set (later := resolve_all first.2 between).
  assert (Hsalt : salt later = salt self).
  { unfold later, first. by rewrite resolve_all_salt, get_anonymous_id_salt. }
  assert (Hh : _create_hash later (Some (Str y)) = _create_hash self (Some (Str x))).
  { apply create_hash_cosmetic; [done | by apply cosmetic_sym]. }
  assert (Hm : mapping later !! _create_hash later (Some (Str y)) = Some first.1.1).
  { rewrite Hh. apply resolve_all_keeps, get_anonymous_id_recorded. }
  rewrite (get_anonymous_id_known _ _ _ Hm), Hh.
  rewrite <- (get_anonymous_id_digest self (Some (Str x))).
  fold first. simpl. by destruct (first.1).
Qed.

Lemma resolve_cosmetic_variant_stable_witness :
  cosmetic "h 123" " H123 " ∧
  (get_anonymous_id
     (resolve_all (get_anonymous_id (new_anonymiser "5a17") (Some (Str "h 123"))).2
        [Some (Str "H999"); Some (Num 42)])
     (Some (Str " H123 "))).1
  = (get_anonymous_id (new_anonymiser "5a17") (Some (Str "h 123"))).1.
Proof.
  assert (H : cosmetic "h 123" " H123 ").
  { eapply cosmetic_trans; [exact (cosmetic_inner_space "h" "123") |].
    eapply cosmetic_trans; [exact (cosmetic_case "h" "H" "" "123" eq_refl) |].
    apply cosmetic_sym.
    eapply cosmetic_trans; [exact (cosmetic_trailing " " " H123" eq_refl) |].
    exact (cosmetic_leading " " "H123" eq_refl). }
  split; [exact H |].
  exact (resolve_cosmetic_variant_stable _ _ _ _ H).
Defined.

(** C1 as stated fails for white space inside the identifier that is not
    the space character: a TAB is white space, it is not removed, and the
    identifier with it resolves to another digest and another surrogate
    ID. *)
Lemma resolve_internal_tab_differs :
  let self := new_anonymiser "0123456789abcdef0123456789abcdef0123456789abcdef0123456789abcdef" in
  let x := "H123" in
  let y := String "H" (String "009" "123") in
  let first := get_anonymous_id self (Some (Str x)) in
  let second := get_anonymous_id first.2 (Some (Str y)) in
  PyStr.isspace "009" = true ∧
  first.1 = ("ICU-000001", "817c67ecc3c620b8d048760d8ccacfc67a9573a0eb050fbc9c7ccd0390f716f0") ∧
  second.1 = ("ICU-000002", "7c398c1a79bd26aa2d8d2db5b545ef3b59df0985593958a49eeb553913c647cd") ∧
  second.1.1 ≠ first.1.1 ∧ second.1.2 ≠ first.1.2.
Proof. vm_compute. repeat split; discriminate. Qed.

(** ** Anonymising a table *)

Lemma apply_get_anonymous_id_length series : ∀ self,
  length (apply_get_anonymous_id self series).1 = length series.
Proof.
  induction series as [|x rest IH]; intros self; simpl; [done |].
  destruct (get_anonymous_id self x) as [r self1].
  specialize (IH self1). destruct (apply_get_anonymous_id self1 rest) as [rs self2].
  simpl in *. by rewrite IH.
Qed.

Lemma elem_of_columns_setitem df c series c' :
  c' ∈ columns (setitem df c series) ↔ c' ∈ columns df ∨ c' = c.
Proof.
  simpl. case_decide; rewrite ?elem_of_app, ?list_elem_of_singleton; naive_solver.
Qed.

Lemma elem_of_columns_drop_columns df cs c :
  c ∈ columns (drop_columns df cs) ↔ (c ∉ cs) ∧ c ∈ columns df.
Proof. simpl. by rewrite list_elem_of_filter. Qed.

Lemma anonymise_dataframe_missing_column self df identifier_column :
  identifier_column ∉ columns df →
  anonymise_dataframe self df identifier_column = (Raise ValueError, self).
Proof. intros H. unfold anonymise_dataframe. by rewrite decide_False. Qed.

(** What [anonymise_dataframe] returns when the identifier column is
    there: every row gets its two new cells, then loses the identifier. *)
Lemma anonymise_dataframe_rows self df identifier_column :
  identifier_column ∈ columns df →
  ∃ df', fst (anonymise_dataframe self df identifier_column) = Ok df' ∧
    (∀ c, c ∈ columns df' ↔
       c ≠ identifier_column ∧
       (c ∈ columns df ∨ c = "anonymous_patient_id" ∨ c = "patient_id_hash")) ∧
    length (rows df') = length (rows df) ∧
    ∀ r, r ∈ rows df' →
      ∃ r0 a h, r0 ∈ rows df ∧
        r = delete identifier_column
              (<["patient_id_hash" := Str h]> (<["anonymous_patient_id" := Str a]> r0)).
Proof.
  intros Hin. unfold anonymise_dataframe. rewrite decide_True by done.
  pose proof (apply_get_anonymous_id_length (column df identifier_column) self) as Hlen.
  destruct (apply_get_anonymous_id self (column df identifier_column)) as [results self'].
  simpl in Hlen. unfold column in Hlen. rewrite length_fmap in Hlen.
  eexists. split; [done |]. split; [|split].
  - intros c. rewrite elem_of_columns_drop_columns, !elem_of_columns_setitem,
      list_elem_of_singleton.
    naive_solver.
  - simpl. rewrite length_fmap, !length_zip_with, !length_fmap. lia.
  - simpl. intros r Hr. apply list_elem_of_fmap in Hr as (r2 & -> & Hr2).
    apply elem_of_zip_with in Hr2 as (r1 & xh & -> & Hr1 & Hxh).
    apply elem_of_zip_with in Hr1 as (r0 & xa & -> & Hr0 & Hxa).
    apply list_elem_of_fmap in Hxh as (ph & -> & _).
    apply list_elem_of_fmap in Hxa as (pa & -> & _).
    exists r0, pa.1, ph.2. done.
Qed.

(** The shape of the table returned. When the identifier column is in
    the table, and is not itself named [anonymous_patient_id] or
    [patient_id_hash], [anonymise_dataframe] returns a table with as
    many rows, without the identifier column, and with the columns
    [anonymous_patient_id] and [patient_id_hash] present and filled in
    every row. When the identifier column is not in the table it
    raises [ValueError], whatever its name. *)
Lemma anonymise_dataframe_shape self df identifier_column :
  (identifier_column ∈ columns df →
   identifier_column ≠ "anonymous_patient_id" →
   identifier_column ≠ "patient_id_hash" →
   ∃ df', fst (anonymise_dataframe self df identifier_column) = Ok df' ∧
     length (rows df') = length (rows df) ∧
     (identifier_column ∉ columns df') ∧
     "anonymous_patient_id" ∈ columns df' ∧
     "patient_id_hash" ∈ columns df' ∧
     ∀ r, r ∈ rows df' →
       r !! identifier_column = None ∧
       is_Some (r !! "anonymous_patient_id") ∧ is_Some (r !! "patient_id_hash"))
  ∧ (identifier_column ∉ columns df →
     fst (anonymise_dataframe self df identifier_column) = Raise ValueError).
Proof.
  split.
  - intros Hin Hid Hhash.
    destruct (anonymise_dataframe_rows self df identifier_column Hin)
      as (df' & Hok & Hcols & Hlen & Hrows).
    exists df'. split; [done |]. split; [done |].
    rewrite !Hcols. split; [|split; [|split]].
    + naive_solver.
    + naive_solver.
    + naive_solver.
    + intros r Hr. destruct (Hrows r Hr) as (r0 & a & h & _ & ->).
      rewrite lookup_delete_eq, !lookup_delete_ne by done.
      rewrite lookup_insert_ne, !lookup_insert_eq by done.
      eauto.
  - intros Hnot. by rewrite anonymise_dataframe_missing_column.
Qed.

(** C10, evaluated on the code. The docstring of [anonymise_dataframe]
    promises a table with the columns [anonymous_patient_id] and
    [patient_id_hash]. For a table whose identifier column is itself
    called [anonymous_patient_id] (an anonymised table submitted again)
    the new column overwrites the identifier and is then dropped with
    it: the call returns, and the table returned has the digest column
    and no surrogate ID column, in its columns and in its rows. *)
Lemma anonymise_dataframe_drops_surrogate_column :
  let df := {| columns := ["anonymous_patient_id"; "icu_unit"];
               rows := [ {[ "anonymous_patient_id" := Str "H1"; "icu_unit" := Str "A600" ]} ] |} in
  let out := (anonymise_dataframe (new_anonymiser "5a17") df "anonymous_patient_id").1 in
  "anonymous_patient_id" ∈ columns df ∧
  columns <$> returned out = Some ["icu_unit"; "patient_id_hash"] ∧
  ("anonymous_patient_id" ∉ ["icu_unit"; "patient_id_hash"]) ∧
  (λ R, (λ r : gmap string value, r !! "anonymous_patient_id") <$> rows R) <$> returned out
  = Some [None].
Proof.
  split_and!; [by left | vm_compute; reflexivity | | vm_compute; reflexivity].
  rewrite !elem_of_cons, elem_of_nil. by intros [?|[?|?]].
Qed.

(** ** Registry merge engine *)

Section merge.
Local Abbreviation ID := "anonymous_patient_id".
Implicit Types (r : gmap string value) (M B : DataFrame) (pid : option value).

Lemma cell_eqb_true pid s : cell_eqb pid s = true ↔ is_Some pid ∧ s = pid.
Proof.
  destruct pid as [b|], s as [a|]; simpl; rewrite ?bool_decide_eq_true;
    split; naive_solver.
Qed.

Lemma first_match_Some df pid i r :
  first_match df pid = Some (i, r) ↔
    rows df !! i = Some r ∧ is_Some pid ∧ r !! ID = pid ∧
    ∀ j r', rows df !! j = Some r' → j < i → r' !! ID ≠ pid.
Proof.
  unfold first_match. rewrite list_find_Some, cell_eqb_true. split.
  - intros (Hi & [Hs Heq] & Hleast). split_and!; [done..|].
    intros j r' Hj Hlt Heq'. apply (Hleast j r' Hj Hlt), cell_eqb_true. done.
  - intros (Hi & Hs & Heq & Hleast). split_and!; [done..|].
    intros j r' Hj Hlt [_ Heq']%cell_eqb_true. by apply (Hleast j r' Hj Hlt).
Qed.

Lemma first_match_is_Some df pid :
  is_Some pid → pid ∈ column df ID → is_Some (first_match df pid).
Proof.
  intros Hs (r & -> & Hr)%list_elem_of_fmap.
  apply (list_find_elem_of _ _ r); [done |]. by apply cell_eqb_true.
Qed.

Lemma first_match_None df pid :
  pid ∉ column df ID → first_match df pid = None.
Proof.
  intros Hnot. apply list_find_None, Forall_forall.
  intros r Hr [_ Heq]%cell_eqb_true. apply Hnot, list_elem_of_fmap. eauto.
Qed.

(** *** The inner loop *)

Lemma update_row_lookup ncols mcols nr : ∀ r c,
  update_row ncols mcols nr r !! c =
    if decide (c ∈ ncols ∧ c ∈ mcols) then
      match nr !! c with Some v => Some v | None => r !! c end
    else r !! c.
Proof.
  unfold update_row.
  induction ncols as [|col ncols IH]; intros r c; cbn [foldl].
  - case_decide as Hc; [|done]. destruct Hc as [Hc _]. by apply elem_of_nil in Hc.
  - rewrite IH. clear IH.
    set (r1 := if decide (col ∈ mcols)
               then match nr !! col with Some v => <[col:=v]> r | None => r end
               else r).
    assert (Hr1 : r1 !! c =
              if decide (c = col ∧ col ∈ mcols)
              then match nr !! c with Some v => Some v | None => r !! c end
              else r !! c).
    { unfold r1. destruct (decide (c = col)) as [->|Hne].
      - destruct (decide (col ∈ mcols)).
        + rewrite decide_True by done.
          destruct (nr !! col); [by rewrite lookup_insert_eq | done].
        + rewrite decide_False by tauto. done.
      - rewrite (decide_False (P := c = col ∧ _)) by tauto.
        case_decide; [|done].
        destruct (nr !! col); [by rewrite lookup_insert_ne | done]. }
    rewrite Hr1. clear Hr1 r1.
    destruct (decide (c ∈ col :: ncols ∧ c ∈ mcols)) as [[Hc Hm]|Hnc];
      destruct (decide (c ∈ ncols ∧ c ∈ mcols)) as [[Hn Hm']|Hno];
      destruct (decide (c = col ∧ col ∈ mcols)) as [[Heq Hm'']|Hno'];
      try done.
    + by destruct (nr !! c).
    + apply elem_of_cons in Hc. naive_solver.
    + exfalso. apply Hnc. rewrite elem_of_cons. auto.
    + exfalso. apply Hnc. rewrite elem_of_cons. auto.
    + exfalso. apply Hnc. rewrite elem_of_cons. subst. auto.
Qed.

Lemma update_row_idemp ncols mcols nr r :
  update_row ncols mcols nr (update_row ncols mcols nr r) = update_row ncols mcols nr r.
Proof.
  apply map_eq. intros c. rewrite !update_row_lookup.
  case_decide; [|done]. by destruct (nr !! c).
Qed.

Lemma update_row_self ncols mcols r : update_row ncols mcols r r = r.
Proof.
  apply map_eq. intros c. rewrite update_row_lookup.
  case_decide; [|done]. by destruct (r !! c).
Qed.

(** The surrogate ID of a row is not changed by the values of a record
    with the same surrogate ID. *)
Lemma update_row_id ncols mcols nr r :
  is_Some (nr !! ID) → nr !! ID = r !! ID →
  update_row ncols mcols nr r !! ID = r !! ID.
Proof.
  intros [v Hv] Heq. rewrite update_row_lookup.
  case_decide; [|done]. rewrite Hv. congruence.
Qed.

Lemma update_record_spec idx nr ncols : ∀ master,
  update_record master idx ncols nr =
    {| columns := columns master;
       rows := alter (update_row ncols (columns master) nr) idx (rows master) |}.
Proof.
  unfold update_record, update_row.
  induction ncols as [|col ncols IH]; intros [cols rws]; simpl.
  - f_equal. symmetry. by apply list_alter_id.
  - case_decide as Hcol; simpl in Hcol; [destruct (nr !! col) as [v|] eqn:Hv|];
      rewrite IH; simpl; f_equal; rewrite ?list_alter_alter_eq; done.
Qed.

(** *** The loop over the overlapping IDs *)

Lemma merge_row_id M B i r : merge_row M B i r !! ID = r !! ID.
Proof.
  unfold merge_row.
  destruct (first_match B (r !! ID)) as [[k nr]|] eqn:HB; [|done].
  case_decide; [|done].
  apply first_match_Some in HB as (_ & Hs & Hnr & _).
  apply update_row_id; by rewrite Hnr.
Qed.

Lemma merge_row_first M B idx r0 k nr :
  first_match M (r0 !! ID) = Some (idx, r0) →
  first_match B (r0 !! ID) = Some (k, nr) →
  merge_row M B idx r0 = update_row (columns B) (columns M) nr r0.
Proof. intros HM HB. unfold merge_row. rewrite HB, HM. simpl. by rewrite decide_True. Qed.

Lemma merge_row_not_first M B i r :
  fst <$> first_match M (r !! ID) ≠ Some i → merge_row M B i r = r.
Proof.
  intros Hne. unfold merge_row.
  destruct (first_match B (r !! ID)) as [[k nr]|]; [|done].
  by rewrite decide_False.
Qed.

(** The rows of the master after the loop has handled the IDs [done]:
    this is the invariant of the loop. The IDs may come in any order,
    and more than once. *)
Lemma update_existing_spec M B pids : ∀ done,
  (∀ pid, pid ∈ pids → is_Some (first_match M pid) ∧ is_Some (first_match B pid)) →
  update_existing
    {| columns := columns M;
       rows := imap (λ i r, if decide (r !! ID ∈ done) then merge_row M B i r else r)
                    (rows M) |}
    B pids
  = (None,
     {| columns := columns M;
        rows := imap (λ i r, if decide (r !! ID ∈ done ++ pids) then merge_row M B i r else r)
                     (rows M) |}).
Proof.
  induction pids as [|pid rest IH]; intros done Hp.
  { by rewrite app_nil_r. }
  destruct (Hp pid) as [[[idx r0] HM] [[k nr] HB]]; [left |].
  pose proof HM as (Hidx & Hs & Hid0 & Hleast)%first_match_Some.
  cbn [update_existing].
  set (f := λ (i : nat) r, if decide (r !! ID ∈ done) then merge_row M B i r else r).
  assert (Hf : ∀ i r, f i r !! ID = r !! ID).
  { intros i r. unfold f. case_decide; [apply merge_row_id | done]. }
  assert (Hm : first_match {| columns := columns M; rows := imap f (rows M) |} pid
               = Some (idx, f idx r0)).
  { apply first_match_Some. simpl. split_and!; [|done|by rewrite Hf|].
    - by rewrite list_lookup_imap, Hidx.
    - intros j r' Hj Hlt. rewrite list_lookup_imap in Hj.
      destruct (rows M !! j) as [r''|] eqn:Hj'; simplify_eq/=.
      rewrite Hf. by apply (Hleast j). }
  rewrite Hm, HB, update_record_spec. simpl.
  replace (done ++ pid :: rest) with ((done ++ [pid]) ++ rest) by by rewrite <- app_assoc.
  rewrite <- IH.
  2:{ intros p Hin. apply Hp. by right. }
  do 2 f_equal. apply list_eq. intros i.
  rewrite list_lookup_alter, !list_lookup_imap.
  destruct (decide (idx = i)) as [<-|Hne].
  - rewrite Hidx. simpl. f_equal.
    rewrite decide_True by (rewrite elem_of_app, list_elem_of_singleton; auto).
    rewrite <- Hid0 in HM, HB.
    rewrite (merge_row_first M B idx r0 k nr HM HB).
    unfold f. case_decide; [|done].
    rewrite (merge_row_first M B idx r0 k nr HM HB). apply update_row_idemp.
  - destruct (rows M !! i) as [r|] eqn:Hi; [|done]. simpl. f_equal.
    unfold f. destruct (decide (r !! ID ∈ done)) as [Hd|Hd].
    + by rewrite decide_True by (rewrite elem_of_app; auto).
    + case_decide as Hd'; [|done].
      apply elem_of_app in Hd' as [?|Heq%list_elem_of_singleton]; [done |].
      symmetry. apply merge_row_not_first. rewrite Heq, HM. simpl. congruence.
Qed.

(** The loop does not depend on the order in which the set of
    overlapping IDs is iterated. *)
Lemma update_existing_order M B pids1 pids2 :
  pids1 ≡ₚ pids2 →
  (∀ pid, pid ∈ pids1 → is_Some (first_match M pid) ∧ is_Some (first_match B pid)) →
  update_existing M B pids1 = update_existing M B pids2.
Proof.
  intros Hperm Hp.
  assert (HM : M = {| columns := columns M;
                      rows := imap (λ i r, if decide (r !! ID ∈ []) then merge_row M B i r else r)
                                   (rows M) |}).
  { destruct M as [cols rws]. simpl. f_equal. apply list_eq. intros i.
    rewrite list_lookup_imap. by destruct (rws !! i). }
  assert (Hspec : ∀ pids,
            (∀ pid, pid ∈ pids → is_Some (first_match M pid) ∧ is_Some (first_match B pid)) →
            update_existing M B pids
            = (None, {| columns := columns M;
                        rows := imap (λ i r, if decide (r !! ID ∈ pids)
                                             then merge_row M B i r else r) (rows M) |})).
  { intros pids Hpids. rewrite HM at 1. by rewrite update_existing_spec. }
  rewrite !Hspec; [|intros pid Hpid; apply Hp; by rewrite Hperm | done].
  do 2 f_equal. apply imap_ext. intros i r _. simpl.
  apply decide_ext. by rewrite Hperm.
Qed.

(** *** The whole merge *)

Lemma filter_ext_elem {A} (P Q : A → Prop) `{!∀ x, Decision (P x), !∀ x, Decision (Q x)}
    (l : list A) :
  (∀ x, x ∈ l → P x ↔ Q x) → filter P l = filter Q l.
Proof.
  induction l as [|a l IH]; intros Hext; [done |].
  rewrite !filter_cons.
  rewrite IH by (intros x Hx; apply Hext; by right).
  destruct (decide (P a)) as [HP|HP], (decide (Q a)) as [HQ|HQ]; try done;
    exfalso; apply (Hext a) in HP || apply (Hext a) in HQ; done || by left.
Qed.

Lemma elem_of_column df c r : r ∈ rows df → r !! c ∈ column df c.
Proof. intros Hr. apply list_elem_of_fmap. eauto. Qed.

(** A merge into an existing master returns, and returns [merged]; the
    registry it leaves is the table it returns. *)
Lemma merge_with_master_spec M B merge_strategy :
  ID ∈ columns M → has_ids B →
  merge_with_master (Some M) B merge_strategy
  = (Ok (merged M B merge_strategy), Some (merged M B merge_strategy)).
Proof.
  intros HM [HB Hids]. unfold merge_with_master, getitem.
  rewrite !decide_True by done.
  set (overlapping := filter (λ x, x ∈ to_set (column M ID)) (to_set (column B ID))).
  set (truly_new := filter (λ x, x ∉ to_set (column M ID)) (to_set (column B ID))).
  assert (Hnew : select_isin B truly_new
                 = {| columns := columns B;
                      rows := filter (λ r, r !! ID ∉ column M ID) (rows B) |}).
  { unfold select_isin. f_equal. apply filter_ext_elem. intros r Hr.
    unfold truly_new, to_set.
    rewrite list_elem_of_filter, !elem_of_remove_dups.
    pose proof (elem_of_column B ID r Hr). tauto. }
  unfold merged. case_decide as Hstrategy.
  - assert (Hloop : update_existing M B overlapping
                    = (None, {| columns := columns M;
                                rows := imap (merge_row M B) (rows M) |})).
    { pose proof (update_existing_spec M B overlapping []) as Hspec.
      rewrite app_nil_l in Hspec.
      replace ({| columns := columns M;
                  rows := imap (λ i r, if decide (r !! ID ∈ []) then merge_row M B i r else r)
                               (rows M) |}) with M in Hspec.
      2:{ destruct M as [cols rws]. simpl. f_equal. apply list_eq. intros i.
          rewrite list_lookup_imap. by destruct (rws !! i). }
      rewrite Hspec.
      - do 2 f_equal. apply imap_ext. intros i r Hi. simpl.
        case_decide as Hov; [done |]. symmetry.
        unfold merge_row. rewrite first_match_None; [done |].
        intros Hin. apply Hov. unfold overlapping, to_set.
        rewrite list_elem_of_filter, !elem_of_remove_dups. split; [|done].
        apply elem_of_column. by eapply list_elem_of_lookup_2.
      - intros pid Hpid. unfold overlapping, to_set in Hpid.
        rewrite list_elem_of_filter, !elem_of_remove_dups in Hpid.
        destruct Hpid as [HinM HinB].
        assert (is_Some pid).
        { apply list_elem_of_fmap in HinB as (r & -> & Hr). by apply Hids. }
        split; by apply first_match_is_Some. }
    rewrite Hloop, Hnew. done.
  - rewrite Hnew. done.
Qed.

End merge.

(** *** The scenario, evaluated *)

(** Processing file A gives [scenario_master]; the batch of file B is
    [scenario_batch]; processing B merges the one into the other, and
    processing B again merges it into the result. *)
Lemma scenario_pipeline :
  returned after_A.1 = Some scenario_master ∧
  master_registry after_A.2 = Some scenario_master ∧
  returned batch_B = Some scenario_batch ∧
  after_B.1 = (merge_with_master (Some scenario_master) scenario_batch "update").1 ∧
  master_registry after_B.2 = returned after_B.1 ∧
  after_B_again.1
  = (merge_with_master (master_registry after_B.2) scenario_batch "update").1.
Proof. split_and!; vm_compute; reflexivity. Qed.

Section merge_properties.
Local Abbreviation ID := "anonymous_patient_id".
Implicit Types (r : gmap string value) (M B : DataFrame) (pid : option value).

Lemma filter_none {A} (P : A → Prop) `{!∀ x, Decision (P x)} (l : list A) :
  (∀ x, x ∈ l → ¬ P x) → filter P l = [].
Proof.
  induction l as [|a l IH]; intros Hno; [done |].
  rewrite filter_cons_False by (apply Hno; by left).
  apply IH. intros x Hx. apply Hno. by right.
Qed.

(** *** Non-destructiveness *)

Lemma merge_row_unmatched M B i r : r !! ID ∉ column B ID → merge_row M B i r = r.
Proof. intros Hnot. unfold merge_row. by rewrite first_match_None. Qed.

Lemma example_batch_has_ids : has_ids example_batch.
Proof.
  split; [by left |]. intros r Hr. simpl in Hr.
  repeat (apply elem_of_cons in Hr as [->|Hr]); [by vm_compute; eauto..|].
  by apply elem_of_nil in Hr.
Qed.

Lemma example_batch_known_columns_has_ids : has_ids example_batch_known_columns.
Proof.
  split; [by left |]. intros r Hr. simpl in Hr.
  repeat (apply elem_of_cons in Hr as [->|Hr]); [by vm_compute; eauto..|].
  by apply elem_of_nil in Hr.
Qed.

(** C5. Whatever the strategy, a merge that the batch allows returns a
    registry with at least as many rows as before, in which every row
    whose surrogate ID does not occur in the batch is where it was and
    is what it was. On the first call the registry has no row. *)
Theorem merge_non_destructive master_registry B merge_strategy :
  mergeable master_registry B →
  ∃ R, merge_with_master master_registry B merge_strategy = (Ok R, Some R) ∧
    (length (registry_rows master_registry) ≤ length (rows R))%nat ∧
    ∀ i r, registry_rows master_registry !! i = Some r →
      r !! ID ∉ column B ID → rows R !! i = Some r.
Proof.
  destruct master_registry as [M|]; simpl.
  - intros [HM HB]. eexists. split; [by apply merge_with_master_spec |].
    simpl. split.
    + rewrite length_app. case_decide; rewrite ?length_imap; lia.
    + intros i r Hi Hnot. apply lookup_app_l_Some.
      case_decide; [|done].
      rewrite list_lookup_imap, Hi. simpl. by rewrite merge_row_unmatched.
  - intros _. exists B. split; [done |]. split; [lia |]. by intros i r [=].
Qed.

Lemma merge_non_destructive_witness :
  mergeable (Some example_master) example_batch ∧
  ∃ R, merge_with_master (Some example_master) example_batch "update" = (Ok R, Some R) ∧
    (length (registry_rows (Some example_master)) ≤ length (rows R))%nat ∧
    ∀ i r, registry_rows (Some example_master) !! i = Some r →
      r !! ID ∉ column example_batch ID → rows R !! i = Some r.
Proof.
  assert (H : mergeable (Some example_master) example_batch).
  { split; [by left | exact example_batch_has_ids]. }
  split; [exact H |].
  exact (merge_non_destructive (Some example_master) example_batch "update" H).
Defined.

(** *** Null-safety of the update *)

(** C4. Under the strategy [update], a field whose incoming value (in
    the first row of the batch with the surrogate ID of the master row)
    is missing is left as it was in the master row; and no field that
    the master row had becomes missing. *)
Theorem merge_update_null_safe M B :
  ID ∈ columns M → has_ids B →
  ∃ R, merge_with_master (Some M) B "update" = (Ok R, Some R) ∧
    ∀ i r, rows M !! i = Some r →
      ∃ r', rows R !! i = Some r' ∧
        (∀ k nr col, first_match B (r !! ID) = Some (k, nr) →
                     nr !! col = None → r' !! col = r !! col) ∧
        (∀ col, is_Some (r !! col) → is_Some (r' !! col)).
Proof.
  intros HM HB. eexists. split; [by apply merge_with_master_spec |].
  intros i r Hi. exists (merge_row M B i r). simpl. split.
  { apply lookup_app_l_Some. by rewrite list_lookup_imap, Hi. }
  unfold merge_row. split.
  - intros k nr col Hnr Hcol. rewrite Hnr. case_decide; [|done].
    rewrite update_row_lookup. case_decide; [|done]. by rewrite Hcol.
  - intros col Hcol. destruct (first_match B (r !! ID)) as [[k nr]|]; [|done].
    case_decide; [|done].
    rewrite update_row_lookup. case_decide; [|done]. by destruct (nr !! col).
Qed.

Lemma merge_update_null_safe_witness :
  (ID ∈ columns example_master ∧ has_ids example_batch) ∧
  ∃ R, merge_with_master (Some example_master) example_batch "update" = (Ok R, Some R) ∧
    ∀ i r, rows example_master !! i = Some r →
      ∃ r', rows R !! i = Some r' ∧
        (∀ k nr col, first_match example_batch (r !! ID) = Some (k, nr) →
                     nr !! col = None → r' !! col = r !! col) ∧
        (∀ col, is_Some (r !! col) → is_Some (r' !! col)).
Proof.
  assert (H1 : ID ∈ columns example_master) by by left.
  split; [exact (conj H1 example_batch_has_ids) |].
  exact (merge_update_null_safe example_master example_batch H1 example_batch_has_ids).
Defined.

(** *** What the update writes *)

(** C2 (as amended). Under the strategy [update], for a surrogate ID
    that the master and the batch both have, every field that is a
    column of the batch and of the master, and whose value in the first
    row of the batch with that ID is not missing, overwrites the field
    in the first row of the master with that ID. A column of the batch
    that the master does not have is added to the columns of the
    registry, and is not written to that row. When the batch brings no
    new ID the number of rows does not change. *)
Theorem merge_update_overwrites M B :
  ID ∈ columns M → has_ids B →
  ∃ R, merge_with_master (Some M) B "update" = (Ok R, Some R) ∧
    (∀ pid i r k nr,
       first_match M pid = Some (i, r) → first_match B pid = Some (k, nr) →
       ∃ r', rows R !! i = Some r' ∧
         (∀ col v, col ∈ columns B → col ∈ columns M → nr !! col = Some v →
                   r' !! col = Some v) ∧
         (∀ col, col ∉ columns M → r' !! col = r !! col)) ∧
    (∀ col, col ∈ columns B → col ∈ columns R) ∧
    ((∀ pid, pid ∈ column B ID → pid ∈ column M ID) →
     length (rows R) = length (rows M)).
Proof.
  intros HM HB. eexists. split; [by apply merge_with_master_spec |].
  simpl. split_and!.
  - intros pid i r k nr HMp HBp.
    pose proof HMp as (Hi & _ & Hid & _)%first_match_Some.
    rewrite <- Hid in HMp, HBp.
    exists (update_row (columns B) (columns M) nr r). split_and!.
    + apply lookup_app_l_Some. rewrite list_lookup_imap, Hi. simpl.
      by rewrite (merge_row_first M B i r k nr).
    + intros col v HcB HcM Hv. rewrite update_row_lookup.
      by rewrite decide_True, Hv.
    + intros col Hcol. rewrite update_row_lookup. rewrite decide_False; [done | tauto].
  - intros col Hcol. rewrite elem_of_app, list_elem_of_filter.
    destruct (decide (col ∈ columns M)); auto.
  - intros Hsub. rewrite length_app, length_imap.
    rewrite filter_none; [simpl; lia |].
    intros r Hr Hnot. apply Hnot, Hsub. by apply elem_of_column.
Qed.

Lemma merge_update_overwrites_witness :
  (ID ∈ columns example_master ∧ has_ids example_batch) ∧
  ∃ R, merge_with_master (Some example_master) example_batch "update" = (Ok R, Some R) ∧
    (∀ pid i r k nr,
       first_match example_master pid = Some (i, r) →
       first_match example_batch pid = Some (k, nr) →
       ∃ r', rows R !! i = Some r' ∧
         (∀ col v, col ∈ columns example_batch → col ∈ columns example_master →
                   nr !! col = Some v → r' !! col = Some v) ∧
         (∀ col, col ∉ columns example_master → r' !! col = r !! col)) ∧
    (∀ col, col ∈ columns example_batch → col ∈ columns R) ∧
    ((∀ pid, pid ∈ column example_batch ID → pid ∈ column example_master ID) →
     length (rows R) = length (rows example_master)).
Proof.
  assert (H1 : ID ∈ columns example_master) by by left.
  split; [exact (conj H1 example_batch_has_ids) |].
  exact (merge_update_overwrites example_master example_batch H1 example_batch_has_ids).
Defined.

(** C2 as stated fails for the fields that are new to the master. In the
    scenario of the specification the registry built from file A is
    merged with the batch of file B: the batch has an outcome for the
    surrogate ID of H2, the registry gets the outcome column, and row 1,
    the row of H2, has no outcome; the registry keeps its three rows. *)
Lemma update_skips_field_new_to_master :
  let R := merged scenario_master scenario_batch "update" in
  merge_with_master (Some scenario_master) scenario_batch "update" = (Ok R, Some R) ∧
  after_B.1 = Ok R ∧
  column scenario_master ID
  = [Some (Str "ICU-000001"); Some (Str "ICU-000002"); Some (Str "ICU-000001")] ∧
  column scenario_batch ID = [Some (Str "ICU-000002")] ∧
  column scenario_batch "icu_outcome" = [Some (Str "Survived")] ∧
  "icu_outcome" ∈ columns scenario_batch ∧
  "icu_outcome" ∈ columns R ∧
  column R "icu_outcome" = [None; None; None] ∧
  length (rows R) = 3%nat.
Proof.
  split_and!; try (vm_compute; reflexivity).
  - by left.
  - by do 3 right; left.
Qed.

(** *** Idempotence of the update *)

(** The first row with a given ID among the rows that a filter keeps is
    the first row with that ID, when the filter keeps every row with
    that ID. *)
Lemma list_find_filter_keeps {A} (P Q : A → Prop)
    `{!∀ x, Decision (P x), !∀ x, Decision (Q x)} (l : list A) :
  (∀ x, P x → Q x) → snd <$> list_find P (filter Q l) = snd <$> list_find P l.
Proof.
  intros HPQ. induction l as [|a l IH]; [done |].
  rewrite filter_cons. destruct (decide (Q a)) as [HQ|HQ].
  - simpl. case_decide; [done |].
    destruct (list_find P (filter Q l)) as [[??]|], (list_find P l) as [[??]|];
      simpl in *; congruence.
  - simpl. rewrite decide_False by (intros HP; by apply HQ, HPQ).
    rewrite IH. by destruct (list_find P l) as [[??]|].
Qed.

(** A registry has absorbed a batch when a further update with the
    batch has nothing to write and nothing to add. *)
Lemma merged_absorbed X B :
  columns B ⊆ columns X →
  (∀ r, r ∈ rows B → r !! ID ∈ column X ID) →
  (∀ pid i r k nr,
     first_match X pid = Some (i, r) → first_match B pid = Some (k, nr) →
     update_row (columns B) (columns X) nr r = r) →
  merged X B "update" = X.
Proof.
  intros Hcols Hids Hrows. unfold merged. rewrite decide_True by done.
  rewrite (filter_none (λ c, c ∉ columns X)) by (intros c Hc Hnot; by apply Hnot, Hcols).
  rewrite (filter_none (λ r, r !! ID ∉ column X ID))
    by (intros r Hr Hnot; by apply Hnot, Hids).
  rewrite !app_nil_r.
  replace (imap (merge_row X B) (rows X)) with (rows X); [by destruct X |].
  apply list_eq. intros i. rewrite list_lookup_imap.
  destruct (rows X !! i) as [r|] eqn:Hi; [|done]. simpl. f_equal.
  unfold merge_row.
  destruct (first_match B (r !! ID)) as [[k nr]|] eqn:HB; [|done].
  case_decide as HX; [|done].
  destruct (first_match X (r !! ID)) as [[i' r0]|] eqn:HX'; [|done].
  simpl in HX. injection HX as ->.
  pose proof HX' as (Hi' & _)%first_match_Some.
  assert (r0 = r) as -> by congruence. symmetry. by eapply Hrows.
Qed.

(** What is first in the merged registry was first in the master, or is
    first among the new rows. *)
Lemma first_match_merged M B pid i r :
  first_match (merged M B "update") pid = Some (i, r) →
  (∃ r0, first_match M pid = Some (i, r0) ∧ r = merge_row M B i r0) ∨
  ((pid ∉ column M ID) ∧ ∀ k nr, first_match B pid = Some (k, nr) → r = nr).
Proof.
  unfold first_match at 1. simpl.
  intros [Hl|(Hge & Hnone & Hr)]%list_find_app_Some.
  - left. apply list_find_Some in Hl as (Hi & Hp & Hleast).
    rewrite list_lookup_imap in Hi.
    destruct (rows M !! i) as [r0|] eqn:Hi0; simplify_eq/=.
    exists r0. split; [|done].
    apply cell_eqb_true in Hp as [Hs Hid]. rewrite merge_row_id in Hid.
    apply first_match_Some. split_and!; [done..|].
    intros j r' Hj Hlt Heq. apply (Hleast j (merge_row M B j r')); [|done|].
    + by rewrite list_lookup_imap, Hj.
    + apply cell_eqb_true. by rewrite merge_row_id.
  - right.
    assert (HnotM : pid ∉ column M ID).
    { intros (r0 & -> & [i0 Hi0]%list_elem_of_lookup)%list_elem_of_fmap.
      apply list_find_Some in Hr as (_ & [Hs _]%cell_eqb_true & _).
      apply list_find_None in Hnone. rewrite Forall_forall in Hnone.
      apply (Hnone (merge_row M B i0 r0)).
      - apply list_elem_of_lookup. exists i0. by rewrite list_lookup_imap, Hi0.
      - apply cell_eqb_true. by rewrite merge_row_id. }
    split; [done |]. intros k nr HB.
    pose proof (list_find_filter_keeps
                  (λ r, cell_eqb pid (r !! ID) = true)
                  (λ r, r !! ID ∉ column M ID) (rows B)) as Hkeep.
    unfold first_match in HB. rewrite Hr, HB in Hkeep. simpl in Hkeep.
    assert (Some r = Some nr) as [=]; [|done].
    apply Hkeep. intros x [_ ->]%cell_eqb_true. done.
Qed.

Lemma elem_of_column_merged M B r :
  r ∈ rows B → r !! ID ∈ column (merged M B "update") ID.
Proof.
  intros Hr. unfold column, merged. simpl.
  rewrite fmap_app, elem_of_app.
  destruct (decide (r !! ID ∈ column M ID)) as [Hin|Hnot].
  - left. apply list_elem_of_fmap in Hin as (r0 & Heq & [i Hi]%list_elem_of_lookup).
    apply list_elem_of_fmap. exists (merge_row M B i r0). split.
    + by rewrite merge_row_id.
    + apply list_elem_of_lookup. exists i. by rewrite list_lookup_imap, Hi.
  - right. apply list_elem_of_fmap. exists r. split; [done |].
    by apply list_elem_of_filter.
Qed.

(** C3 (as amended). Merging the same batch twice with the strategy
    [update] changes nothing the second time, provided every column of
    the batch is already a column of the master (on the first call,
    with no master yet, the batch itself becomes the master and this
    holds): the second merge returns the registry that the first one
    returned, row for row. *)
Theorem merge_update_idempotent master_registry B :
  has_ids B →
  match master_registry with
  | Some M => ID ∈ columns M ∧ columns B ⊆ columns M
  | None => True
  end →
  ∃ R, merge_with_master master_registry B "update" = (Ok R, Some R) ∧
       merge_with_master (Some R) B "update" = (Ok R, Some R).
Proof.
  intros HB Hmaster. destruct master_registry as [M|].
  - destruct Hmaster as [HM Hsub].
    exists (merged M B "update"). split; [by apply merge_with_master_spec |].
    rewrite merge_with_master_spec; [|simpl; rewrite elem_of_app; by left | done].
    assert (Hcols : columns (merged M B "update") = columns M).
    { simpl. rewrite filter_none; [by rewrite app_nil_r |].
      intros c Hc Hnot. by apply Hnot, Hsub. }
    rewrite merged_absorbed; [done | by rewrite Hcols | apply elem_of_column_merged |].
    intros pid i r k nr HX HBp. rewrite Hcols.
    apply first_match_merged in HX as [(r0 & HM0 & ->)|[_ Heq]].
    + pose proof HM0 as (_ & _ & Hid & _)%first_match_Some.
      rewrite <- Hid in HM0, HBp.
      rewrite (merge_row_first M B i r0 k nr HM0 HBp). apply update_row_idemp.
    + rewrite (Heq k nr HBp). apply update_row_self.
  - exists B. split; [done |].
    destruct HB as [HID Hids].
    rewrite merge_with_master_spec; [|done..].
    rewrite merged_absorbed; [done | done | intros r Hr; by apply elem_of_column |].
    intros pid i r k nr HX HBp. rewrite HX in HBp. simplify_eq.
    apply update_row_self.
Qed.

Lemma merge_update_idempotent_witness :
  (has_ids example_batch_known_columns ∧
   ID ∈ columns example_master ∧
   columns example_batch_known_columns ⊆ columns example_master) ∧
  ∃ R, merge_with_master (Some example_master) example_batch_known_columns "update"
       = (Ok R, Some R) ∧
       merge_with_master (Some R) example_batch_known_columns "update" = (Ok R, Some R).
Proof.
  assert (H1 : ID ∈ columns example_master) by by left.
  assert (H2 : columns example_batch_known_columns ⊆ columns example_master) by done.
  split; [exact (conj example_batch_known_columns_has_ids (conj H1 H2)) |].
  exact (merge_update_idempotent (Some example_master) example_batch_known_columns
           example_batch_known_columns_has_ids (conj H1 H2)).
Defined.

(** C3 as stated fails when the batch has a column that the master does
    not have. In the scenario the first merge of the batch of file B adds
    the outcome column and leaves it empty; the second merge of the same
    batch finds the column and writes the outcome of H2. *)
Lemma second_update_writes_new_column :
  let R1 := merged scenario_master scenario_batch "update" in
  let R2 := merged R1 scenario_batch "update" in
  merge_with_master (Some scenario_master) scenario_batch "update" = (Ok R1, Some R1) ∧
  merge_with_master (Some R1) scenario_batch "update" = (Ok R2, Some R2) ∧
  column R1 "icu_outcome" = [None; None; None] ∧
  column R2 "icu_outcome" = [None; Some (Str "Survived"); None] ∧
  R1 ≠ R2.
Proof.
  split_and!; try (vm_compute; reflexivity).
  intros Heq. apply (f_equal (λ R, column R "icu_outcome")) in Heq.
  vm_compute in Heq. discriminate.
Qed.

End merge_properties.

(** ** Failure of a file *)

Section failure.
Local Abbreviation ID := "anonymous_patient_id".

(** A batch that comes out of the resolver has an ID in every row, as
    soon as it has the surrogate ID column at all. *)
Lemma anonymise_dataframe_has_ids a df identifier_column df' :
  (anonymise_dataframe a df identifier_column).1 = Ok df' →
  ID ∈ columns df' → has_ids df'.
Proof.
  intros Hok Hcol.
  destruct (decide (identifier_column ∈ columns df)) as [Hin|Hnot].
  2:{ rewrite anonymise_dataframe_missing_column in Hok by done. done. }
  destruct (anonymise_dataframe_rows a df identifier_column Hin)
    as (df'' & Hok' & Hcols & _ & Hrows).
  rewrite Hok in Hok'. injection Hok' as <-.
  split; [done |]. intros r Hr.
  destruct (Hrows r Hr) as (r0 & x & h & _ & ->).
  apply Hcols in Hcol as [Hne _].
  rewrite lookup_delete_ne, lookup_insert_ne, lookup_insert_eq by done. eauto.
Qed.


(** On the first call the batch is adopted as it is. *)
Lemma merge_with_master_first B merge_strategy :
  merge_with_master None B merge_strategy = (Ok B, Some B).
Proof. done. Qed.







End failure.

(** ** Validation of the categorical fields *)

Section validation.
Import RegistryValidator.








End validation.

(** ** Suppression of small cells *)

Section suppression.
Import ICUAnalyser.
Implicit Types (r : gmap string value) (t : Z).

Lemma mask_row_lookup col t r c :
  mask_row col t r !! c = if decide (c = col) then mask_cell t (r !! c) else r !! c.
Proof.
  unfold mask_row, mask_cell. destruct (decide (c = col)) as [->|Hne].
  - destruct (r !! col) as [[s|z]|] eqn:Hr; rewrite ?Hr; try done.
    case_decide; [by rewrite lookup_insert_eq | by rewrite Hr].
  - destruct (r !! col) as [[s|z]|]; try done.
    case_decide; [by rewrite lookup_insert_ne | done].
Qed.

Lemma mask_cell_idemp t x : mask_cell t (mask_cell t x) = mask_cell t x.
Proof. destruct x as [[s|z]|]; simpl; try done. by case_decide; simpl; rewrite ?decide_False. Qed.

Lemma mask_rows_lookup t cs : ∀ r c,
  foldl (λ r col, mask_row col t r) r cs !! c
  = if decide (c ∈ cs) then mask_cell t (r !! c) else r !! c.
Proof.
  induction cs as [|col cs IH]; intros r c; cbn [foldl].
  - by rewrite decide_False by apply not_elem_of_nil.
  - rewrite IH, mask_row_lookup.
    destruct (decide (c = col)) as [->|Hne].
    + rewrite (decide_True (P := col ∈ col :: cs)) by by left.
      case_decide; [apply mask_cell_idemp | done].
    + destruct (decide (c ∈ cs)) as [Hin|Hnot].
      * rewrite decide_True; [done | by right].
      * rewrite decide_False; [done |]. rewrite elem_of_cons. tauto.
Qed.

(** The loop over the numeric columns, seen row by row. *)
Lemma mask_columns_spec t cs : ∀ df,
  foldl (λ df_copy col, mask_column df_copy col t) df cs
  = {| columns := columns df;
       rows := (λ r, foldl (λ r col, mask_row col t r) r cs) <$> rows df |}.
Proof.
  induction cs as [|col cs IH]; intros [cols rws]; cbn [foldl].
  - simpl. by rewrite list_fmap_id.
  - rewrite IH. unfold mask_column. simpl. by rewrite <- list_fmap_compose.
Qed.

Lemma filter_all {A} (P : A → Prop) `{!∀ x, Decision (P x)} (l : list A) :
  (∀ x, x ∈ l → P x) → filter P l = l.
Proof.
  induction l as [|a l IH]; intros Hall; [done |].
  rewrite filter_cons_True by (apply Hall; by left).
  f_equal. apply IH. intros x Hx. apply Hall. by right.
Qed.



Lemma suppress_dict_publishable t d k v :
  suppress_dict d t !! k = Some v → publishable t v.
Proof.
  unfold suppress_dict. rewrite lookup_fmap.
  destruct (d !! k) as [z|]; [|done]. simpl. intros [= <-].
  case_decide; [left; eauto | by right].
Qed.


(** The example of the specification: outcome counts of 2 and 1 under
    the threshold 5. *)
Example suppress_outcome_counts :
  suppress_small_cells (Counts {[ Str "Survived" := 2%Z; Str "Died" := 1%Z ]}) 5
  = SuppressedCounts {[ Str "Survived" := Str "<5"; Str "Died" := Str "<5" ]}.
Proof. vm_compute. reflexivity. Qed.

End suppression.

(** ** What the combined statistics expose *)

Section exposure.
Import ICUAnalyser.

(** The flat distributions go through the filter: with suppression,
    every value they give may be published. *)
Lemma distribution_publishable df col k v :
  distribution df col true !! k = Some v → publishable 5 v.
Proof.
  unfold distribution. case_decide; [by rewrite lookup_empty |].
  apply suppress_dict_publishable.
Qed.

(** C7, evaluated on the code. For a registry with one admission, the
    combined statistics computed with suppression mask the count of the
    unit distribution, and give the count of the lengths of stay and
    the number of records as they are: 1, a number below the threshold
    that is not the marker. *)
Lemma length_of_stay_count_not_suppressed :
  let stats := generate_all_statistics (init single_admission) true in
  Stats.unit_distribution <$> returned stats = Some {[ Str "A600" := Str "<5" ]} ∧
  Stats.length_of_stay <$> returned stats = Some (LosByUnit {[ Str "A600" := 1%Z ]}) ∧
  Stats.total_records <$> returned stats = Some 1%Z ∧
  ¬ publishable 5 (Num 1).
Proof.
  split_and!; try (vm_compute; reflexivity).
  intros [(z & [= <-] & Hz)|Heq]; [lia | discriminate].
Qed.

End exposure.

(** * Further properties *)

(** ** Surrogate IDs over a resolver lifetime *)

Section lifetime.

Lemma digits_value_zeros k : ∀ s, digits_value 0 (PyStr.zeros k +:+ s) = digits_value 0 s.
Proof. induction k as [|k IH]; intros s; [done |]. simpl. apply IH. Qed.

Lemma pretty_N_char_value d : (d < 10)%N → (N_of_ascii (pretty_N_char d) - 48 = d)%N.
Proof.
  intros Hd.
  assert (d = 0 ∨ d = 1 ∨ d = 2 ∨ d = 3 ∨ d = 4 ∨ d = 5 ∨ d = 6 ∨ d = 7 ∨ d = 8 ∨ d = 9)%N
    as Hcases by lia.
  destruct Hcases as [->|[->|[->|[->|[->|[->|[->|[->|[->| ->]]]]]]]]]; reflexivity.
Qed.

Lemma digits_value_pretty_go x : ∀ s,
  digits_value 0 (pretty_N_go x s) = digits_value x s.
Proof.
  induction (N.lt_wf_0 x) as [x _ IH]. intros s.
  destruct (decide (x = 0)%N) as [->|Hx]; [by rewrite pretty_N_go_0 |].
  rewrite pretty_N_go_step by lia.
  rewrite IH by (apply N.div_lt; lia). simpl.
  rewrite pretty_N_char_value by (apply N.mod_lt; lia).
  f_equal. pose proof (N.div_mod x 10). lia.
Qed.

Lemma digits_value_pretty (n : N) : digits_value 0 (pretty n) = n.
Proof.
  unfold pretty, pretty_N. case_decide as Hn; [by subst |].
  apply digits_value_pretty_go.
Qed.

(** Round trip: the sequence number of a surrogate ID is read back from
    its text. *)
Lemma sequence_number_surrogate k : sequence_number (surrogate k) = k.
Proof.
  unfold surrogate, PyStr.zero_pad. cbn [sequence_number String.append].
  change (digits_value 0 (PyStr.zeros (6 - String.length (pretty k)) +:+ pretty k) = k).
  by rewrite digits_value_zeros, digits_value_pretty.
Qed.

Lemma surrogate_inj k1 k2 : surrogate k1 = surrogate k2 → k1 = k2.
Proof.
  intros Heq. rewrite <- (sequence_number_surrogate k1), Heq.
  apply sequence_number_surrogate.
Qed.

Lemma consistent_new s : consistent (new_anonymiser s).
Proof.
  split; simpl.
  - intros h id Hh. by rewrite lookup_empty in Hh.
  - intros k Hk. lia.
  - intros h1 h2 id Hh. by rewrite lookup_empty in Hh.
  - by rewrite map_size_empty.
Qed.

Lemma consistent_get_anonymous_id a x :
  consistent a → consistent (get_anonymous_id a x).2.
Proof.
  intros [Hrange Honto Hinj Hsize]. unfold get_anonymous_id.
  destruct (mapping a !! _create_hash a x) eqn:Hm; [done |].
  fold (surrogate (next_id a)). split; simpl.
  - intros h id. rewrite lookup_insert. case_decide as Hh.
    + intros [= <-]. exists (next_id a). split; [|done].
      pose proof Hsize. lia.
    + intros Hid. destruct (Hrange h id Hid) as (k & Hk & ->).
      exists k. split; [lia | done].
  - intros k Hk. destruct (decide (k = next_id a)) as [->|Hne].
    + exists (_create_hash a x). by rewrite lookup_insert_eq.
    + destruct (Honto k) as [h Hh]; [lia |].
      exists h. rewrite lookup_insert_ne; [done |]. intros <-. congruence.
  - intros h1 h2 id. rewrite !lookup_insert.
    repeat case_decide; subst; try done.
    + intros [= <-] Hid. destruct (Hrange h2 _ Hid) as (k & Hk & Heq).
      apply surrogate_inj in Heq. lia.
    + intros Hid [= <-]. destruct (Hrange h1 _ Hid) as (k & Hk & Heq).
      apply surrogate_inj in Heq. lia.
    + apply Hinj.
  - rewrite map_size_insert_None by done. lia.
Qed.

Lemma consistent_resolve_all xs : ∀ a, consistent a → consistent (resolve_all a xs).
Proof.
  induction xs as [|x xs IH]; intros a Ha; [done |].
  simpl. by apply IH, consistent_get_anonymous_id.
Qed.

Lemma consistent_scenario : consistent (new_anonymiser scenario_salt).
Proof. apply consistent_new. Qed.

(** Within a resolver lifetime two identifiers get the same surrogate ID
    exactly when they have the same digest: a surrogate ID is never
    given to a second digest, whatever is resolved in between. *)
Theorem surrogate_id_identifies_digest self x y between :
  consistent self →
  (get_anonymous_id (resolve_all (get_anonymous_id self x).2 between) y).1.1
  = (get_anonymous_id self x).1.1
  ↔ _create_hash self y = _create_hash self x.
Proof.
  intros Hself.
  set (first := get_anonymous_id self x).
  set (later := resolve_all first.2 between).
  assert (Hsalt : salt later = salt self).
  { unfold later, first. by rewrite resolve_all_salt, get_anonymous_id_salt. }
  assert (Hy : _create_hash later y = _create_hash self y).
  { unfold _create_hash. by rewrite Hsalt. }
  assert (Hx : mapping later !! _create_hash self x = Some first.1.1).
  { apply resolve_all_keeps, get_anonymous_id_recorded. }
  split.
  - intros Hid.
    assert (Hfinal : consistent (get_anonymous_id later y).2).
    { by apply consistent_get_anonymous_id, consistent_resolve_all,
        consistent_get_anonymous_id. }
    pose proof (get_anonymous_id_recorded later y) as Hrec.
    rewrite Hid, Hy in Hrec.
    apply (get_anonymous_id_keeps later y) in Hx.
    symmetry. exact (consistent_inj _ Hfinal _ _ _ Hx Hrec).
  - intros Heq. rewrite <- Heq, <- Hy in Hx.
    by rewrite (get_anonymous_id_known _ _ _ Hx).
Qed.

Lemma surrogate_id_identifies_digest_witness :
  consistent (new_anonymiser scenario_salt) ∧
  ((get_anonymous_id
      (resolve_all (get_anonymous_id (new_anonymiser scenario_salt) (Some (Str "H1"))).2
         [Some (Str "H2")])
      (Some (Str "h 1"))).1.1
   = (get_anonymous_id (new_anonymiser scenario_salt) (Some (Str "H1"))).1.1
   ↔ _create_hash (new_anonymiser scenario_salt) (Some (Str "h 1"))
     = _create_hash (new_anonymiser scenario_salt) (Some (Str "H1"))).
Proof.
  split; [exact consistent_scenario |].
  exact (surrogate_id_identifies_digest _ _ _ _ consistent_scenario).
Defined.

(** Over any lifetime that starts with a new resolver, the surrogate IDs
    in use are those with the sequence numbers 1 to [n], where [n] is
    the number of digests in the table, and the next sequence number is
    [n + 1]; [save_mapping_stats] reports [n], and as last ID the one
    with sequence number [n], which is in the table as soon as one
    identifier has been resolved. *)
Theorem sequence_numbers_are_gapless s xs now :
  let a := resolve_all (new_anonymiser s) xs in
  let n := N.of_nat (size (mapping a)) in
  next_id a = (n + 1)%N ∧
  (∀ id, (∃ h, mapping a !! h = Some id) ↔ ∃ k, (1 ≤ k ≤ n)%N ∧ id = surrogate k) ∧
  total_unique_patients (save_mapping_stats a now) = size (mapping a) ∧
  last_anonymous_id (save_mapping_stats a now) = surrogate n ∧
  sequence_number (last_anonymous_id (save_mapping_stats a now)) = n.
Proof.
  intros a n.
  destruct (consistent_resolve_all xs _ (consistent_new s)) as [Hrange Honto Hinj Hsize].
  fold a in Hrange, Honto, Hinj, Hsize. fold n in Hsize.
  assert (Hlast : last_anonymous_id (save_mapping_stats a now) = surrogate n).
  { unfold save_mapping_stats, format_06d. simpl.
    rewrite decide_False by lia. unfold surrogate. do 2 f_equal. lia. }
  split_and!; [lia | | done | done | by rewrite Hlast, sequence_number_surrogate].
  intros id. split.
  - intros [h Hh]. destruct (Hrange h id Hh) as (k & Hk & ->). exists k. split; [lia | done].
  - intros (k & Hk & ->). apply Honto. lia.
Qed.

End lifetime.

(** ** Digests and the salt store *)

Section salt.
Import PyStr.

Lemma hex_digit_is_hex d : (d < 16)%N → is_hex (SHA256.hex_digit d) = true.
Proof.
  intros Hd.
  assert (d = 0 ∨ d = 1 ∨ d = 2 ∨ d = 3 ∨ d = 4 ∨ d = 5 ∨ d = 6 ∨ d = 7 ∨ d = 8 ∨ d = 9
          ∨ d = 10 ∨ d = 11 ∨ d = 12 ∨ d = 13 ∨ d = 14 ∨ d = 15)%N as Hcases by lia.
  repeat (destruct Hcases as [->|Hcases]; [reflexivity |]). by subst.
Qed.

Lemma hex_of_bytes_is_hex bs :
  Forall (λ b, (b < 256)%N) bs → all_chars is_hex (SHA256.hex_of_bytes bs) = true.
Proof.
  induction 1 as [|b bs Hb _ IH]; [done |]. simpl.
  rewrite IH, !hex_digit_is_hex; [done | |].
  - change 15%N with (N.ones 4). rewrite N.land_ones. by apply N.mod_lt.
  - rewrite N.shiftr_div_pow2. change (2 ^ 4)%N with 16%N.
    apply N.Div0.div_lt_upper_bound. lia.
Qed.

Lemma hex_of_bytes_length bs :
  String.length (SHA256.hex_of_bytes bs) = (2 * length bs)%nat.
Proof. induction bs as [|b bs IH]; simpl; [done | rewrite IH; lia]. Qed.

Lemma is_hex_not_space c : is_hex c = true → isspace c = false.
Proof. destruct c as [[] [] [] [] [] [] [] []]; vm_compute; congruence. Qed.

(** Stripping leaves a text without white space as it is. *)
Lemma strip_no_space s : all_chars (λ c, negb (isspace c)) s = true → strip s = s.
Proof.
  intros Hs. unfold strip.
  assert (Hl : lstrip s = s).
  { destruct s as [|c s]; [done |]. simpl in *.
    apply andb_true_iff in Hs as [Hc _]. by destruct (isspace c). }
  rewrite Hl. induction s as [|c s IH]; [done |]. simpl in *.
  apply andb_true_iff in Hs as [Hc Hs].
  rewrite IH; [| done | by destruct s as [|d s]; [|simpl in *;
    apply andb_true_iff in Hs as [Hd _]; destruct (isspace d)]].
  destruct s; [by destruct (isspace c) | done].
Qed.

Lemma all_chars_impl (p q : ascii → bool) s :
  (∀ c, p c = true → q c = true) → all_chars p s = true → all_chars q s = true.
Proof.
  intros Hpq. induction s as [|c s IH]; [done |]. simpl.
  intros [Hc Hs]%andb_true_iff. by rewrite (Hpq c Hc), IH.
Qed.

Lemma strip_token_hex bs : Forall (λ b, (b < 256)%N) bs → strip (token_hex bs) = token_hex bs.
Proof.
  intros Hbs. apply strip_no_space.
  apply (all_chars_impl is_hex); [|by apply hex_of_bytes_is_hex].
  intros c Hc. by rewrite is_hex_not_space.
Qed.

(** The salt that the first construction creates and writes is the salt
    that every later construction reads back, so that a later lifetime
    gives an identifier the digest that the first one gave it; and a
    salt file that exists is read, stripped, and never written. *)
Theorem salt_round_trip files salt_file random_bytes :
  Forall (λ b, (b < 256)%N) random_bytes →
  (files !! salt_file = None →
   let first := PatientAnonymiser_init files salt_file random_bytes in
   first.2 = <[salt_file := token_hex random_bytes]> files ∧
   salt first.1 = token_hex random_bytes ∧
   ∀ random_bytes',
     let second := PatientAnonymiser_init first.2 salt_file random_bytes' in
     second.2 = first.2 ∧ salt second.1 = salt first.1 ∧
     ∀ x, _create_hash second.1 x = _create_hash first.1 x)
  ∧ (∀ content, files !! salt_file = Some content →
       PatientAnonymiser_init files salt_file random_bytes
       = (new_anonymiser (strip content), files)).
Proof.
  intros Hbytes. unfold PatientAnonymiser_init, _get_or_create_salt. split.
  - intros Hnone. rewrite Hnone. simpl. split_and!; [done..|].
    intros random_bytes'. rewrite lookup_insert_eq. simpl.
    rewrite strip_token_hex by done. split_and!; [done..|].
    intros x. unfold _create_hash. simpl. by rewrite ?strip_token_hex.
  - intros content Hsome. by rewrite Hsome.
Qed.

Lemma salt_round_trip_witness :
  Forall (λ b, (b < 256)%N) [0; 171; 255]%N ∧
  (∅ : gmap string string) !! "hashing_salt.txt" = None ∧
  let first := PatientAnonymiser_init ∅ "hashing_salt.txt" [0; 171; 255]%N in
  first.2 = <["hashing_salt.txt" := token_hex [0; 171; 255]%N]> ∅ ∧
  salt first.1 = token_hex [0; 171; 255]%N ∧
  ∀ random_bytes',
    let second := PatientAnonymiser_init first.2 "hashing_salt.txt" random_bytes' in
    second.2 = first.2 ∧ salt second.1 = salt first.1 ∧
    ∀ x, _create_hash second.1 x = _create_hash first.1 x.
Proof.
  assert (H : Forall (λ b, (b < 256)%N) [0; 171; 255]%N)
    by (repeat constructor; reflexivity).
  split; [exact H |]. split; [reflexivity |].
  exact (proj1 (salt_round_trip ∅ "hashing_salt.txt" [0; 171; 255]%N H) eq_refl).
Defined.

Lemma round_length st kw : length (SHA256.round st kw) = length st.
Proof. by do 9 (destruct st as [|? st]; [done |]). Qed.

Lemma compress_length h block : length (SHA256.compress h block) = length h.
Proof.
  unfold SHA256.compress. rewrite length_zip_with.
  assert (Hfold : ∀ l st, length (foldl SHA256.round st l) = length st).
  { induction l as [|kw l IH]; intros st; [done |]. simpl. by rewrite IH, round_length. }
  rewrite Hfold. lia.
Qed.

Lemma digest_length msg : length (SHA256.digest msg) = 8%nat.
Proof.
  unfold SHA256.digest.
  assert (Hfold : ∀ bl h, length (foldl SHA256.compress h bl) = length h).
  { induction bl as [|b bl IH]; intros h; [done |]. simpl. by rewrite IH, compress_length. }
  rewrite Hfold. by vm_compute.
Qed.

Lemma be_bytes_bound n x : Forall (λ b, (b < 256)%N) (SHA256.be_bytes n x).
Proof.
  induction n as [|n IH]; simpl; constructor; [|done].
  change 255%N with (N.ones 8). rewrite N.land_ones. by apply N.mod_lt.
Qed.

Lemma be_bytes_length n x : length (SHA256.be_bytes n x) = n.
Proof. induction n as [|n IH]; simpl; [done | by rewrite IH]. Qed.

(** A digest is a text of 64 lower-case hexadecimal digits, whatever the
    identifier and the salt. *)
Theorem digest_is_64_hex_digits self identifier :
  String.length (_create_hash self identifier) = 64%nat ∧
  all_chars is_hex (_create_hash self identifier) = true.
Proof.
  unfold _create_hash, SHA256.hexdigest.
  set (words := SHA256.digest _).
  assert (Hlen : length (mjoin (SHA256.be_bytes 4 <$> words)) = 32%nat).
  { pose proof (digest_length (SHA256.encode (normalise identifier +:+ salt self))) as Hw.
    fold words in Hw. clearbody words.
    do 9 (destruct words as [|? words]; [done |]). done. }
  split.
  - by rewrite hex_of_bytes_length, Hlen.
  - apply hex_of_bytes_is_hex. clear Hlen. clearbody words.
    induction words as [|w words IH]; [constructor |].
    rewrite fmap_cons. change (mjoin (?x :: ?l)) with (x ++ mjoin l).
    apply Forall_app. split; [apply be_bytes_bound | done].
Qed.

End salt.

(** ** The columns that anonymisation adds *)

Section anonymised_columns.
Local Abbreviation ID := "anonymous_patient_id".
Local Abbreviation HASH := "patient_id_hash".

Lemma create_hash_salt a b x : salt a = salt b → _create_hash a x = _create_hash b x.
Proof. intros Hs. unfold _create_hash. by rewrite Hs. Qed.

(** [series.apply(self.get_anonymous_id)] leaves the resolver that
    resolving the cells one after the other leaves, and gives each cell
    its digest and the surrogate ID that the resolver then holds for it. *)
Lemma apply_get_anonymous_id_spec series : ∀ self,
  (apply_get_anonymous_id self series).2 = resolve_all self series ∧
  ∀ i x, series !! i = Some x →
    ∃ id, (apply_get_anonymous_id self series).1 !! i = Some (id, _create_hash self x) ∧
          mapping (resolve_all self series) !! _create_hash self x = Some id.
Proof.
  induction series as [|x0 rest IH]; intros self; simpl.
  { split; [done |]. by intros i x [=]. }
  pose proof (get_anonymous_id_digest self x0) as Hd.
  pose proof (get_anonymous_id_recorded self x0) as Hrec.
  pose proof (get_anonymous_id_salt self x0) as Hsalt.
  destruct (get_anonymous_id self x0) as [[id0 h0] self1]. simpl in *.
  destruct (IH self1) as [Hstate Hcells].
  destruct (apply_get_anonymous_id self1 rest) as [rs self2]. simpl in *.
  split; [done |]. intros [|i] x Hx; simpl in *.
  - injection Hx as <-. exists id0. split; [by rewrite Hd |].
    by apply resolve_all_keeps.
  - destruct (Hcells i x Hx) as (id & Hi & Hm).
    rewrite (create_hash_salt self1 self) in Hi, Hm by done. eauto.
Qed.

(** The rows that [anonymise_dataframe] returns, position by position. *)
Lemma anonymise_dataframe_row self df identifier_column :
  identifier_column ∈ columns df →
  ∃ df', anonymise_dataframe self df identifier_column
         = (Ok df', resolve_all self (column df identifier_column)) ∧
    length (rows df') = length (rows df) ∧
    ∀ i r, rows df !! i = Some r →
      ∃ id, mapping (resolve_all self (column df identifier_column))
              !! _create_hash self (r !! identifier_column) = Some id ∧
            rows df' !! i
            = Some (delete identifier_column
                      (<[HASH := Str (_create_hash self (r !! identifier_column))]>
                         (<[ID := Str id]> r))).
Proof.
  intros Hin. unfold anonymise_dataframe. rewrite decide_True by done.
  destruct (apply_get_anonymous_id_spec (column df identifier_column) self)
    as [Hstate Hcells].
  pose proof (apply_get_anonymous_id_length (column df identifier_column) self) as Hlen.
  destruct (apply_get_anonymous_id self (column df identifier_column))
    as [results self']. simpl in *. subst self'.
  unfold column in Hlen. rewrite length_fmap in Hlen.
  eexists. split; [done |]. simpl. split.
  { rewrite length_fmap, !length_zip_with, !length_fmap. lia. }
  intros i r Hi.
  destruct (Hcells i (r !! identifier_column)) as (id & Hres & Hm).
  { unfold column. by rewrite list_lookup_fmap, Hi. }
  exists id. split; [done |].
  rewrite list_lookup_fmap, !lookup_zip_with, Hi, !list_lookup_fmap, Hres. done.
Qed.

(** In the table that [anonymise_dataframe] returns, the digest of a row
    is the digest of the identifier that the row had, and its surrogate
    ID is the one that the resolver holds for that digest after the
    call; the resolver after the call is the one that resolving the
    identifier column from top to bottom leaves. *)
Theorem anonymised_rows_carry_their_digest self df identifier_column :
  identifier_column ∈ columns df →
  identifier_column ≠ ID → identifier_column ≠ HASH →
  ∃ df', anonymise_dataframe self df identifier_column
         = (Ok df', resolve_all self (column df identifier_column)) ∧
    ∀ i r, rows df !! i = Some r →
      ∃ r' id, rows df' !! i = Some r' ∧
        r' !! HASH = Some (Str (_create_hash self (r !! identifier_column))) ∧
        r' !! ID = Some (Str id) ∧
        mapping (resolve_all self (column df identifier_column))
          !! _create_hash self (r !! identifier_column) = Some id.
Proof.
  intros Hin Hid Hhash.
  destruct (anonymise_dataframe_row self df identifier_column Hin)
    as (df' & Hok & _ & Hrows).
  exists df'. split; [done |]. intros i r Hi.
  destruct (Hrows i r Hi) as (id & Hm & Hrow).
  eexists _, id. split; [done |].
  rewrite !lookup_delete_ne by done.
  rewrite lookup_insert_eq, lookup_insert_ne, lookup_insert_eq by done. done.
Qed.

Lemma anonymised_rows_carry_their_digest_witness :
  ("hospital_number" ∈ columns file_A ∧ "hospital_number" ≠ ID ∧ "hospital_number" ≠ HASH) ∧
  ∃ df', anonymise_dataframe (new_anonymiser scenario_salt) file_A "hospital_number"
         = (Ok df', resolve_all (new_anonymiser scenario_salt)
                      (column file_A "hospital_number")) ∧
    ∀ i r, rows file_A !! i = Some r →
      ∃ r' id, rows df' !! i = Some r' ∧
        r' !! HASH = Some (Str (_create_hash (new_anonymiser scenario_salt)
                                  (r !! "hospital_number"))) ∧
        r' !! ID = Some (Str id) ∧
        mapping (resolve_all (new_anonymiser scenario_salt)
                   (column file_A "hospital_number"))
          !! _create_hash (new_anonymiser scenario_salt) (r !! "hospital_number") = Some id.
Proof.
  assert (H1 : "hospital_number" ∈ columns file_A) by by left.
  assert (H2 : "hospital_number" ≠ ID) by discriminate.
  assert (H3 : "hospital_number" ≠ HASH) by discriminate.
  split; [done |].
  exact (anonymised_rows_carry_their_digest _ file_A "hospital_number" H1 H2 H3).
Defined.

(** For a resolver that has only been used through [get_anonymous_id],
    two rows of the anonymised table have the same surrogate ID exactly
    when their identifiers have the same digest; rows whose identifiers
    are cosmetic variants of each other have the same surrogate ID. *)
Theorem anonymised_rows_are_consistent self df identifier_column :
  consistent self →
  identifier_column ∈ columns df →
  identifier_column ≠ ID → identifier_column ≠ HASH →
  ∃ df', (anonymise_dataframe self df identifier_column).1 = Ok df' ∧
    ∀ i j ri rj, rows df !! i = Some ri → rows df !! j = Some rj →
      ∃ ri' rj', rows df' !! i = Some ri' ∧ rows df' !! j = Some rj' ∧
        (ri' !! ID = rj' !! ID ↔
         _create_hash self (ri !! identifier_column)
         = _create_hash self (rj !! identifier_column)) ∧
        (∀ x y, ri !! identifier_column = Some (Str x) →
                rj !! identifier_column = Some (Str y) →
                cosmetic x y → ri' !! ID = rj' !! ID).
Proof.
  intros Hself Hin Hid Hhash.
  destruct (anonymise_dataframe_row self df identifier_column Hin)
    as (df' & Hok & _ & Hrows).
  exists df'. split; [by rewrite Hok |]. intros i j ri rj Hi Hj.
  destruct (Hrows i ri Hi) as (idi & Hmi & Hrowi).
  destruct (Hrows j rj Hj) as (idj & Hmj & Hrowj).
  eexists _, _. split; [done |]. split; [done |].
  rewrite !lookup_delete_ne by done.
  rewrite !(lookup_insert_ne _ HASH ID), !lookup_insert_eq by done.
  pose proof (consistent_resolve_all (column df identifier_column) self Hself) as Hfinal.
  assert (Hiff : Some (Str idi) = Some (Str idj) ↔
                 _create_hash self (ri !! identifier_column)
                 = _create_hash self (rj !! identifier_column)).
  { split.
    - intros [= ->]. exact (consistent_inj _ Hfinal _ _ _ Hmi Hmj).
    - intros Heq. rewrite Heq in Hmi. congruence. }
  split; [done |]. intros x y Hx Hy Hxy. apply Hiff.
  rewrite Hx, Hy. by apply create_hash_cosmetic.
Qed.

Lemma anonymised_rows_are_consistent_witness :
  (consistent (new_anonymiser scenario_salt) ∧
   "hospital_number" ∈ columns file_A ∧ "hospital_number" ≠ ID ∧ "hospital_number" ≠ HASH) ∧
  ∃ df', (anonymise_dataframe (new_anonymiser scenario_salt) file_A "hospital_number").1
         = Ok df' ∧
    ∀ i j ri rj, rows file_A !! i = Some ri → rows file_A !! j = Some rj →
      ∃ ri' rj', rows df' !! i = Some ri' ∧ rows df' !! j = Some rj' ∧
        (ri' !! ID = rj' !! ID ↔
         _create_hash (new_anonymiser scenario_salt) (ri !! "hospital_number")
         = _create_hash (new_anonymiser scenario_salt) (rj !! "hospital_number")) ∧
        (∀ x y, ri !! "hospital_number" = Some (Str x) →
                rj !! "hospital_number" = Some (Str y) →
                cosmetic x y → ri' !! ID = rj' !! ID).
Proof.
  assert (H1 : "hospital_number" ∈ columns file_A) by by left.
  assert (H2 : "hospital_number" ≠ ID) by discriminate.
  assert (H3 : "hospital_number" ≠ HASH) by discriminate.
  split; [by split; [apply consistent_new |] |].
  exact (anonymised_rows_are_consistent _ file_A "hospital_number"
           (consistent_new scenario_salt) H1 H2 H3).
Defined.

(** Anonymisation keeps the rest of the table: every column other than
    the identifier and the two columns it writes has the cells it had,
    row by row, and the columns that were there keep their order. *)
Theorem anonymise_dataframe_keeps_other_columns self df identifier_column :
  identifier_column ∈ columns df →
  ∃ df', (anonymise_dataframe self df identifier_column).1 = Ok df' ∧
    (∀ c, c ≠ identifier_column → c ≠ ID → c ≠ HASH → column df' c = column df c) ∧
    filter (λ c, c ∉ [ID; HASH]) (columns df')
    = filter (λ c, c ∉ [identifier_column; ID; HASH]) (columns df).
Proof.
  intros Hin.
  destruct (anonymise_dataframe_row self df identifier_column Hin)
    as (df' & Hok & Hlen & Hrows).
  exists df'. split; [by rewrite Hok |]. split.
  - intros c Hc Hcid Hchash. apply list_eq. intros i. unfold column.
    rewrite !list_lookup_fmap.
    destruct (rows df !! i) as [r|] eqn:Hi.
    + destruct (Hrows i r Hi) as (id & _ & ->). simpl.
      by rewrite lookup_delete_ne, !lookup_insert_ne by done.
    + apply lookup_ge_None in Hi. rewrite <- Hlen in Hi.
      apply lookup_ge_None in Hi. by rewrite Hi.
  - unfold anonymise_dataframe in Hok. rewrite decide_True in Hok by done.
    destruct (apply_get_anonymous_id self (column df identifier_column)) as [rs a].
    injection Hok as <- _. simpl.
    rewrite list_filter_filter.
    rewrite (list_filter_iff _ (λ c, c ∉ [identifier_column; ID; HASH]))
      by (intros c; rewrite !elem_of_cons, !elem_of_nil; tauto).
    assert (Hadd : ∀ (l : list string) c, c ∈ [ID; HASH] →
              filter (λ c, c ∉ [identifier_column; ID; HASH]) (l ++ [c])
              = filter (λ c, c ∉ [identifier_column; ID; HASH]) l).
    { intros l c Hc. rewrite filter_app, filter_cons_False, filter_nil, app_nil_r; [done |].
      intros Hnot. apply Hnot. by right. }
    repeat case_decide; rewrite ?Hadd; try done; rewrite !elem_of_cons; auto.
Qed.

Lemma anonymise_dataframe_keeps_other_columns_witness :
  "hospital_number" ∈ columns file_A ∧
  ∃ df', (anonymise_dataframe (new_anonymiser scenario_salt) file_A "hospital_number").1
         = Ok df' ∧
    (∀ c, c ≠ "hospital_number" → c ≠ ID → c ≠ HASH → column df' c = column file_A c) ∧
    filter (λ c, c ∉ [ID; HASH]) (columns df')
    = filter (λ c, c ∉ ["hospital_number"; ID; HASH]) (columns file_A).
Proof.
  assert (H1 : "hospital_number" ∈ columns file_A) by by left.
  split; [done |].
  exact (anonymise_dataframe_keeps_other_columns _ file_A "hospital_number" H1).
Defined.

End anonymised_columns.

(** ** More on the merge *)

Section merge_more.
Local Abbreviation ID := "anonymous_patient_id".
Implicit Types (r : gmap string value) (M B : DataFrame) (pid : option value).

Lemma column_imap_merge_row M B :
  (λ r, r !! ID) <$> imap (merge_row M B) (rows M) = column M ID.
Proof.
  apply list_eq. intros i. unfold column.
  rewrite !list_lookup_fmap, list_lookup_imap.
  destruct (rows M !! i) as [r|]; [|done]. simpl. by rewrite merge_row_id.
Qed.

Lemma column_merged M B merge_strategy :
  column (merged M B merge_strategy) ID
  = column M ID ++ filter (λ pid, pid ∉ column M ID) (column B ID).
Proof.
  unfold column at 1. simpl. rewrite fmap_app. f_equal.
  - case_decide; [apply column_imap_merge_row | done].
  - unfold column. generalize (rows B). intros l.
    induction l as [|r l IH]; [done |].
    rewrite fmap_cons, !filter_cons. case_decide; [rewrite fmap_cons|]; by rewrite IH.
Qed.

(** After a merge the surrogate IDs of the registry are those of the
    master and those of the batch: none is lost, and none appears that
    neither had. *)
Theorem merged_ids_are_union M B merge_strategy :
  ID ∈ columns M → has_ids B →
  ∃ R, merge_with_master (Some M) B merge_strategy = (Ok R, Some R) ∧
    ∀ pid, pid ∈ column R ID ↔ pid ∈ column M ID ∨ pid ∈ column B ID.
Proof.
  intros HM HB. eexists. split; [by apply merge_with_master_spec |].
  intros pid. rewrite column_merged, elem_of_app, list_elem_of_filter.
  destruct (decide (pid ∈ column M ID)); tauto.
Qed.

Lemma merged_ids_are_union_witness :
  (ID ∈ columns example_master ∧ has_ids example_batch) ∧
  ∃ R, merge_with_master (Some example_master) example_batch "append" = (Ok R, Some R) ∧
    ∀ pid, pid ∈ column R ID ↔ pid ∈ column example_master ID ∨ pid ∈ column example_batch ID.
Proof.
  assert (H1 : ID ∈ columns example_master) by by left.
  split; [exact (conj H1 example_batch_has_ids) |].
  exact (merged_ids_are_union example_master example_batch "append" H1 example_batch_has_ids).
Defined.

(** Under any strategy other than [update] no row of the master is
    touched, whether its surrogate ID is in the batch or not, and the
    rows of the batch that are added, in their order, are those whose
    surrogate ID the master does not have: the rows of the batch for
    known IDs are left out. *)
Theorem append_adds_only_new_ids M B merge_strategy :
  merge_strategy ≠ "update" → ID ∈ columns M → ID ∈ columns B →
  ∃ R, merge_with_master (Some M) B merge_strategy = (Ok R, Some R) ∧
    rows R = rows M ++ filter (λ r, r !! ID ∉ column M ID) (rows B) ∧
    (∀ i r, rows M !! i = Some r → rows R !! i = Some r).
Proof.
  intros Hs HM HB. unfold merge_with_master, getitem.
  rewrite !decide_True by done. rewrite (decide_False (P := merge_strategy = _)) by done.
  eexists. split; [done |]. simpl.
  assert (Hrows : filter (λ r, r !! ID ∈ filter (λ x, x ∉ to_set (column M ID))
                                          (to_set (column B ID))) (rows B)
                  = filter (λ r, r !! ID ∉ column M ID) (rows B)).
  { apply filter_ext_elem. intros r Hr. unfold to_set.
    rewrite list_elem_of_filter, !elem_of_remove_dups.
    pose proof (elem_of_column B ID r Hr). tauto. }
  rewrite Hrows. split; [done |].
  intros i r Hi. by apply lookup_app_l_Some.
Qed.

Lemma append_adds_only_new_ids_witness :
  ("append" ≠ "update" ∧ ID ∈ columns example_master ∧ ID ∈ columns example_batch) ∧
  ∃ R, merge_with_master (Some example_master) example_batch "append" = (Ok R, Some R) ∧
    rows R = rows example_master
             ++ filter (λ r, r !! ID ∉ column example_master ID) (rows example_batch) ∧
    (∀ i r, rows example_master !! i = Some r → rows R !! i = Some r).
Proof.
  assert (H0 : "append" ≠ "update") by discriminate.
  assert (H1 : ID ∈ columns example_master) by by left.
  assert (H2 : ID ∈ columns example_batch) by by left.
  split; [done |].
  exact (append_adds_only_new_ids example_master example_batch "append" H0 H1 H2).
Defined.

(** Under [update] only the first row of a surrogate ID is written: a
    row of the master that comes after another row with its ID (a later
    admission of the same patient) is left as it was. *)
Theorem update_leaves_later_admissions M B :
  ID ∈ columns M → has_ids B →
  ∃ R, merge_with_master (Some M) B "update" = (Ok R, Some R) ∧
    ∀ i j r r', rows M !! i = Some r → rows M !! j = Some r' → (j < i)%nat →
                r' !! ID = r !! ID → rows R !! i = Some r.
Proof.
  intros HM HB. eexists. split; [by apply merge_with_master_spec |].
  intros i j r r' Hi Hj Hlt Heq. simpl. apply lookup_app_l_Some.
  rewrite list_lookup_imap, Hi. simpl. f_equal.
  apply merge_row_not_first.
  destruct (first_match M (r !! ID)) as [[k r0]|] eqn:Hfirst; [|done].
  simpl. intros [= ->].
  apply first_match_Some in Hfirst as (_ & _ & _ & Hleast).
  by apply (Hleast j r' Hj Hlt).
Qed.

Lemma update_leaves_later_admissions_witness :
  (ID ∈ columns example_master ∧ has_ids example_batch) ∧
  ∃ R, merge_with_master (Some example_master) example_batch "update" = (Ok R, Some R) ∧
    ∀ i j r r', rows example_master !! i = Some r → rows example_master !! j = Some r' →
                (j < i)%nat → r' !! ID = r !! ID → rows R !! i = Some r.
Proof.
  assert (H1 : ID ∈ columns example_master) by by left.
  split; [exact (conj H1 example_batch_has_ids) |].
  exact (update_leaves_later_admissions example_master example_batch H1 example_batch_has_ids).
Defined.

Lemma has_ids_merged M B merge_strategy :
  has_ids M → has_ids B → has_ids (merged M B merge_strategy).
Proof.
  intros [HM HMrows] HB.
  split; [simpl; rewrite elem_of_app; by left |].
  intros r Hr.
  assert (Hin : r !! ID ∈ column (merged M B merge_strategy) ID)
    by by apply elem_of_column.
  rewrite column_merged, elem_of_app, list_elem_of_filter in Hin.
  destruct Hin as [Hin|[_ Hin]];
    apply list_elem_of_fmap in Hin as (r0 & -> & Hr0).
  - by apply HMrows.
  - by apply HB.
Qed.

(** A merge keeps the registry well formed: when every row of the master
    and of the batch has a surrogate ID, so has every row of the result;
    and the columns of the master stay, in their order, in front of the
    columns that the batch brings. *)
Theorem merge_keeps_ids M B merge_strategy :
  has_ids M → has_ids B →
  ∃ R, merge_with_master (Some M) B merge_strategy = (Ok R, Some R) ∧
    has_ids R ∧ columns M `prefix_of` columns R ∧
    (∀ c, c ∈ columns R ↔ c ∈ columns M ∨ c ∈ columns B).
Proof.
  intros HM HB. eexists.
  split; [apply merge_with_master_spec; [apply HM | done] |].
  split_and!.
  - by apply has_ids_merged.
  - by eexists.
  - intros c. simpl. rewrite elem_of_app, list_elem_of_filter.
    destruct (decide (c ∈ columns M)); tauto.
Qed.

Lemma example_master_has_ids : has_ids example_master.
Proof.
  split; [by left |]. intros r Hr. simpl in Hr.
  repeat (apply elem_of_cons in Hr as [->|Hr]); [by vm_compute; eauto..|].
  by apply elem_of_nil in Hr.
Qed.

Lemma merge_keeps_ids_witness :
  (has_ids example_master ∧ has_ids example_batch) ∧
  ∃ R, merge_with_master (Some example_master) example_batch "update" = (Ok R, Some R) ∧
    has_ids R ∧ columns example_master `prefix_of` columns R ∧
    (∀ c, c ∈ columns R ↔ c ∈ columns example_master ∨ c ∈ columns example_batch).
Proof.
  split; [exact (conj example_master_has_ids example_batch_has_ids) |].
  exact (merge_keeps_ids example_master example_batch "update"
           example_master_has_ids example_batch_has_ids).
Defined.

End merge_more.

(** ** The pipeline, one file at a time *)

Section pipeline.
Local Abbreviation ID := "anonymous_patient_id".
Local Abbreviation HASH := "patient_id_hash".
Implicit Types (r : gmap string value) (df M R : DataFrame) (self : ICUDataProcessor).

Lemma load_data_file_cases env self filepath identifier_column :
  (∃ df, path_exists env filepath = true ∧ read_table env filepath = Ok df ∧
         identifier_column ∈ columns df ∧
         load_data_file env self filepath identifier_column
         = (Ok df, {| anonymiser := anonymiser self;
                      master_registry := master_registry self;
                      processing_log := processing_log self ++
                        [log_entry env filepath df identifier_column] |})) ∨
  ((path_exists env filepath = false ∨
    (∃ e, read_table env filepath = Raise e) ∨
    (∃ df, read_table env filepath = Ok df ∧ identifier_column ∉ columns df)) ∧
   ∃ e, load_data_file env self filepath identifier_column = (Raise e, self)).
Proof.
  unfold load_data_file.
  destruct (path_exists env filepath); simpl; [|right; eauto].
  destruct (read_table env filepath) as [df|e]; [|right; split; eauto].
  case_decide.
  - left. exists df. done.
  - right. split; [|eauto]. right. right. by exists df.
Qed.

Lemma process_file_loaded env self filepath identifier_column column_mapping
    date_columns merge_strategy df :
  path_exists env filepath = true → read_table env filepath = Ok df →
  identifier_column ∈ columns df →
  process_file env self filepath identifier_column column_mapping date_columns merge_strategy
  = let log := processing_log self ++ [log_entry env filepath df identifier_column] in
    match anonymise_dataframe (anonymiser self)
            (prepared env df column_mapping date_columns) identifier_column with
    | (Raise e, a) =>
        (Raise e, {| anonymiser := a; master_registry := master_registry self;
                     processing_log := log |})
    | (Ok df', a) =>
        match validate_data env df' with
        | Raise e =>
            (Raise e, {| anonymiser := a; master_registry := master_registry self;
                         processing_log := log |})
        | Ok (df'', _) =>
            ((merge_with_master (master_registry self) df'' merge_strategy).1,
             {| anonymiser := a;
                master_registry :=
                  (merge_with_master (master_registry self) df'' merge_strategy).2;
                processing_log := log |})
        end
    end.
Proof.
  intros Hex Hread Hin. unfold process_file, load_data_file, prepared.
  rewrite Hex, Hread. simpl. rewrite decide_True by done. simpl.
  destruct (anonymise_dataframe _ _ _) as [[df'|e] a]; [|done].
  destruct (validate_data env df') as [[df'' issues]|e]; [|done].
  simpl. by destruct (merge_with_master _ _ _).
Qed.

Lemma process_file_not_loaded env self filepath identifier_column column_mapping
    date_columns merge_strategy e :
  load_data_file env self filepath identifier_column = (Raise e, self) →
  process_file env self filepath identifier_column column_mapping date_columns merge_strategy
  = (Raise e, self).
Proof. intros H. unfold process_file. by rewrite H. Qed.

(** [validate_data] hands the table back as it got it. *)
Lemma validate_data_table env df df' issues :
  validate_data env df = Ok (df', issues) → df' = df.
Proof.
  unfold validate_data. intros H.
  repeat (case_decide || case_bool_decide || simplify_eq/= ||
          match type of H with
          | context [series_lt ?e ?a ?b] => destruct (series_lt e a b); simpl in H
          end); done.
Qed.

Lemma series_lt_returns env {A} (f g : A → option value) (l : list A) :
  (∀ x, x ∈ l → ∃ b, cell_lt env (f x) (g x) = Ok b) →
  ∃ flags, series_lt env (f <$> l) (g <$> l) = Ok flags.
Proof.
  induction l as [|x l IH]; intros H; [by exists [] |].
  destruct (H x) as [b Hb]; [by left |].
  destruct IH as [flags Hflags]; [intros y Hy; apply H; by right |].
  exists (b :: flags). rewrite !fmap_cons. cbn [series_lt]. by rewrite Hb, Hflags.
Qed.

Lemma validate_data_returns env df :
  ("admission_datetime" ∈ columns df → "discharge_datetime" ∈ columns df →
   ∀ r, r ∈ rows df →
     ∃ b, cell_lt env (r !! "discharge_datetime") (r !! "admission_datetime") = Ok b) →
  ∃ issues, validate_data env df = Ok (df, issues).
Proof.
  intros H. unfold validate_data.
  destruct (decide ("admission_datetime" ∈ columns df ∧ "discharge_datetime" ∈ columns df))
    as [[Ha Hd]|Hno]; simpl.
  - destruct (series_lt_returns env (λ r, r !! "discharge_datetime")
                (λ r, r !! "admission_datetime") (rows df) (H Ha Hd)) as [flags Hflags].
    unfold column. rewrite Hflags. simpl.
    destruct (decide (0 < length (filter (λ b : bool, b = true) flags))); by eexists.
  - by eexists.
Qed.

Lemma length_rows_setitem df c (f : option value → option value) src :
  length (rows (setitem df c (f <$> column df src))) = length (rows df).
Proof. simpl. unfold column. rewrite length_zip_with, !length_fmap. lia. Qed.

Lemma parse_dates_shape env date_columns : ∀ df,
  columns (parse_dates env df date_columns) = columns df ∧
  length (rows (parse_dates env df date_columns)) = length (rows df).
Proof.
  unfold parse_dates.
  induction date_columns as [|[col dtype] rest IH]; intros df; [done |].
  cbn [foldl]. destruct (IH (if decide (col ∈ columns df) then
             if decide (dtype = "date") then
               setitem df col (dt_date env <$> (to_datetime env <$> column df col))
             else if decide (dtype = "datetime") then
               setitem df col (to_datetime env <$> column df col)
             else df
           else df)) as [-> ->].
  repeat case_decide; try done.
  - split; [simpl; by rewrite decide_True |].
    rewrite <- list_fmap_compose. apply length_rows_setitem.
  - split; [simpl; by rewrite decide_True |]. apply length_rows_setitem.
Qed.

Lemma prepared_length env df column_mapping date_columns :
  length (rows (prepared env df column_mapping date_columns)) = length (rows df).
Proof.
  unfold prepared.
  assert (H : ∀ df', length (rows (match date_columns with
                                   | Some (d :: ds) => parse_dates env df' (d :: ds)
                                   | _ => df'
                                   end)) = length (rows df')).
  { intros df'. destruct date_columns as [[|d ds]|]; try done.
    apply parse_dates_shape. }
  rewrite H. destruct column_mapping as [m|]; [|done].
  case_decide; [done |]. simpl. by rewrite length_fmap.
Qed.

(** The anonymiser and the registry that a call of [process_file]
    leaves, in the four ways in which the call can end. *)
Lemma process_file_cases env self filepath identifier_column column_mapping
    date_columns merge_strategy :
  let out := process_file env self filepath identifier_column column_mapping
               date_columns merge_strategy in
  (∃ e, out = (Raise e, self)) ∨
  ∃ df, path_exists env filepath = true ∧ read_table env filepath = Ok df ∧
        identifier_column ∈ columns df ∧
        processing_log out.2
        = processing_log self ++ [log_entry env filepath df identifier_column] ∧
    let dfp := prepared env df column_mapping date_columns in
    (((identifier_column ∉ columns dfp) ∧ out.1 = Raise ValueError ∧
      anonymiser out.2 = anonymiser self ∧ master_registry out.2 = master_registry self) ∨
     (identifier_column ∈ columns dfp ∧
      anonymiser out.2 = resolve_all (anonymiser self) (column dfp identifier_column) ∧
      ∃ df', (anonymise_dataframe (anonymiser self) dfp identifier_column).1 = Ok df' ∧
        length (rows df') = length (rows df) ∧
        (((∃ e, validate_data env df' = Raise e ∧ out.1 = Raise e) ∧
          master_registry out.2 = master_registry self) ∨
         ((∃ issues, validate_data env df' = Ok (df', issues)) ∧
          out.1 = (merge_with_master (master_registry self) df' merge_strategy).1 ∧
          master_registry out.2
          = (merge_with_master (master_registry self) df' merge_strategy).2)))).
Proof.
  intros out.
  destruct (load_data_file_cases env self filepath identifier_column)
    as [(df & Hex & Hread & Hin & _)|[_ [e He]]].
  2:{ left. exists e. by apply process_file_not_loaded. }
  right. exists df. split_and!; try done.
  - subst out. rewrite (process_file_loaded _ _ _ _ _ _ _ df) by done. cbn zeta.
    destruct (anonymise_dataframe _ _ _) as [[df'|e] a]; [|done].
    destruct (validate_data env df') as [[df'' issues]|e]; done.
  - intros dfp. subst out.
    rewrite (process_file_loaded _ _ _ _ _ _ _ df) by done. cbn zeta. fold dfp.
    destruct (decide (identifier_column ∈ columns dfp)) as [Hp|Hp].
    + right. split; [done |].
      destruct (anonymise_dataframe_row (anonymiser self) dfp identifier_column Hp)
        as (df' & -> & Hlen & _).
      split.
      { by destruct (validate_data env df') as [[df'' issues]|e]. }
      exists df'. split; [done |]. split.
      { rewrite Hlen. apply prepared_length. }
      destruct (validate_data env df') as [[df'' issues]|e] eqn:Hv.
      * apply validate_data_table in Hv as Heq. subst df''. right. eauto.
      * left. eauto.
    + left. rewrite anonymise_dataframe_missing_column by done. done.
Qed.

(** The identifier column is looked for in the file as it is read,
    before any renaming: when the file has no column of that name the
    call raises [ValueError] and changes nothing, even if the column
    mapping renames one of its columns to that name. *)
Theorem identifier_is_checked_before_renaming env self filepath identifier_column
    column_mapping date_columns merge_strategy df :
  path_exists env filepath = true → read_table env filepath = Ok df →
  identifier_column ∉ columns df →
  process_file env self filepath identifier_column column_mapping date_columns merge_strategy
  = (Raise ValueError, self).
Proof.
  intros Hex Hread Hnot. unfold process_file, load_data_file.
  rewrite Hex, Hread. simpl. by rewrite decide_False.
Qed.

Lemma identifier_is_checked_before_renaming_witness :
  (path_exists scenario_env "a.csv" = true ∧ read_table scenario_env "a.csv" = Ok file_A ∧
   "patient" ∉ columns file_A) ∧
  process_file scenario_env (new_processor scenario_salt) "a.csv" "patient"
    (Some {[ "hospital_number" := "patient" ]}) None "update"
  = (Raise ValueError, new_processor scenario_salt).
Proof.
  assert (H1 : path_exists scenario_env "a.csv" = true) by reflexivity.
  assert (H2 : read_table scenario_env "a.csv" = Ok file_A) by reflexivity.
  assert (H3 : "patient" ∉ columns file_A).
  { simpl. rewrite !elem_of_cons, elem_of_nil. intros [?|[?|[]]]; discriminate. }
  split; [done |].
  exact (identifier_is_checked_before_renaming scenario_env (new_processor scenario_salt)
           "a.csv" "patient" (Some {[ "hospital_number" := "patient" ]}) None "update"
           file_A H1 H2 H3).
Defined.

(** The processing log gains one entry, with the number of rows read,
    exactly when the file exists, is read and has the identifier
    column; the entry stays when a later step of the same call raises. *)
Theorem process_file_log env self filepath identifier_column column_mapping
    date_columns merge_strategy :
  processing_log (process_file env self filepath identifier_column column_mapping
                    date_columns merge_strategy).2
  = processing_log self ++
    match read_table env filepath with
    | Ok df =>
        if path_exists env filepath && bool_decide (identifier_column ∈ columns df)
        then [log_entry env filepath df identifier_column] else []
    | Raise _ => []
    end.
Proof.
  destruct (process_file_cases env self filepath identifier_column column_mapping
              date_columns merge_strategy)
    as [[e He]|(df & Hex & Hread & Hin & Hlog & _)].
  - rewrite He. simpl.
    unfold process_file, load_data_file in He.
    destruct (path_exists env filepath); simpl in *;
      [|destruct (read_table env filepath); by rewrite app_nil_r].
    destruct (read_table env filepath) as [df|e']; [|by rewrite app_nil_r].
    rewrite bool_decide_decide. case_decide; [|by rewrite app_nil_r].
    exfalso. simpl in He.
    destruct (anonymise_dataframe _ _ _) as [[df'|e1] a]; [|injection He as _ He].
    2:{ apply (f_equal (length ∘ processing_log)) in He. simpl in He.
        rewrite length_app in He. simpl in He. lia. }
    destruct (validate_data env df') as [[df'' issues]|e1]; simpl in He.
    + destruct (merge_with_master _ _ _). injection He as _ He.
      apply (f_equal (length ∘ processing_log)) in He. simpl in He.
      rewrite length_app in He. simpl in He. lia.
    + injection He as _ He.
      apply (f_equal (length ∘ processing_log)) in He. simpl in He.
      rewrite length_app in He. simpl in He. lia.
  - rewrite Hlog, Hread, Hex, bool_decide_true by done. done.
Qed.

(** Every call of [process_file] keeps the registry well formed,
    whether it returns or raises: if every row of the registry had a
    surrogate ID before, so has every row of the registry after. The
    identifier column must not itself be called [anonymous_patient_id]. *)
Theorem process_file_keeps_registry_well_formed env self filepath identifier_column
    column_mapping date_columns merge_strategy :
  identifier_column ≠ ID →
  (∀ M, master_registry self = Some M → has_ids M) →
  ∀ R, master_registry (process_file env self filepath identifier_column column_mapping
                          date_columns merge_strategy).2 = Some R →
       has_ids R.
Proof.
  intros Hne Hself R.
  destruct (process_file_cases env self filepath identifier_column column_mapping
              date_columns merge_strategy)
    as [[e ->]|(df & _ & _ & _ & _ & Hcases)]; [by apply Hself |].
  cbn zeta in Hcases.
  destruct Hcases as [(_ & _ & _ & ->)|(Hp & _ & df' & Hanon & _ & Hv)]; [by apply Hself |].
  destruct Hv as [[_ ->]|(_ & _ & ->)]; [by apply Hself |].
  assert (Hids : has_ids df').
  { apply (anonymise_dataframe_has_ids _ _ _ _ Hanon).
    destruct (anonymise_dataframe_rows (anonymiser self) _ identifier_column Hp)
      as (df'' & Hok & Hcols & _).
    rewrite Hanon in Hok. injection Hok as <-. apply Hcols. split; [done |]. auto. }
  destruct (master_registry self) as [M|] eqn:HM.
  - rewrite merge_with_master_spec; [|by apply Hself|done].
    simpl. intros [= <-]. apply has_ids_merged; [by apply Hself | done].
  - simpl. by intros [= <-].
Qed.

Lemma process_file_keeps_registry_well_formed_witness :
  ("hospital_number" ≠ ID ∧
   ∀ M, master_registry (new_processor scenario_salt) = Some M → has_ids M) ∧
  ∀ R, master_registry (process_file scenario_env (new_processor scenario_salt)
                          "a.csv" "hospital_number" None None "update").2 = Some R →
       has_ids R.
Proof.
  assert (H1 : "hospital_number" ≠ ID) by discriminate.
  assert (H2 : ∀ M, master_registry (new_processor scenario_salt) = Some M → has_ids M)
    by (intros M; discriminate).
  split; [done |].
  exact (process_file_keeps_registry_well_formed scenario_env (new_processor scenario_salt)
           "a.csv" "hospital_number" None None "update" H1 H2).
Defined.

Lemma process_file_anonymiser env self filepath identifier_column column_mapping
    date_columns merge_strategy :
  ∃ xs, anonymiser (process_file env self filepath identifier_column column_mapping
                      date_columns merge_strategy).2
        = resolve_all (anonymiser self) xs.
Proof.
  destruct (process_file_cases env self filepath identifier_column column_mapping
              date_columns merge_strategy)
    as [[e ->]|(df & _ & _ & _ & _ & Hcases)]; [by exists [] |].
  cbn zeta in Hcases.
  destruct Hcases as [(_ & _ & -> & _)|(_ & -> & _)]; [by exists [] | eauto].
Qed.

(** The resolver lives through every call of [process_file], returning
    or raising: the salt is the same, every digest that had a surrogate
    ID keeps it, and the table stays a gapless one-to-one numbering. *)
Theorem process_file_keeps_resolver env self filepath identifier_column column_mapping
    date_columns merge_strategy :
  consistent (anonymiser self) →
  let a := anonymiser (process_file env self filepath identifier_column column_mapping
                         date_columns merge_strategy).2 in
  salt a = salt (anonymiser self) ∧
  (∀ h id, mapping (anonymiser self) !! h = Some id → mapping a !! h = Some id) ∧
  consistent a.
Proof.
  intros Hc a.
  destruct (process_file_anonymiser env self filepath identifier_column column_mapping
              date_columns merge_strategy) as [xs Hxs].
  subst a. rewrite Hxs. split_and!.
  - apply resolve_all_salt.
  - intros h id. apply resolve_all_keeps.
  - by apply consistent_resolve_all.
Qed.

Lemma process_file_keeps_resolver_witness :
  consistent (anonymiser (new_processor scenario_salt)) ∧
  let a := anonymiser (process_file scenario_env (new_processor scenario_salt)
                         "a.csv" "hospital_number" None None "update").2 in
  salt a = salt (anonymiser (new_processor scenario_salt)) ∧
  (∀ h id, mapping (anonymiser (new_processor scenario_salt)) !! h = Some id →
           mapping a !! h = Some id) ∧
  consistent a.
Proof.
  split; [exact consistent_scenario |].
  exact (process_file_keeps_resolver scenario_env (new_processor scenario_salt)
           "a.csv" "hospital_number" None None "update" consistent_scenario).
Defined.

(** When the file is read and has the identifier column, before and
    after a renaming that gives no label to two of its columns, when
    discharge and admission can be compared in each of its rows, and
    when the registry, if there is one, has the surrogate ID column,
    [process_file] returns: the registry it
    returns is the one it stores, the resolver has resolved the
    identifier column from top to bottom, and the log has its entry.
    The first file gives a registry with one row for each of its rows;
    a later file never makes the registry shorter, and adds at most as
    many rows as it has. Issues found by the validation do not stop
    the file. *)
Theorem process_file_returns env self filepath identifier_column column_mapping
    date_columns merge_strategy df :
  identifier_column ≠ ID →
  (∀ M, master_registry self = Some M → ID ∈ columns M) →
  path_exists env filepath = true → read_table env filepath = Ok df →
  identifier_column ∈ columns df →
  renames_apart df column_mapping →
  identifier_column ∈ columns (prepared env df column_mapping date_columns) →
  (∀ r, r ∈ rows (prepared env df column_mapping date_columns) →
        ∃ b, cell_lt env (r !! "discharge_datetime") (r !! "admission_datetime") = Ok b) →
  ∃ R, process_file env self filepath identifier_column column_mapping date_columns
         merge_strategy
       = (Ok R,
          {| anonymiser :=
               resolve_all (anonymiser self)
                 (column (prepared env df column_mapping date_columns) identifier_column);
             master_registry := Some R;
             processing_log :=
               processing_log self ++ [log_entry env filepath df identifier_column] |}) ∧
    (master_registry self = None → length (rows R) = length (rows df)) ∧
    (∀ M, master_registry self = Some M →
          (length (rows M) ≤ length (rows R) ≤ length (rows M) + length (rows df))%nat).
Proof.
  intros Hne Hreg Hex Hread Hin _ Hp Hcmp.
  rewrite (process_file_loaded _ _ _ _ _ _ _ df) by done. cbn zeta.
  set (dfp := prepared env df column_mapping date_columns) in *.
  destruct (anonymise_dataframe_row (anonymiser self) dfp identifier_column Hp)
    as (df' & Hanon & Hlen & _).
  destruct (anonymise_dataframe_rows (anonymiser self) dfp identifier_column Hp)
    as (df'' & Hok & Hcols & _ & Hrows).
  rewrite Hanon in Hok |- *. injection Hok as <-.
  assert (Hids : has_ids df').
  { apply (anonymise_dataframe_has_ids (anonymiser self) dfp identifier_column).
    - by rewrite Hanon.
    - apply Hcols. split; [done |]. auto. }
  destruct (validate_data_returns env df') as [issues ->].
  { intros Ha Hd r Hr.
    apply Hcols in Ha as [Ha _]. apply Hcols in Hd as [Hd _].
    destruct (Hrows r Hr) as (r0 & a & h & Hr0 & ->).
    rewrite !lookup_delete_ne, !lookup_insert_ne by done.
    by apply Hcmp. }
  destruct (master_registry self) as [M|] eqn:HM.
  - rewrite merge_with_master_spec; [|by apply Hreg|done].
    eexists. split; [done |]. split; [done |].
    intros ? [= <-]. simpl. rewrite length_app.
    pose proof (length_filter (λ r, r !! ID ∉ column M ID) (rows df')) as Hf.
    rewrite Hlen in Hf. unfold dfp in Hf. rewrite prepared_length in Hf.
    case_decide; rewrite ?length_imap; lia.
  - simpl. exists df'. split; [done |]. split; [|done].
    intros _. rewrite Hlen. apply prepared_length.
Qed.

Lemma process_file_returns_witness :
  ("hospital_number" ≠ ID ∧
   (∀ M, master_registry (new_processor scenario_salt) = Some M → ID ∈ columns M) ∧
   path_exists resubmission_env "a.csv" = true ∧
   read_table resubmission_env "a.csv" = Ok file_A ∧
   "hospital_number" ∈ columns file_A ∧
   renames_apart file_A (Some {[ "icu_unit" := "unit" ]}) ∧
   "hospital_number"
   ∈ columns (prepared resubmission_env file_A (Some {[ "icu_unit" := "unit" ]}) None) ∧
   (∀ r, r ∈ rows (prepared resubmission_env file_A (Some {[ "icu_unit" := "unit" ]}) None) →
         ∃ b, cell_lt resubmission_env (r !! "discharge_datetime")
                (r !! "admission_datetime") = Ok b)) ∧
  ∃ R, process_file resubmission_env (new_processor scenario_salt) "a.csv" "hospital_number"
         (Some {[ "icu_unit" := "unit" ]}) None "update"
       = (Ok R,
          {| anonymiser :=
               resolve_all (anonymiser (new_processor scenario_salt))
                 (column (prepared resubmission_env file_A
                            (Some {[ "icu_unit" := "unit" ]}) None) "hospital_number");
             master_registry := Some R;
             processing_log :=
               processing_log (new_processor scenario_salt)
               ++ [log_entry resubmission_env "a.csv" file_A "hospital_number"] |}) ∧
    (master_registry (new_processor scenario_salt) = None →
     length (rows R) = length (rows file_A)) ∧
    (∀ M, master_registry (new_processor scenario_salt) = Some M →
          (length (rows M) ≤ length (rows R) ≤ length (rows M) + length (rows file_A))%nat).
Proof.
  assert (H1 : "hospital_number" ≠ ID) by discriminate.
  assert (H2 : ∀ M, master_registry (new_processor scenario_salt) = Some M → ID ∈ columns M)
    by (intros M; discriminate).
  assert (H3 : path_exists resubmission_env "a.csv" = true) by reflexivity.
  assert (H4 : read_table resubmission_env "a.csv" = Ok file_A) by reflexivity.
  assert (H5 : "hospital_number" ∈ columns file_A) by by left.
  assert (Hcols : rename_label {[ "icu_unit" := "unit" ]} <$> columns file_A
                  = ["hospital_number"; "unit"]) by reflexivity.
  assert (Hapart : renames_apart file_A (Some {[ "icu_unit" := "unit" ]})).
  { change (NoDup (rename_label {[ "icu_unit" := "unit" ]} <$> columns file_A)).
    rewrite Hcols. apply NoDup_cons. split.
    - rewrite list_elem_of_singleton. discriminate.
    - apply NoDup_singleton. }
  assert (H6 : "hospital_number"
               ∈ columns (prepared resubmission_env file_A
                            (Some {[ "icu_unit" := "unit" ]}) None)).
  { unfold prepared. rewrite decide_False by apply map_non_empty_singleton.
    change ("hospital_number" ∈ rename_label {[ "icu_unit" := "unit" ]} <$> columns file_A).
    rewrite Hcols. by left. }
  assert (H7 : ∀ r, r ∈ rows (prepared resubmission_env file_A
                                (Some {[ "icu_unit" := "unit" ]}) None) →
                    ∃ b, cell_lt resubmission_env (r !! "discharge_datetime")
                           (r !! "admission_datetime") = Ok b).
  { intros r _. simpl.
    destruct (r !! "discharge_datetime") as [[s|a]|];
      destruct (r !! "admission_datetime") as [[s'|b]|]; by eexists. }
  split; [done |].
  exact (process_file_returns resubmission_env (new_processor scenario_salt) "a.csv"
           "hospital_number" (Some {[ "icu_unit" := "unit" ]}) None "update" file_A
           H1 H2 H3 H4 H5 Hapart H6 H7).
Defined.

End pipeline.

(** ** Renaming, parsing of dates and validation *)

Section preparation.
Local Abbreviation ID := "anonymous_patient_id".
Local Abbreviation ADMISSION := "admission_datetime".
Local Abbreviation DISCHARGE := "discharge_datetime".
Implicit Types (r : gmap string value) (df : DataFrame).

Lemma rename_row_lookup (m : gmap string string) r c :
  (∀ c', is_Some (r !! c') → rename_label m c' = rename_label m c → c' = c) →
  (list_to_map (prod_map (rename_label m) id <$> map_to_list r) : gmap string value)
    !! rename_label m c = r !! c.
Proof.
  intros Hinj. destruct (r !! c) as [v|] eqn:Hc.
  - apply elem_of_list_to_map_1'.
    + intros y Hy. apply list_elem_of_fmap in Hy as ([c' v'] & Heq & Hin).
      simpl in Heq. injection Heq as Hc' ->.
      apply elem_of_map_to_list in Hin.
      assert (c' = c) by (apply Hinj; eauto). subst. congruence.
    + apply list_elem_of_fmap. exists (c, v). split; [done |].
      by apply elem_of_map_to_list.
  - apply not_elem_of_list_to_map_1. intros Hin.
    apply list_elem_of_fmap in Hin as ([c0 v0] & Heq & Hin).
    apply list_elem_of_fmap in Hin as ([c' v'] & Heq' & Hin).
    simpl in Heq, Heq'. injection Heq' as -> ->.
    apply elem_of_map_to_list in Hin.
    assert (c' = c) by (apply Hinj; eauto). congruence.
Qed.

(** Renaming keeps the cells: the column that carries the new label of
    [c] holds, row by row, what the column [c] held, provided no other
    label of the rows is given the same new label. Rows and columns
    keep their number and their order. *)
Theorem standardise_columns_keeps_cells df (column_mapping : gmap string string) c :
  (∀ r c', r ∈ rows df → is_Some (r !! c') →
           rename_label column_mapping c' = rename_label column_mapping c → c' = c) →
  column (standardise_columns df column_mapping) (rename_label column_mapping c)
  = column df c ∧
  columns (standardise_columns df column_mapping)
  = rename_label column_mapping <$> columns df ∧
  length (rows (standardise_columns df column_mapping)) = length (rows df).
Proof.
  intros Hinj. split_and!; [|done|simpl; by rewrite length_fmap].
  unfold column, standardise_columns. simpl.
  apply list_eq. intros i. rewrite !list_lookup_fmap.
  destruct (rows df !! i) as [r|] eqn:Hi; [|done]. simpl. f_equal.
  apply rename_row_lookup. intros c'. apply Hinj.
  by apply list_elem_of_lookup_2 in Hi.
Qed.

Lemma standardise_columns_keeps_cells_witness :
  (∀ r c', r ∈ rows file_A → is_Some (r !! c') →
           rename_label {[ "hospital_number" := "patient" ]} c'
           = rename_label {[ "hospital_number" := "patient" ]} "hospital_number" →
           c' = "hospital_number") ∧
  column (standardise_columns file_A {[ "hospital_number" := "patient" ]})
         (rename_label {[ "hospital_number" := "patient" ]} "hospital_number")
  = column file_A "hospital_number" ∧
  columns (standardise_columns file_A {[ "hospital_number" := "patient" ]})
  = rename_label {[ "hospital_number" := "patient" ]} <$> columns file_A ∧
  length (rows (standardise_columns file_A {[ "hospital_number" := "patient" ]}))
  = length (rows file_A).
Proof.
  assert (H : ∀ r c', r ∈ rows file_A → is_Some (r !! c') →
                rename_label {[ "hospital_number" := "patient" ]} c'
                = rename_label {[ "hospital_number" := "patient" ]} "hospital_number" →
                c' = "hospital_number").
  { intros r c' Hr Hsome Heq.
    destruct (decide (c' = "hospital_number")) as [|Hne]; [done |].
    exfalso.
    assert (Hunit : c' = "icu_unit").
    { simpl in Hr.
      repeat (apply elem_of_cons in Hr as [->|Hr]);
        try (by apply elem_of_nil in Hr);
        rewrite lookup_insert_ne in Hsome by done;
        (destruct (decide (c' = "icu_unit")) as [|Hne']; [done |]);
        rewrite lookup_singleton_ne in Hsome by done;
        by destruct Hsome. }
    subst c'. vm_compute in Heq. discriminate. }
  split; [exact H |].
  exact (standardise_columns_keeps_cells file_A {[ "hospital_number" := "patient" ]}
           "hospital_number" H).
Defined.





Lemma series_lt_spec env {A} (f g : A → option value) (l : list A) : ∀ flags,
  series_lt env (f <$> l) (g <$> l) = Ok flags →
  Forall2 (λ x b, cell_lt env (f x) (g x) = Ok b) l flags.
Proof.
  induction l as [|x l IH]; intros flags.
  { intros [= <-]. constructor. }
  rewrite !fmap_cons. cbn [series_lt].
  destruct (cell_lt env (f x) (g x)) as [b|e] eqn:Hb; [|done]. simpl.
  destruct (series_lt env (f <$> l) (g <$> l)) as [bs|e]; [|done]. simpl.
  intros [= <-]. constructor; [done | by apply IH].
Qed.

Lemma validate_data_issues env df flags :
  series_lt env (column df DISCHARGE) (column df ADMISSION) = Ok flags →
  let missing := filter (λ col, col ∉ columns df) [ID; ADMISSION] in
  let invalid_dates := length (filter (λ b, b = true) flags) in
  let null_ids := length (filter (λ x, x = None) (column df ID)) in
  let invalid_units :=
    length (filter (λ r, r !! "icu_unit" ∉ (Some ∘ Str <$> valid_units) ++ [None])
              (rows df)) in
  validate_data env df
  = Ok (df,
        (if decide (missing = []) then []
         else ["Missing required columns: " +:+ repr_list missing]) ++
        (if decide ((ADMISSION ∈ columns df ∧ DISCHARGE ∈ columns df)
                    ∧ (0 < invalid_dates)%nat)
         then ["Found " +:+ pretty invalid_dates
               +:+ " records where discharge before admission"]
         else []) ++
        (if decide (ID ∈ columns df ∧ (0 < null_ids)%nat)
         then ["Found " +:+ pretty null_ids +:+ " records with null patient IDs"]
         else []) ++
        (if decide ("icu_unit" ∈ columns df ∧ (0 < invalid_units)%nat)
         then ["Found " +:+ pretty invalid_units +:+ " records with invalid ICU unit"]
         else [])).
Proof.
  intros Hflags. cbn zeta. unfold validate_data, check_icu_units. rewrite Hflags.
  generalize (filter (λ col, col ∉ columns df) [ID; ADMISSION]).
  generalize (length (filter (λ x : option value, x = None) (column df ID))).
  generalize (length (filter (λ r, r !! "icu_unit" ∉ (Some ∘ Str <$> valid_units) ++ [None])
                        (rows df))).
  intros n3 n2 missing.
  destruct (decide (ADMISSION ∈ columns df ∧ DISCHARGE ∈ columns df)) as [Hb|Hb]; simpl.
  - generalize (length (filter (λ b : bool, b = true) flags)). intros n1.
    rewrite (decide_ext ((ADMISSION ∈ columns df ∧ DISCHARGE ∈ columns df) ∧ (0 < n1)%nat)
               (0 < n1)%nat) by tauto.
    destruct (decide (0 < n1)%nat); simpl;
      (destruct (decide (missing = [])) as [Hm|Hm];
       [rewrite bool_decide_true by done | rewrite bool_decide_false by done]);
      (destruct (decide (ID ∈ columns df)) as [HID|HID];
       [rewrite (decide_ext (ID ∈ columns df ∧ (0 < n2)%nat) (0 < n2)%nat) by tauto; destruct (decide (0 < n2)%nat)
       |rewrite (decide_False (P := ID ∈ columns df ∧ _)) by tauto]);
      (destruct (decide ("icu_unit" ∈ columns df)) as [HU|HU];
       [rewrite (decide_ext ("icu_unit" ∈ columns df ∧ (0 < n3)%nat) (0 < n3)%nat) by tauto;
        destruct (decide (0 < n3)%nat)
       |rewrite (decide_False (P := "icu_unit" ∈ columns df ∧ _)) by tauto]);
      simpl; rewrite ?app_nil_r, <- ?(assoc_L (++)); done.
  - rewrite (decide_False (P := _ ∧ (0 < _)%nat)) by tauto.
    (destruct (decide (missing = [])) as [Hm|Hm];
       [rewrite bool_decide_true by done | rewrite bool_decide_false by done]);
      (destruct (decide (ID ∈ columns df)) as [HID|HID];
       [rewrite (decide_ext (ID ∈ columns df ∧ (0 < n2)%nat) (0 < n2)%nat) by tauto; destruct (decide (0 < n2)%nat)
       |rewrite (decide_False (P := ID ∈ columns df ∧ _)) by tauto]);
      (destruct (decide ("icu_unit" ∈ columns df)) as [HU|HU];
       [rewrite (decide_ext ("icu_unit" ∈ columns df ∧ (0 < n3)%nat) (0 < n3)%nat) by tauto;
        destruct (decide (0 < n3)%nat)
       |rewrite (decide_False (P := "icu_unit" ∈ columns df ∧ _)) by tauto]);
      simpl; rewrite ?app_nil_r, <- ?(assoc_L (++)); done.
Qed.

Lemma if_nil_singleton {A} (P : Prop) `{!Decision P} (x : A) :
  (if decide P then [] else [x]) = [] ↔ P.
Proof. case_decide; split; done. Qed.

Lemma if_singleton_nil {A} (P : Prop) `{!Decision P} (x : A) :
  (if decide P then [x] else []) = [] ↔ ¬ P.
Proof. case_decide; split; done. Qed.

Lemma length_pos_filter {A} (P : A → Prop) `{!∀ x, Decision (P x)} (l : list A) :
  ¬ (0 < length (filter P l))%nat ↔ ∀ x, x ∈ l → ¬ P x.
Proof.
  split.
  - intros Hlen x Hx HP.
    assert (Hin : x ∈ filter P l) by (by apply list_elem_of_filter).
    destruct (filter P l); [by apply elem_of_nil in Hin | simpl in Hlen; lia].
  - intros Hall. rewrite filter_none by done. simpl. lia.
Qed.

(** [validate_data] hands the table back as it was, with its list of
    issues, whenever discharge and admission can be compared in each
    row; the issues never stop it. The list is empty exactly when the
    table has the surrogate ID column and the admission column, no row
    has a discharge before its admission, no row misses its surrogate
    ID, and every unit is missing or in the vocabulary. *)
Theorem validate_data_passes env df :
  (∀ r, r ∈ rows df → ∃ b, cell_lt env (r !! DISCHARGE) (r !! ADMISSION) = Ok b) →
  ∃ issues, validate_data env df = Ok (df, issues) ∧
    (issues = [] ↔
       ID ∈ columns df ∧ ADMISSION ∈ columns df ∧
       (DISCHARGE ∈ columns df →
        ∀ r, r ∈ rows df → cell_lt env (r !! DISCHARGE) (r !! ADMISSION) = Ok false) ∧
       (∀ r, r ∈ rows df → is_Some (r !! ID)) ∧
       ("icu_unit" ∈ columns df →
        ∀ r, r ∈ rows df → r !! "icu_unit" ∈ (Some ∘ Str <$> valid_units) ++ [None])).
Proof.
  intros Hcmp.
  destruct (series_lt_returns env (λ r, r !! DISCHARGE) (λ r, r !! ADMISSION) (rows df) Hcmp)
    as [flags Hflags].
  pose proof (series_lt_spec env _ _ _ _ Hflags) as Hspec.
  assert (Hnone : ¬ (0 < length (filter (λ b, b = true) flags))%nat ↔
            ∀ r, r ∈ rows df → cell_lt env (r !! DISCHARGE) (r !! ADMISSION) = Ok false).
  { rewrite length_pos_filter. clear Hflags Hcmp.
    induction Hspec as [|r b l flags Hr _ IH].
    { split; intros _ ? ?%elem_of_nil; done. }
    split.
    - intros Hall r' [->|Hr']%elem_of_cons.
      + destruct b; [|done]. exfalso. apply (Hall true); [by left | done].
      + apply IH; [|done]. intros b' Hb'. apply Hall. by right.
    - intros Hall b' [->|Hb']%elem_of_cons.
      + intros ->. specialize (Hall r (ltac:(by left))). simpl in *. congruence.
      + apply IH; [|done]. intros r' Hr'. apply Hall. by right. }
  rewrite (validate_data_issues env df flags Hflags). cbn zeta.
  eexists. split; [done |].
  rewrite !app_nil, if_nil_singleton, !if_singleton_nil.
  rewrite !not_and_l, Hnone, !length_pos_filter.
  assert (Hmissing : filter (λ col, col ∉ columns df) [ID; ADMISSION] = [] ↔
            ID ∈ columns df ∧ ADMISSION ∈ columns df).
  { rewrite !filter_cons, filter_nil. repeat case_decide; split; try done; tauto. }
  rewrite Hmissing.
  split.
  - intros ([HID HA] & Hdates & Hnull & Hunits). split_and!; try done.
    + intros HD. destruct Hdates as [Hno|Hok]; [tauto | done].
    + intros r Hr. destruct Hnull as [Hno|Hok]; [done |].
      apply not_eq_None_Some. apply Hok. by apply elem_of_column.
    + intros HU r Hr. destruct Hunits as [Hno|Hok]; [done |].
      by apply dec_stable, Hok.
  - intros (HID & HA & Hdates & Hnull & Hunits). split_and!; try done.
    + destruct (decide (DISCHARGE ∈ columns df)); [right; auto | left; tauto].
    + right. intros x Hx ->. apply list_elem_of_fmap in Hx as (r & Hx & Hr).
      apply Hnull in Hr. rewrite <- Hx in Hr. by destruct Hr.
    + destruct (decide ("icu_unit" ∈ columns df)); [right | by left].
      intros r Hr Hn. by apply Hn, Hunits.
Qed.

Lemma validate_data_passes_witness :
  (∀ r, r ∈ rows file_A →
        ∃ b, cell_lt scenario_env (r !! DISCHARGE) (r !! ADMISSION) = Ok b) ∧
  ∃ issues, validate_data scenario_env file_A = Ok (file_A, issues) ∧
    (issues = [] ↔
       ID ∈ columns file_A ∧ ADMISSION ∈ columns file_A ∧
       (DISCHARGE ∈ columns file_A →
        ∀ r, r ∈ rows file_A →
             cell_lt scenario_env (r !! DISCHARGE) (r !! ADMISSION) = Ok false) ∧
       (∀ r, r ∈ rows file_A → is_Some (r !! ID)) ∧
       ("icu_unit" ∈ columns file_A →
        ∀ r, r ∈ rows file_A → r !! "icu_unit" ∈ (Some ∘ Str <$> valid_units) ++ [None])).
Proof.
  assert (H : ∀ r, r ∈ rows file_A →
                ∃ b, cell_lt scenario_env (r !! DISCHARGE) (r !! ADMISSION) = Ok b).
  { intros r Hr. simpl in Hr.
    repeat (apply elem_of_cons in Hr as [->|Hr]); [by exists false..|].
    by apply elem_of_nil in Hr. }
  split; [exact H |].
  exact (validate_data_passes scenario_env file_A H).
Defined.

End preparation.

(** ** More on the suppression filter and on the counts *)

Section counts.
Import ICUAnalyser.
Implicit Types (r : gmap string value) (t : Z) (df : DataFrame).

Lemma suppress_frame_rows df t :
  suppress_frame df t
  = {| columns := columns df;
       rows := (λ r, foldl (λ r col, mask_row col t r) r (numeric_columns df)) <$> rows df |}.
Proof. unfold suppress_frame. apply mask_columns_spec. Qed.

Lemma suppress_frame_lookup df t i r :
  rows df !! i = Some r →
  ∃ r', rows (suppress_frame df t) !! i = Some r' ∧
    ∀ c, r' !! c = if decide (c ∈ numeric_columns df) then mask_cell t (r !! c) else r !! c.
Proof.
  intros Hi. rewrite suppress_frame_rows. simpl. rewrite list_lookup_fmap, Hi. simpl.
  eexists. split; [done |]. intros c. apply mask_rows_lookup.
Qed.

Lemma column_suppress_frame df t c :
  column (suppress_frame df t) c
  = if decide (c ∈ numeric_columns df) then mask_cell t <$> column df c else column df c.
Proof.
  rewrite suppress_frame_rows. unfold column. simpl.
  apply list_eq. intros i.
  case_decide; rewrite !list_lookup_fmap; destruct (rows df !! i) as [r|]; try done;
    simpl; rewrite mask_rows_lookup; [by rewrite decide_True | by rewrite decide_False].
Qed.

Lemma is_number_mask_cell t x : is_number (mask_cell t x) = true → is_number x = true.
Proof. by destruct x as [[s|z]|]. Qed.

Lemma numeric_columns_suppress_frame df t c :
  c ∈ numeric_columns (suppress_frame df t) → c ∈ numeric_columns df.
Proof.
  unfold numeric_columns at 1. rewrite list_elem_of_filter.
  rewrite suppress_frame_rows at 2. simpl. intros [Hnum Hc].
  destruct (decide (c ∈ numeric_columns df)) as [|Hnot]; [done |].
  rewrite column_suppress_frame, decide_False in Hnum by done.
  unfold numeric_columns. by apply list_elem_of_filter.
Qed.

(** What the filter leaves alone, on any table. The columns and the
    rows keep their number and their order. A cell that is missing,
    that is text, or that is a number at least the threshold is never
    changed, and no cell of a column that holds a string somewhere is
    changed. The only change made to a cell is that of a number below
    the threshold to the marker. *)
Theorem suppress_frame_changes_only_small_numbers df t :
  columns (suppress_frame df t) = columns df ∧
  length (rows (suppress_frame df t)) = length (rows df) ∧
  ∀ i r, rows df !! i = Some r →
    ∃ r', rows (suppress_frame df t) !! i = Some r' ∧
      (∀ c, r !! c = None ∨ (∃ s, r !! c = Some (Str s)) ∨
            (∃ z, r !! c = Some (Num z) ∧ (t ≤ z)%Z) ∨
            (∃ s, Some (Str s) ∈ column df c) →
            r' !! c = r !! c) ∧
      (∀ c, r' !! c ≠ r !! c →
            ∃ z, r !! c = Some (Num z) ∧ (z < t)%Z ∧ r' !! c = Some (marker t)).
Proof.
  rewrite suppress_frame_rows. simpl. split; [done |]. split; [by rewrite length_fmap |].
  intros i r Hi. rewrite list_lookup_fmap, Hi. simpl. eexists. split; [done |].
  split.
  - intros c Hc. rewrite mask_rows_lookup. case_decide as Hnum; [|done].
    destruct Hc as [Hc|[[s Hc]|[(z & Hc & Hz)|[s Hs]]]].
    + by rewrite Hc.
    + by rewrite Hc.
    + rewrite Hc. simpl. by rewrite decide_False by lia.
    + exfalso. unfold numeric_columns in Hnum.
      apply list_elem_of_filter in Hnum as [Hall _].
      rewrite forallb_forall in Hall.
      by apply list_elem_of_In, Hall in Hs.
  - intros c. rewrite mask_rows_lookup. case_decide; [|done].
    destruct (r !! c) as [[s|z]|]; simpl; try done.
    case_decide; [|done]. intros _. by exists z.
Qed.

(** Filtering twice is filtering once. *)
Theorem suppress_frame_idempotent df t :
  suppress_frame (suppress_frame df t) t = suppress_frame df t.
Proof.
  rewrite (suppress_frame_rows (suppress_frame df t)).
  assert (Hc : columns (suppress_frame df t) = columns df)
    by (by rewrite suppress_frame_rows).
  assert (Hr : rows (suppress_frame df t)
               = (λ r, foldl (λ r col, mask_row col t r) r (numeric_columns df)) <$> rows df)
    by (by rewrite suppress_frame_rows).
  rewrite Hc, Hr. etrans; [|symmetry; apply suppress_frame_rows]. f_equal.
  apply list_eq. intros i. rewrite !list_lookup_fmap.
  destruct (rows df !! i) as [r|]; [|done]. simpl. f_equal.
  apply map_eq. intros c. rewrite !mask_rows_lookup.
  destruct (decide (c ∈ numeric_columns (suppress_frame df t))) as [Hin|Hnot].
  - apply numeric_columns_suppress_frame in Hin.
    rewrite decide_True by done. apply mask_cell_idemp.
  - done.
Qed.

Lemma value_counts_lookup series v :
  value_counts series !! v
  = let n := length (filter (λ x, x = Some v) series) in
    if decide (n = 0)%nat then None else Some (Z.of_nat n).
Proof.
  cbn zeta. unfold value_counts.
  induction series as [|x rest IH]; [done |].
  cbn [foldr]. rewrite filter_cons.
  destruct x as [w|].
  - destruct (decide (w = v)) as [->|Hne].
    + rewrite lookup_insert_eq, IH, (decide_True (P := Some v = Some v)) by done.
      cbn [length]. case_decide as Hn; [by rewrite Hn |].
      rewrite decide_False by done. simpl. f_equal. lia.
    + rewrite lookup_insert_ne, IH by done.
      by rewrite (decide_False (P := Some w = Some v)) by congruence.
  - by rewrite IH, (decide_False (P := None = Some v)).
Qed.

Lemma length_filter_column df col v :
  length (filter (λ x, x = Some v) (column df col))
  = length (filter (λ r, r !! col = Some v) (rows df)).
Proof.
  unfold column. induction (rows df) as [|r l IH]; [done |].
  rewrite fmap_cons, !filter_cons. case_decide; simpl; by rewrite IH.
Qed.

(** The three flat distributions ([unit_distribution],
    [admission_source_distribution],
    [discharge_destination_distribution]) in terms of the rows: a value
    is a key exactly when the column exists and some row holds it; the
    entry is the number of these rows, or, with suppression, the marker
    when they are fewer than five. A missing cell is counted nowhere,
    and suppression never removes a key. *)
Theorem distribution_counts_rows df col suppress k :
  distribution df col suppress !! k
  = let n := length (filter (λ r, r !! col = Some k) (rows df)) in
    if decide (col ∈ columns df ∧ (0 < n)%nat)
    then Some (if suppress && bool_decide (n < 5)%nat then marker 5 else Num (Z.of_nat n))
    else None.
Proof.
  cbn zeta. unfold distribution. destruct (decide (col ∉ columns df)) as [Hnot|Hin%dec_stable].
  { rewrite lookup_empty, decide_False; [done | tauto]. }
  assert (Hcount := value_counts_lookup (column df col) k). cbn zeta in Hcount.
  rewrite length_filter_column in Hcount.
  destruct suppress; [unfold suppress_dict|]; rewrite lookup_fmap, Hcount;
    (case_decide as Hn; [rewrite decide_False by lia | rewrite decide_True by (split; [done | lia])]);
    try done; simpl; f_equal.
  repeat (case_decide || case_bool_decide); try done; lia.
Qed.

Lemma init_rows registry :
  "admission_datetime" ∈ columns registry → "discharge_datetime" ∈ columns registry →
  rows (init registry) = (λ r, set_cell "los_days" (stay r) r) <$> rows registry ∧
  ∀ c, c ∈ columns (init registry) ↔ c ∈ columns registry ∨ c = "los_days".
Proof.
  intros Ha Hd. unfold init. rewrite decide_True by done. split.
  - simpl. apply list_eq. intros i.
    rewrite lookup_zip_with, !list_lookup_fmap.
    by destruct (rows registry !! i).
  - intros c. apply elem_of_columns_setitem.
Qed.

Lemma lookup_set_cell c x r c' :
  set_cell c x r !! c' = if decide (c' = c) then x else r !! c'.
Proof.
  unfold set_cell. destruct x; case_decide; subst;
    by rewrite ?lookup_insert_eq, ?lookup_insert_ne, ?lookup_delete_eq, ?lookup_delete_ne.
Qed.

(** The counts of the lengths of stay, from the registry as it is
    loaded: when it has both timestamps, a row is counted when both
    are present and the discharge is later than the admission by at
    most thirty days. Without the split by unit the count is the number
    of these rows; with it, and with a unit column, a unit is a key
    when one of these rows has it, and its count is their number, so a
    stay whose unit is missing is counted nowhere. *)
Theorem length_of_stay_counts_rows registry :
  "admission_datetime" ∈ columns registry → "discharge_datetime" ∈ columns registry →
  let counted r := plausible_stay (stay r) = true in
  length_of_stay_statistics (init registry) false
  = LosOverall (Z.of_nat (length (filter counted (rows registry)))) ∧
  (("icu_unit" ∉ columns registry) →
   length_of_stay_statistics (init registry) true
   = LosOverall (Z.of_nat (length (filter counted (rows registry))))) ∧
  ("icu_unit" ∈ columns registry →
   ∃ counts, length_of_stay_statistics (init registry) true = LosByUnit counts ∧
     ∀ u, counts !! u
          = let n := length (filter (λ r, counted r ∧ r !! "icu_unit" = Some u)
                               (rows registry)) in
            if decide (n = 0)%nat then None else Some (Z.of_nat n)).
Proof.
  intros Ha Hd counted.
  destruct (init_rows registry Ha Hd) as [Hrows Hcols].
  assert (Hlos : "los_days" ∈ columns (init registry)) by (apply Hcols; by right).
  assert (Hclean : filter (λ r, plausible_stay (r !! "los_days") = true) (rows (init registry))
                   = (λ r, set_cell "los_days" (stay r) r) <$> filter counted (rows registry)).
  { rewrite Hrows. generalize (rows registry). intros l.
    induction l as [|r l IH]; [done |].
    rewrite fmap_cons, !filter_cons, lookup_set_cell,
      (decide_True (P := "los_days" = "los_days")) by done.
    unfold counted at 1. case_decide; [rewrite fmap_cons|]; by rewrite IH. }
  unfold length_of_stay_statistics.
  rewrite !(decide_False (P := "los_days" ∉ columns (init registry))) by (by intros ?).
  rewrite Hclean, length_fmap.
  split_and!.
  - done.
  - intros Hno. rewrite bool_decide_false; [done |].
    rewrite Hcols. intros [?|?]; done.
  - intros Hu. rewrite bool_decide_true by (apply Hcols; by left). simpl.
    eexists. split; [done |]. intros u. rewrite value_counts_lookup. cbn zeta.
    assert (Hn : length (filter (λ x, x = Some u)
                     ((λ r, r !! "icu_unit") <$>
                        ((λ r, set_cell "los_days" (stay r) r) <$> filter counted (rows registry))))
                 = length (filter (λ r, counted r ∧ r !! "icu_unit" = Some u) (rows registry))).
    { generalize (rows registry). intros l.
      induction l as [|r l IH]; [done |].
      rewrite !(filter_cons _ r).
      destruct (decide (counted r)) as [Hr|Hr].
      - rewrite !fmap_cons, filter_cons, lookup_set_cell,
          (decide_False (P := "icu_unit" = "los_days")) by done.
        destruct (decide (r !! "icu_unit" = Some u)) as [Heq|Hne].
        + rewrite decide_True by done. simpl. by rewrite IH.
        + rewrite decide_False by tauto. done.
      - rewrite decide_False by tauto. done. }
    by rewrite Hn.
Qed.

Lemma length_of_stay_counts_rows_witness :
  ("admission_datetime" ∈ columns single_admission ∧
   "discharge_datetime" ∈ columns single_admission) ∧
  let counted r := plausible_stay (stay r) = true in
  length_of_stay_statistics (init single_admission) false
  = LosOverall (Z.of_nat (length (filter counted (rows single_admission)))) ∧
  (("icu_unit" ∉ columns single_admission) →
   length_of_stay_statistics (init single_admission) true
   = LosOverall (Z.of_nat (length (filter counted (rows single_admission))))) ∧
  ("icu_unit" ∈ columns single_admission →
   ∃ counts, length_of_stay_statistics (init single_admission) true = LosByUnit counts ∧
     ∀ u, counts !! u
          = let n := length (filter (λ r, counted r ∧ r !! "icu_unit" = Some u)
                               (rows single_admission)) in
            if decide (n = 0)%nat then None else Some (Z.of_nat n)).
Proof.
  assert (H1 : "admission_datetime" ∈ columns single_admission)
    by (right; by left).
  assert (H2 : "discharge_datetime" ∈ columns single_admission)
    by (right; right; by left).
  split; [done |].
  exact (length_of_stay_counts_rows single_admission H1 H2).
Defined.

End counts.

(** ** The stand-alone entry point *)

Section entry_point.
Local Abbreviation ID := "anonymous_patient_id".
Local Abbreviation HASH := "patient_id_hash".
Local Abbreviation SALT_FILE := "hashing_salt.txt".
Local Abbreviation STATS_FILE := "data/aggregated/anonymisation_stats.json".
Implicit Types (r : gmap string value) (df R : DataFrame) (files : gmap string string).

Lemma anonymise_patient_data_loaded env files random_bytes input_file identifier_column
    output_file df :
  path_exists env input_file = true → read_table env input_file = Ok df →
  anonymise_patient_data env files random_bytes input_file identifier_column output_file
  = let init := PatientAnonymiser_init files SALT_FILE random_bytes in
    match anonymise_dataframe init.1 df identifier_column with
    | (Raise e, _) => (Raise e, init.2, [])
    | (Ok df_anon, anonymiser) =>
        (Ok df_anon, init.2,
         match output_file with
         | Some output_file =>
             if decide (output_file = "") then []
             else
               (if decide (path_suffix env output_file = ".csv")
                then [CsvFile output_file df_anon]
                else if decide (path_suffix env output_file ∈ [".xlsx"; ".xls"])
                     then [ExcelFile output_file df_anon]
                     else [])
               ++ [StatsFile STATS_FILE (save_mapping_stats anonymiser (now_isoformat env))]
         | None => []
         end)
    end.
Proof.
  intros Hex Hread. unfold anonymise_patient_data, read_table in *.
  rewrite Hex, Hread. simpl.
  by destruct (PatientAnonymiser_init files SALT_FILE random_bytes) as [a files'].
Qed.

Lemma resolve_all_first s x rest :
  mapping (resolve_all (new_anonymiser s) (x :: rest)) !! _create_hash (new_anonymiser s) x
  = Some (surrogate 1).
Proof.
  unfold resolve_all. cbn [foldl]. apply resolve_all_keeps.
  by rewrite get_anonymous_id_recorded.
Qed.

(** Every call of the entry point starts a new resolver: whatever the
    identifier in the first row of the file, and whatever earlier calls
    have resolved, the first row of the table returned has the
    surrogate ID [ICU-000001]; its digest is the digest of its
    identifier under the salt of the salt file. The surrogate IDs of
    two files anonymised by two calls are not comparable; their
    digests are. *)
Theorem entry_point_numbers_from_one env files random_bytes input_file identifier_column
    output_file df r :
  path_exists env input_file = true → read_table env input_file = Ok df →
  identifier_column ∈ columns df → identifier_column ∉ [ID; HASH] →
  rows df !! 0%nat = Some r →
  ∃ R r',
    (anonymise_patient_data env files random_bytes input_file identifier_column
       output_file).1.1 = Ok R ∧
    rows R !! 0%nat = Some r' ∧
    r' !! ID = Some (Str "ICU-000001") ∧
    r' !! HASH
    = Some (Str (SHA256.hexdigest
                   (normalise (r !! identifier_column)
                    +:+ (_get_or_create_salt files SALT_FILE random_bytes).1))).
Proof.
  intros Hex Hread Hin Hne Hr.
  rewrite (anonymise_patient_data_loaded _ _ _ _ _ _ df) by done. cbn zeta.
  unfold PatientAnonymiser_init.
  destruct (_get_or_create_salt files SALT_FILE random_bytes) as [s files']. simpl.
  destruct (anonymise_dataframe_row (new_anonymiser s) df identifier_column Hin)
    as (df' & -> & _ & Hrows).
  destruct (Hrows 0%nat r Hr) as (id & Hid & Hrow).
  exists df'. eexists. split; [done |]. split; [exact Hrow |].
  assert (Hcol : ∃ rest, column df identifier_column = (r !! identifier_column) :: rest).
  { unfold column. destruct (rows df) as [|r0 l]; [done |].
    injection Hr as ->. by eexists. }
  destruct Hcol as [rest Hcol]. rewrite Hcol, resolve_all_first in Hid.
  injection Hid as <-.
  apply not_elem_of_cons in Hne as [Hne1 Hne2].
  apply not_elem_of_cons in Hne2 as [Hne2 _].
  rewrite !lookup_delete_ne by done.
  rewrite lookup_insert_ne, lookup_insert_eq, lookup_insert_eq by done. done.
Qed.

Lemma entry_point_numbers_from_one_witness :
  (path_exists scenario_env "b.csv" = true ∧ read_table scenario_env "b.csv" = Ok file_B ∧
   "hospital_number" ∈ columns file_B ∧ ("hospital_number" ∉ [ID; HASH]) ∧
   rows file_B !! 0%nat
   = Some {[ "hospital_number" := Str "H2"; "icu_outcome" := Str "Survived" ]}) ∧
  ∃ R r',
    (anonymise_patient_data scenario_env {[ SALT_FILE := scenario_salt ]} []
       "b.csv" "hospital_number" None).1.1 = Ok R ∧
    rows R !! 0%nat = Some r' ∧
    r' !! ID = Some (Str "ICU-000001") ∧
    r' !! HASH
    = Some (Str (SHA256.hexdigest
                   (normalise
                      (({[ "hospital_number" := Str "H2"; "icu_outcome" := Str "Survived" ]}
                         : gmap string value) !! "hospital_number")
                    +:+ (_get_or_create_salt {[ SALT_FILE := scenario_salt ]}
                           SALT_FILE []).1))).
Proof.
  assert (H1 : path_exists scenario_env "b.csv" = true) by reflexivity.
  assert (H2 : read_table scenario_env "b.csv" = Ok file_B) by reflexivity.
  assert (H3 : "hospital_number" ∈ columns file_B) by by left.
  assert (H4 : "hospital_number" ∉ [ID; HASH]).
  { rewrite !elem_of_cons, elem_of_nil. intros [?|[?|[]]]; discriminate. }
  assert (H5 : rows file_B !! 0%nat
               = Some {[ "hospital_number" := Str "H2"; "icu_outcome" := Str "Survived" ]})
    by reflexivity.
  split; [done |].
  exact (entry_point_numbers_from_one scenario_env {[ SALT_FILE := scenario_salt ]} []
           "b.csv" "hospital_number" None file_B _ H1 H2 H3 H4 H5).
Defined.

(** How the entry point fails. A file that is not there or cannot be
    read leaves the text files as they are, the salt file included, and
    nothing is written. A file without the identifier column raises
    [ValueError] after the resolver has been made: nothing is written,
    but the salt file is there afterwards, created by this call if it
    was not there before. *)
Theorem entry_point_failures env files random_bytes input_file identifier_column
    output_file :
  let out := anonymise_patient_data env files random_bytes input_file identifier_column
               output_file in
  (path_exists env input_file = false → out = (Raise FileNotFoundError, files, [])) ∧
  (∀ e, path_exists env input_file = true → read_table env input_file = Raise e →
        out = (Raise e, files, [])) ∧
  (∀ df, path_exists env input_file = true → read_table env input_file = Ok df →
         identifier_column ∉ columns df →
         out.1.1 = Raise ValueError ∧ out.2 = [] ∧
         is_Some (out.1.2 !! SALT_FILE) ∧
         (files !! SALT_FILE = None →
          out.1.2 = <[SALT_FILE := token_hex random_bytes]> files) ∧
         (is_Some (files !! SALT_FILE) → out.1.2 = files)).
Proof.
  intros out. split_and!.
  - intros Hex. subst out. unfold anonymise_patient_data. by rewrite Hex.
  - intros e Hex Hread. subst out. unfold anonymise_patient_data, read_table in *.
    by rewrite Hex, Hread.
  - intros df Hex Hread Hnot. subst out.
    rewrite (anonymise_patient_data_loaded _ _ _ _ _ _ df) by done. cbn zeta.
    rewrite anonymise_dataframe_missing_column by done. simpl.
    unfold PatientAnonymiser_init, _get_or_create_salt.
    destruct (files !! SALT_FILE) as [content|] eqn:Hsalt; simpl.
    + split_and!; try done; by rewrite ?Hsalt.
    + split_and!; try done; try (by rewrite lookup_insert_eq); by intros [].
Qed.

Lemma resolve_all_dom xs : ∀ a,
  dom (mapping (resolve_all a xs))
  = dom (mapping a) ∪ list_to_set (_create_hash a <$> xs).
Proof.
  induction xs as [|x xs IH]; intros a.
  { simpl. set_solver. }
  unfold resolve_all in *. cbn [foldl]. rewrite IH.
  rewrite (list_fmap_ext (_create_hash (get_anonymous_id a x).2) (_create_hash a) xs)
    by (intros; apply create_hash_salt, get_anonymous_id_salt).
  assert (Hdom : dom (mapping (get_anonymous_id a x).2)
                 = dom (mapping a) ∪ {[ _create_hash a x ]}).
  { unfold get_anonymous_id. cbn zeta.
    destruct (mapping a !! _create_hash a x) as [known|] eqn:Hk; simpl.
    - apply elem_of_dom_2 in Hk. set_solver.
    - rewrite dom_insert_L. set_solver. }
  rewrite Hdom, fmap_cons. set_solver.
Qed.

Lemma size_resolve_all_new s xs :
  size (mapping (resolve_all (new_anonymiser s) xs))
  = length (remove_dups (_create_hash (new_anonymiser s) <$> xs)).
Proof.
  rewrite <- size_dom, resolve_all_dom. simpl. rewrite dom_empty_L, (left_id_L ∅ (∪)).
  rewrite <- (size_list_to_set (C := gset string) (remove_dups _)) by apply NoDup_remove_dups.
  f_equal. apply set_eq. intros h. by rewrite !elem_of_list_to_set, elem_of_remove_dups.
Qed.

(** What a successful call writes. Without an output file, or with an
    empty name, nothing. With one, the statistics of the resolver are
    written after the table; the table is written as CSV or as Excel
    according to the suffix of the name, and with any other suffix it
    is not written at all, while the call still returns and the
    statistics are still written. The statistics count the distinct
    digests of the file, and their last surrogate ID carries that
    count. *)
Theorem entry_point_outputs env files random_bytes input_file identifier_column
    output_file df :
  path_exists env input_file = true → read_table env input_file = Ok df →
  identifier_column ∈ columns df →
  ∃ R written stats,
    anonymise_patient_data env files random_bytes input_file identifier_column output_file
    = (Ok R, (PatientAnonymiser_init files SALT_FILE random_bytes).2, written) ∧
    length (rows R) = length (rows df) ∧
    total_unique_patients stats
    = length (remove_dups
                ((λ x, SHA256.hexdigest
                         (normalise x
                          +:+ (_get_or_create_salt files SALT_FILE random_bytes).1))
                   <$> column df identifier_column)) ∧
    last_anonymous_id stats = surrogate (N.of_nat (total_unique_patients stats)) ∧
    (output_file = None ∨ output_file = Some "" → written = []) ∧
    (∀ p, output_file = Some p → p ≠ "" →
          written =
            (if decide (path_suffix env p = ".csv") then [CsvFile p R]
             else if decide (path_suffix env p ∈ [".xlsx"; ".xls"]) then [ExcelFile p R]
             else [])
            ++ [StatsFile STATS_FILE stats]).
Proof.
  intros Hex Hread Hin.
  rewrite (anonymise_patient_data_loaded _ _ _ _ _ _ df) by done. cbn zeta.
  unfold PatientAnonymiser_init.
  destruct (_get_or_create_salt files SALT_FILE random_bytes) as [s files']. simpl.
  destruct (anonymise_dataframe_row (new_anonymiser s) df identifier_column Hin)
    as (df' & -> & Hlen & _).
  set (a := resolve_all (new_anonymiser s) (column df identifier_column)).
  exists df'. eexists. exists (save_mapping_stats a (now_isoformat env)).
  split; [done |]. split; [done |]. split; [apply size_resolve_all_new |]. split.
  { destruct (consistent_resolve_all (column df identifier_column) _ (consistent_new s))
      as [_ _ _ Hsize]. fold a in Hsize.
    unfold save_mapping_stats, format_06d. simpl.
    rewrite decide_False by lia. unfold surrogate. do 2 f_equal. lia. }
  split.
  - by intros [->| ->].
  - intros p -> Hp. by rewrite decide_False.
Qed.

Lemma entry_point_outputs_witness :
  (path_exists scenario_env "a.csv" = true ∧ read_table scenario_env "a.csv" = Ok file_A ∧
   "hospital_number" ∈ columns file_A) ∧
  ∃ R written stats,
    anonymise_patient_data scenario_env ∅ [] "a.csv" "hospital_number" (Some "out.json")
    = (Ok R, (PatientAnonymiser_init ∅ SALT_FILE []).2, written) ∧
    length (rows R) = length (rows file_A) ∧
    total_unique_patients stats
    = length (remove_dups
                ((λ x, SHA256.hexdigest
                         (normalise x +:+ (_get_or_create_salt ∅ SALT_FILE []).1))
                   <$> column file_A "hospital_number")) ∧
    last_anonymous_id stats = surrogate (N.of_nat (total_unique_patients stats)) ∧
    (Some "out.json" = None ∨ Some "out.json" = Some "" → written = []) ∧
    (∀ p, Some "out.json" = Some p → p ≠ "" →
          written =
            (if decide (path_suffix scenario_env p = ".csv") then [CsvFile p R]
             else if decide (path_suffix scenario_env p ∈ [".xlsx"; ".xls"])
                  then [ExcelFile p R]
             else [])
            ++ [StatsFile STATS_FILE stats]).
Proof.
  assert (H1 : path_exists scenario_env "a.csv" = true) by reflexivity.
  assert (H2 : read_table scenario_env "a.csv" = Ok file_A) by reflexivity.
  assert (H3 : "hospital_number" ∈ columns file_A) by by left.
  split; [done |].
  exact (entry_point_outputs scenario_env ∅ [] "a.csv" "hospital_number" (Some "out.json")
           file_A H1 H2 H3).
Defined.

End entry_point.

(** ** The other checks of the registry validator *)

Section checks.
Import RegistryChecks.
Local Abbreviation ID := "anonymous_patient_id".
Local Abbreviation HASH := "patient_id_hash".
Local Abbreviation ADMISSION := "admission_datetime".
Local Abbreviation DISCHARGE := "discharge_datetime".
Implicit Types (r : gmap string value) (self : RegistryChecks.t).

(** [check_required_columns] returns [True] exactly when the registry
    has the surrogate ID, the digest and the admission timestamp
    columns; otherwise it returns [False] and appends one entry of
    severity ERROR to the issues. It never touches the table or the
    warnings. *)
Theorem required_columns_checked self :
  let out := check_required_columns self in
  (out.1 = true ↔
   ID ∈ columns (df self) ∧ HASH ∈ columns (df self) ∧ ADMISSION ∈ columns (df self)) ∧
  df out.2 = df self ∧ warnings out.2 = warnings self ∧
  (out.1 = true → issues out.2 = issues self) ∧
  (out.1 = false →
   ∃ f, issues out.2 = issues self ++ [f] ∧ severity f = "ERROR" ∧
        check f = "required_columns").
Proof.
  intros out. subst out. unfold check_required_columns, required.
  assert (Hmissing : filter (λ col, col ∉ columns (df self)) [ID; HASH; ADMISSION] = [] ↔
            ID ∈ columns (df self) ∧ HASH ∈ columns (df self)
            ∧ ADMISSION ∈ columns (df self)).
  { rewrite !filter_cons, filter_nil. repeat case_decide; split; try done; tauto. }
  case_decide as Hm; simpl.
  - split_and!; try done.
    + split; [done |]. intros H. by apply Hmissing in H.
    + intros _. eauto.
  - split_and!; try done. split; [|done]. intros _. by apply Hmissing.
Qed.

Lemma remove_dups_length_le {A} `{EqDecision A} (l : list A) :
  (length (remove_dups l) ≤ length l)%nat.
Proof. induction l as [|x l IH]; simpl; [done |]. case_decide; simpl; lia. Qed.

Lemma remove_dups_length_NoDup {A} `{EqDecision A} (l : list A) :
  length (remove_dups l) = length l ↔ NoDup l.
Proof.
  split.
  - induction l as [|x l IH]; simpl; [constructor |].
    pose proof (remove_dups_length_le l).
    case_decide; simpl; intros Hlen; [lia |].
    constructor; [done |]. apply IH. lia.
  - induction 1 as [|x l Hx _ IH]; simpl; [done |].
    case_decide; [done |]. simpl. by rewrite IH.
Qed.

Lemma duplicated_count series : ∀ seen,
  (length (filter (λ b, b = true) (duplicated seen series))
   + length (remove_dups (filter (λ x, x ∉ seen) series))
   = length series)%nat.
Proof.
  induction series as [|x rest IH]; intros seen; [done |].
  cbn [duplicated]. rewrite !filter_cons. specialize (IH (x :: seen)).
  destruct (decide (x ∈ seen)) as [Hin|Hnot].
  - rewrite bool_decide_true, decide_True, decide_False by (done || tauto).
    rewrite (list_filter_iff (λ y : option value, y ∉ seen) (λ y, y ∉ x :: seen) rest).
    + simpl. lia.
    + intros y. rewrite elem_of_cons. split; [|tauto]. intros Hy [->|?]; done.
  - rewrite bool_decide_false, decide_False, decide_True by done.
    assert (Hlen : length (remove_dups (x :: filter (λ y, y ∉ seen) rest))
                   = S (length (remove_dups (filter (λ y, y ∉ x :: seen) rest)))).
    { change (S (length ?l)) with (length (x :: l)).
      apply Permutation_length, NoDup_Permutation.
      - apply NoDup_remove_dups.
      - constructor; [|apply NoDup_remove_dups].
        rewrite elem_of_remove_dups, list_elem_of_filter, elem_of_cons. tauto.
      - intros y. rewrite elem_of_remove_dups, !elem_of_cons, elem_of_remove_dups,
          !list_elem_of_filter, elem_of_cons.
        destruct (decide (y = x)); tauto. }
    rewrite Hlen. simpl length. lia.
Qed.

(** [check_duplicate_patients] counts the rows that are not the first
    of their surrogate ID: the count and the number of distinct IDs add
    up to the number of rows, and it is zero exactly when no ID occurs
    twice. A positive count gives one entry of severity WARNING, never
    an issue; the table is not touched. A registry without the
    surrogate ID column raises [KeyError]. *)
Theorem duplicate_patients_counted self :
  let out := check_duplicate_patients self in
  (ID ∉ columns (df self) → out = (Raise KeyError, self)) ∧
  (ID ∈ columns (df self) →
   ∃ duplicates, out.1 = Ok duplicates ∧
     (duplicates + length (remove_dups (column (df self) ID)) = length (rows (df self)))%nat ∧
     (duplicates = 0%nat ↔ NoDup (column (df self) ID)) ∧
     df out.2 = df self ∧ issues out.2 = issues self ∧
     (duplicates = 0%nat → warnings out.2 = warnings self) ∧
     ((0 < duplicates)%nat →
      ∃ f, warnings out.2 = warnings self ++ [f] ∧ severity f = "WARNING")).
Proof.
  intros out. subst out. unfold check_duplicate_patients, getitem. split.
  - intros Hnot. by rewrite decide_False.
  - intros Hin. rewrite decide_True by done.
    pose proof (duplicated_count (column (df self) ID) []) as Hcount.
    rewrite (filter_all (λ x, x ∉ [])) in Hcount by (intros; apply not_elem_of_nil).
    set (duplicates := length (filter (λ b, b = true) (duplicated [] (column (df self) ID))))
      in *.
    assert (Hrows : length (column (df self) ID) = length (rows (df self)))
      by (unfold column; by rewrite length_fmap).
    exists duplicates.
    assert (Hzero : duplicates = 0%nat ↔ NoDup (column (df self) ID)).
    { rewrite <- remove_dups_length_NoDup. lia. }
    case_decide; simpl; split_and!; try done; try lia; eauto.
Qed.

Lemma parse_column_columns env df c : columns (parse_column env df c) = columns df.
Proof. unfold parse_column. case_decide; [|done]. simpl. by rewrite decide_True. Qed.

Lemma select_rows_flagged env {A} (f g : A → option value) (l : list A) mask :
  Forall2 (λ x b, cell_lt env (f x) (g x) = Ok b) l mask →
  (filter (λ p : A * bool, p.2 = true) (zip l mask)).*1
  = filter (λ x, flagged env (f x) (g x) = true) l.
Proof.
  induction 1 as [|x b l mask Hx _ IH]; [done |].
  assert (Hf : flagged env (f x) (g x) = b) by (unfold flagged; rewrite Hx; by destruct b).
  cbn [zip zip_with]. rewrite !filter_cons, Hf. simpl.
  destruct b.
  - rewrite !decide_True by done. by rewrite fmap_cons, IH.
  - by rewrite !decide_False by done.
Qed.

Lemma replicate_fmap_const {A B} (x : B) (f : A → B) (l : list A) :
  replicate (length (f <$> l)) x = (λ _, x) <$> l.
Proof. rewrite length_fmap. induction l as [|a l IH]; [done |]. simpl. by f_equal. Qed.

(** [check_date_logic], when the comparisons it makes return and the
    registry has the surrogate ID column: it returns the number of rows
    whose discharge is before their admission plus the number of rows
    whose admission is after now, both on the parsed timestamps. The
    first kind gives one entry of severity ERROR with the surrogate IDs
    of at most the first five such rows, the second kind one entry of
    severity WARNING. The two timestamp columns of the validator's
    table are left parsed. *)
Theorem date_logic_counted env now self :
  let parsed := parse_column env (parse_column env (df self) ADMISSION) DISCHARGE in
  (∀ r, r ∈ rows parsed → ∃ b, cell_lt env (r !! DISCHARGE) (r !! ADMISSION) = Ok b) →
  (∀ r, r ∈ rows parsed → ∃ b, cell_lt env now (r !! ADMISSION) = Ok b) →
  ID ∈ columns (df self) →
  let invalid :=
    if decide (ADMISSION ∈ columns (df self) ∧ DISCHARGE ∈ columns (df self))
    then filter (λ r, flagged env (r !! DISCHARGE) (r !! ADMISSION) = true) (rows parsed)
    else [] in
  let future :=
    if decide (ADMISSION ∈ columns (df self))
    then filter (λ r, flagged env now (r !! ADMISSION) = true) (rows parsed)
    else [] in
  check_date_logic env now self
  = (Ok (length invalid + length future)%nat,
     {| df := parsed;
        issues :=
          issues self ++
          (if decide (0 < length invalid)%nat
           then [ {| check := "date_logic";
                     severity := "ERROR";
                     message := pretty (length invalid)
                                +:+ " records with discharge before admission";
                     detail := None;
                     patient_ids := Some (take 5 ((λ r, r !! ID) <$> invalid)) |} ]
           else []);
        warnings :=
          warnings self ++
          (if decide (0 < length future)%nat
           then [ {| check := "future_dates";
                     severity := "WARNING";
                     message := pretty (length future)
                                +:+ " records with future admission dates";
                     detail := None;
                     patient_ids := None |} ]
           else []) |}).
Proof.
  intros parsed Hcmp Hnow HID invalid future.
  assert (Hcols : columns parsed = columns (df self))
    by (unfold parsed; by rewrite !parse_column_columns).
  destruct (series_lt_returns env (λ r, r !! DISCHARGE) (λ r, r !! ADMISSION)
              (rows parsed) Hcmp) as [mask Hmask].
  pose proof (select_rows_flagged env _ _ _ _ (series_lt_spec env _ _ _ _ Hmask)) as Hsel.
  destruct (series_lt_returns env (λ _, now) (λ r, r !! ADMISSION)
              (rows parsed) Hnow) as [mask' Hmask'].
  pose proof (select_rows_flagged env _ _ _ _ (series_lt_spec env _ _ _ _ Hmask')) as Hsel'.
  unfold check_date_logic. cbn zeta. fold parsed. cbn [df issues warnings].
  match goal with
  | |- context [match ?c with Ok _ => _ | Raise _ => _ end] =>
      assert (Hfirst : c = Ok (length invalid,
                 {| df := parsed;
                    issues :=
                      issues self ++
                      (if decide (0 < length invalid)%nat
                       then [ {| check := "date_logic";
                                 severity := "ERROR";
                                 message := pretty (length invalid)
                                            +:+ " records with discharge before admission";
                                 detail := None;
                                 patient_ids := Some (take 5 ((λ r, r !! ID) <$> invalid)) |} ]
                       else []);
                    warnings := warnings self |}))
  end.
  { subst invalid. rewrite Hcols.
    destruct (decide (ADMISSION ∈ columns (df self) ∧ DISCHARGE ∈ columns (df self)));
      [|by rewrite app_nil_r].
    unfold column at 1 2. rewrite Hmask. simpl. rewrite Hsel.
    unfold getitem. simpl. rewrite Hcols.
    set (found := filter (λ r, flagged env (r !! DISCHARGE) (r !! ADMISSION) = true)
                    (rows parsed)).
    destruct (decide (0 < length found)%nat) as [Hpos|Hzero].
    - rewrite decide_True by done. simpl. unfold column. simpl. by rewrite Hsel.
    - rewrite app_nil_r. do 2 f_equal. lia. }
  rewrite Hfirst. cbn [df issues warnings]. rewrite Hcols. subst future.
  destruct (decide (ADMISSION ∈ columns (df self))); [|by rewrite Nat.add_0_r, app_nil_r].
  unfold column. rewrite replicate_fmap_const, Hmask'. simpl. rewrite Hsel'.
  set (late := filter (λ r, flagged env now (r !! ADMISSION) = true) (rows parsed)).
  destruct (decide (0 < length late)%nat) as [Hpos|Hzero]; [done |].
  rewrite app_nil_r. do 2 f_equal. lia.
Qed.

Lemma set_cell_self c r : set_cell c (r !! c) r = r.
Proof.
  unfold set_cell. destruct (r !! c) as [v|] eqn:Hc.
  - by apply insert_id.
  - by apply delete_id.
Qed.

Lemma parse_column_rows_id env df c :
  (∀ x, to_datetime env x = x) → rows (parse_column env df c) = rows df.
Proof.
  intros Hid. unfold parse_column. case_decide; [|done]. simpl.
  apply list_eq. intros i. unfold column.
  rewrite lookup_zip_with, !list_lookup_fmap.
  destruct (rows df !! i) as [r|]; [|done]. simpl. by rewrite Hid, set_cell_self.
Qed.

Lemma date_logic_counted_witness :
  ((∀ r, r ∈ rows (parse_column scenario_env
                     (parse_column scenario_env (df example_validator) ADMISSION) DISCHARGE) →
         ∃ b, cell_lt scenario_env (r !! DISCHARGE) (r !! ADMISSION) = Ok b) ∧
   (∀ r, r ∈ rows (parse_column scenario_env
                     (parse_column scenario_env (df example_validator) ADMISSION) DISCHARGE) →
         ∃ b, cell_lt scenario_env (Some (Num 1000)) (r !! ADMISSION) = Ok b) ∧
   ID ∈ columns (df example_validator)) ∧
  ∃ date_issues after,
    check_date_logic scenario_env (Some (Num 1000)) example_validator
    = (Ok date_issues, after).
Proof.
  assert (Hrows : rows (parse_column scenario_env
                     (parse_column scenario_env (df example_validator) ADMISSION) DISCHARGE)
                  = rows (df example_validator))
    by (by rewrite !parse_column_rows_id).
  assert (H1 : ∀ r, r ∈ rows (parse_column scenario_env
                     (parse_column scenario_env (df example_validator) ADMISSION) DISCHARGE) →
         ∃ b, cell_lt scenario_env (r !! DISCHARGE) (r !! ADMISSION) = Ok b).
  { intros r Hr. rewrite Hrows in Hr. simpl in Hr.
    repeat (apply elem_of_cons in Hr as [->|Hr]);
      [first [by exists true | by exists false]..|].
    by apply elem_of_nil in Hr. }
  assert (H2 : ∀ r, r ∈ rows (parse_column scenario_env
                     (parse_column scenario_env (df example_validator) ADMISSION) DISCHARGE) →
         ∃ b, cell_lt scenario_env (Some (Num 1000)) (r !! ADMISSION) = Ok b).
  { intros r Hr. rewrite Hrows in Hr. simpl in Hr.
    repeat (apply elem_of_cons in Hr as [->|Hr]);
      [first [by exists true | by exists false]..|].
    by apply elem_of_nil in Hr. }
  assert (H3 : ID ∈ columns (df example_validator)) by by left.
  split; [done |].
  eexists _, _.
  exact (date_logic_counted scenario_env (Some (Num 1000)) example_validator H1 H2 H3).
Defined.

End checks.

(** ** The order in which the overlapping IDs are visited *)

Section merge_order.
Local Abbreviation ID := "anonymous_patient_id".
Implicit Types (M B : DataFrame).

(** The update loop runs over a set, whose order of iteration is not
    fixed. It does not matter: for a batch that has a surrogate ID in
    every row, the loop never raises and leaves the same master
    whatever the order in which the overlapping IDs are visited. *)
Theorem update_order_is_irrelevant M B pids :
  has_ids B →
  pids ≡ₚ filter (λ x, x ∈ to_set (column M ID)) (to_set (column B ID)) →
  update_existing M B pids
  = update_existing M B (filter (λ x, x ∈ to_set (column M ID)) (to_set (column B ID))) ∧
  (update_existing M B pids).1 = None.
Proof.
  intros [_ Hids] Hperm.
  assert (Hfound : ∀ pid, pid ∈ pids →
            is_Some (first_match M pid) ∧ is_Some (first_match B pid)).
  { intros pid Hpid. rewrite Hperm in Hpid. unfold to_set in Hpid.
    rewrite list_elem_of_filter, !elem_of_remove_dups in Hpid.
    destruct Hpid as [HinM HinB].
    assert (is_Some pid).
    { apply list_elem_of_fmap in HinB as (r & -> & Hr). by apply Hids. }
    split; by apply first_match_is_Some. }
  split; [by apply update_existing_order |].
  pose proof (update_existing_spec M B pids [] Hfound) as Hspec.
  replace ({| columns := columns M;
              rows := imap (λ i r, if decide (r !! ID ∈ []) then merge_row M B i r else r)
                           (rows M) |}) with M in Hspec.
  - by rewrite Hspec.
  - destruct M as [cols rws]. simpl. f_equal. apply list_eq. intros i.
    rewrite list_lookup_imap. by destruct (rws !! i).
Qed.

Lemma example_batch_both_has_ids : has_ids example_batch_both.
Proof.
  split; [by left |]. intros r Hr. simpl in Hr.
  repeat (apply elem_of_cons in Hr as [->|Hr]); [by vm_compute; eauto..|].
  by apply elem_of_nil in Hr.
Qed.

Lemma update_order_is_irrelevant_witness :
  (has_ids example_batch_both ∧
   filter (λ x, x ∈ to_set (column example_master ID))
     (to_set (column example_batch_both ID))
   = [Some (Str "ICU-000002"); Some (Str "ICU-000001")] ∧
   [Some (Str "ICU-000001"); Some (Str "ICU-000002")]
   ≡ₚ filter (λ x, x ∈ to_set (column example_master ID))
        (to_set (column example_batch_both ID))) ∧
  update_existing example_master example_batch_both
    [Some (Str "ICU-000001"); Some (Str "ICU-000002")]
  = update_existing example_master example_batch_both
      (filter (λ x, x ∈ to_set (column example_master ID))
         (to_set (column example_batch_both ID))) ∧
  (update_existing example_master example_batch_both
     [Some (Str "ICU-000001"); Some (Str "ICU-000002")]).1 = None.
Proof.
  assert (HL : filter (λ x, x ∈ to_set (column example_master ID))
                 (to_set (column example_batch_both ID))
               = [Some (Str "ICU-000002"); Some (Str "ICU-000001")])
    by (vm_compute; reflexivity).
  assert (H : [Some (Str "ICU-000001"); Some (Str "ICU-000002")]
              ≡ₚ filter (λ x, x ∈ to_set (column example_master ID))
                   (to_set (column example_batch_both ID)))
    by (rewrite HL; apply perm_swap).
  split; [exact (conj example_batch_both_has_ids (conj HL H)) |].
  exact (update_order_is_irrelevant example_master example_batch_both _
           example_batch_both_has_ids H).
Defined.

End merge_order.
